(** * pyxem: indexation utilities and vector geometry

    A shallow embedding of the result reduction, vector matching,
    correlation and geometry routines of
    [pyxem/utils/indexation_utils.py] and [pyxem/utils/vectors.py].

    Conventions.
    - Python exceptions are values of [exn]; a function that may raise
      returns a [result].
    - Scores, errors and tolerances handled by the reduction and matching
      code are exact rationals ([Q]): every finite float is a rational and
      the code only compares, subtracts and divides them.  Rounding is not
      modelled.  A Python true division by zero raises
      [ZeroDivisionError].
    - The geometry of [vectors.py] and the normalised polar templates
      are modelled over the real numbers; an array entry that NumPy
      leaves unassigned or turns into a NaN is [None]. *)

From Stdlib Require Import List Bool Arith ZArith QArith Qabs Qround Qminmax.
From Stdlib Require Import Lia Lqa Reals Lra Psatz.
From Stdlib Require Import Permutation Sorted.
From Stdlib Require String.
Import ListNotations.

(** ** Python results *)

Module Py.

Inductive exn : Type :=
| IndexError
| ValueError
| ZeroDivisionError
| AttributeError
| UnboundLocalError.

Inductive result (A : Type) : Type :=
| Ok (a : A)
| Raise (e : exn).

Arguments Ok {A} a.
Arguments Raise {A} e.

Definition bind {A B : Type} (m : result A) (k : A -> result B) : result B :=
  match m with
  | Ok a => k a
  | Raise e => Raise e
  end.

Definition returns {A : Type} (m : result A) : Prop :=
  exists a, m = Ok a.

(** Python's [a / b] on numbers. *)
Definition truediv (a b : Q) : result Q :=
  if Qeq_bool b 0 then Raise ZeroDivisionError else Ok (a / b).

(** [xs[i]] for a non-negative index. *)
Definition getitem {A : Type} (xs : list A) (i : nat) : result A :=
  match nth_error xs i with
  | Some x => Ok x
  | None => Raise IndexError
  end.

End Py.

Import Py.

Notation "x <- m ;; k" := (Py.bind m (fun x => k))
  (at level 61, m at next level, right associativity).

(** ** Exact-rational helpers shared by the reductions *)

Definition Qltb (a b : Q) : bool := negb (Qle_bool b a).

(** Stable insertion sorts on a rational key: among equal keys the
    original order is kept, as in Python's [sorted] (also with
    [reverse=True]). *)
Section KeySort.
Context {A : Type} (key : A -> Q).

Fixpoint insert_asc (x : A) (l : list A) : list A :=
  match l with
  | [] => [x]
  | y :: l' => if Qle_bool (key x) (key y) then x :: l else y :: insert_asc x l'
  end.

Definition sort_asc (l : list A) : list A :=
  fold_right (fun x acc => insert_asc x acc) [] l.

Fixpoint insert_desc (x : A) (l : list A) : list A :=
  match l with
  | [] => [x]
  | y :: l' => if Qle_bool (key y) (key x) then x :: l else y :: insert_desc x l'
  end.

Definition sort_desc (l : list A) : list A :=
  fold_right (fun x acc => insert_desc x acc) [] l.

Definition key_le (a b : A) : Prop := key a <= key b.

End KeySort.

(** ** NumPy reductions on a one-dimensional array of scores *)

Module Np.

(** [np.unique(a).shape[0]] *)
Definition unique_count (a : list Z) : nat := length (nodup Z.eq_dec a).

(** Index of the first maximum, scanning from the left. *)
Fixpoint argmax_from (best_i : nat) (best : Q) (i : nat) (l : list Q) : nat :=
  match l with
  | [] => best_i
  | x :: l' =>
      if Qltb best x then argmax_from i x (S i) l'
      else argmax_from best_i best (S i) l'
  end.

(** [np.argmax(a)]: raises on an empty array. *)
Definition argmax (a : list Q) : result nat :=
  match a with
  | [] => Raise ValueError
  | x :: l => Ok (argmax_from 0%nat x 1%nat l)
  end.

(** [np.max(a)]: raises on an empty array. *)
Definition max (a : list Q) : result Q :=
  match a with
  | [] => Raise ValueError
  | x :: l => Ok (fold_left (fun m y => if Qltb m y then y else m) l x)
  end.

(** [np.partition(a, -2)[-2]]: the element a full ascending sort puts at
    position [len(a) - 2]; [kth = -2] is out of bounds below two
    elements. *)
Definition partition_second_last (a : list Q) : result Q :=
  if (length a <? 2)%nat then Raise ValueError
  else getitem (sort_asc (fun x => x) a) (length a - 2).

End Np.

(** ** Result reduction for template matching *)

Module Template.

Definition orientation : Type := (Q * Q * Q)%type.

(** One row [[phase, [z, x, z], correlation]] of [z_matches]. *)
Record match_row : Type := mk_row {
  phase : Z;
  orient : orientation;
  score : Q
}.

(** The [metrics] dict; [phase_reliability] is only set in the
    multi-phase branch. *)
Record metrics : Type := mk_metrics {
  correlation : Q;
  orientation_reliability : Q;
  phase_reliability : option Q
}.

(** [results_array]: [[phase, orientation, metrics]]. *)
Record crystal : Type := mk_crystal {
  best_phase : Z;
  best_orientation : orientation;
  best_metrics : metrics
}.

Definition same_phase (p : Z) (z : list match_row) : list match_row :=
  filter (fun r => Z.eqb (phase r) p) z.

Definition other_phase (p : Z) (z : list match_row) : list match_row :=
  filter (fun r => negb (Z.eqb (phase r) p)) z.

(** The two branches of [crystal_from_template_matching], in the order
    the source evaluates them. *)
Definition crystal_from_template_matching (z_matches : list match_row)
  : result crystal :=
  if Nat.eqb (Np.unique_count (map phase z_matches)) 1 then
    r0 <- getitem z_matches 0 ;;
    rel <- (if Qltb 0 (score r0)
            then r1 <- getitem z_matches 1 ;;
                 q <- truediv (score r1) (score r0) ;;
                 Ok (100 * (1 - q))
            else Ok 100) ;;
    Ok (mk_crystal (phase r0) (orient r0)
          (mk_metrics (score r0) rel None))
  else
    index_best_match <- Np.argmax (map score z_matches) ;;
    best <- getitem z_matches index_best_match ;;
    second_orientation <-
      Np.partition_second_last (map score (same_phase (phase best) z_matches)) ;;
    second_phase <- Np.max (map score (other_phase (phase best) z_matches)) ;;
    q_o <- truediv second_orientation (score best) ;;
    q_p <- truediv second_phase (score best) ;;
    Ok (mk_crystal (phase best) (orient best)
          (mk_metrics (score best) (100 * (1 - q_o)) (Some (100 * (1 - q_p))))).

(** Which branch a result array takes. *)
Definition single_phase (z : list match_row) : Prop :=
  Np.unique_count (map phase z) = 1%nat.

Definition multi_phase (z : list match_row) : Prop :=
  (2 <= Np.unique_count (map phase z))%nat.

(** [s] is the runner-up of [l] behind a top element equal to [b]. *)
Definition second_best (l : list Q) (b s : Q) : Prop :=
  exists t rest,
    Permutation l (t :: s :: rest) /\ t == b /\ s <= t /\
    Forall (fun x => x <= s) rest.

(** [m] is a largest element of [l]. *)
Definition is_max (l : list Q) (m : Q) : Prop :=
  In m l /\ Forall (fun x => x <= m) l.

End Template.

(** ** Vector matching *)

Module Vector.

Definition vec : Type := (Q * Q * Q)%type.
Definition matrix : Type := list (list Q).

Definition identity3 : matrix := [[1; 0; 0]; [0; 1; 0]; [0; 0; 1]].

(** The namedtuple [OrientationResult]. *)
Record OrientationResult : Type := mk_result {
  phase_index : nat;
  rotation_matrix : matrix;
  match_rate : Q;
  error_hkls : list vec;
  total_error : Q;
  scale : Q;
  center_x : Q;
  center_y : Q
}.

(** The dummy value [match_vectors] pads with. *)
Definition sentinel : OrientationResult :=
  mk_result 0 identity3 0 [] 1 1 0 0.

(** [np.rint]: round to nearest, ties to even. *)
Definition rint (x : Q) : Q :=
  let f := Qfloor x in
  match (x - inject_Z f) ?= (1 # 2) with
  | Lt => inject_Z f
  | Gt => inject_Z (f + 1)
  | Eq => if Z.even f then inject_Z f else inject_Z (f + 1)
  end.

(** Pairs in the order of [itertools.combinations(ids, 2)]. *)
Fixpoint combinations2 {A : Type} (l : list A) : list (A * A) :=
  match l with
  | [] => []
  | x :: l' => map (fun y => (x, y)) l' ++ combinations2 l'
  end.

(** Boolean-mask indexing [a[mask]]. *)
Fixpoint select {A : Type} (mask : list bool) (a : list A) : list A :=
  match mask, a with
  | true :: m, x :: a' => x :: select m a'
  | false :: m, _ :: a' => select m a'
  | _, _ => []
  end.

(** [a[start : start + len(vals)] = vals] on an object array whose empty
    slots are [None]. *)
Definition set_slice {A : Type} (a : list (option A)) (start : nat)
  (vals : list A) : list (option A) :=
  firstn start a ++ map Some vals ++ skipn (start + length vals) a.

(** [np.linspace(0, last, n, dtype=int)] *)
Definition linspace_int (last n : nat) : list nat :=
  match n with
  | 0%nat => []
  | 1%nat => [0%nat]
  | _ => map (fun k => (k * last / (n - 1))%nat) (seq 0 n)
  end.

(** [a.argsort()] for a key per position. *)
Definition argsort (keys : list Q) : list nat :=
  sort_asc (fun i => nth i keys 0) (seq 0 (length keys)).

Definition max3 (v : vec) : Q :=
  let '(h, k, l) := v in
  let m := if Qltb h k then k else h in
  if Qltb m l then l else m.

Definition sum3 (v : vec) : Q := let '(h, k, l) := v in h + k + l.

Definition Qsum (l : list Q) : Q := fold_left Qplus l 0.

Section MatchVectors.

(** What the library and its collaborators supply: the rows of
    [phase["indices"]], the phase's structure, [np.linalg.norm],
    [get_angle_cartesian], the polar angle of [_cart2polar], the rotation
    of [get_rotation_matrix_between_vectors] onto the reference vectors
    of one pair of hkls, and the fractional hkl of every peak under a
    rotation ([lattice_recip.fractional] of the rotated peaks). *)
Variable hkl_pair : Type.
Variable structure : Type.
Variable norm : vec -> Q.
Variable get_angle_cartesian : vec -> vec -> Q.
Variable polar_angle : vec -> Q.
Variable rotation_onto : structure -> vec -> vec -> hkl_pair -> matrix.
Variable fractional_hkls : structure -> matrix -> list vec -> list vec.

(** One phase of the library, with its entry of [library.structures]. *)
Record phase : Type := mk_phase {
  phase_structure : structure;
  indices : list hkl_pair;
  measurements : list (Q * Q * Q)
}.

Definition _choose_peak_ids (peaks : list vec) (n_peaks_to_index : nat)
  : list nat :=
  let order := argsort (map polar_angle peaks) in
  map (fun k => nth k order 0%nat)
      (linspace_int (length peaks - 1) n_peaks_to_index).

(** The three chained comparisons that build [tolerance_mask]. *)
Definition tolerance_mask (ph : phase) (q1_len q2_len angle mag_tol angle_tol : Q)
  : list bool :=
  map (fun m : Q * Q * Q =>
         let '(m0, m1, m2) := m in
         Qltb (Qabs (m0 - q1_len)) mag_tol &&
         Qltb (Qabs (m1 - q2_len)) mag_tol &&
         Qltb (Qabs (m2 - angle)) angle_tol)
      (measurements ph).

Definition ehkls_of (hkls : list vec) : list vec :=
  map (fun v : vec =>
         let '(h, k, l) := v in
         (Qabs (h - rint h), Qabs (k - rint k), Qabs (l - rint l)))
      hkls.

Definition rhkls_of (hkls : list vec) : list vec :=
  map (fun v : vec => let '(h, k, l) := v in (rint h, rint k, rint l)) hkls.

(** One matched library row: the candidate solution and its rounded hkls. *)
Definition candidate (phase_index : nat) (ph : phase) (peaks : list vec)
  (index_error_tol : Q) (q1 q2 : vec) (hkls : hkl_pair)
  : OrientationResult * list vec :=
  let R := rotation_onto (phase_structure ph) q1 q2 hkls in
  let hklss := fractional_hkls (phase_structure ph) R peaks in
  let ehkls := ehkls_of hklss in
  let valid_peak_count :=
    length (filter (fun e => Qltb (max3 e) index_error_tol) ehkls) in
  let error_mean :=
    Qsum (map sum3 ehkls) / inject_Z (Z.of_nat (length ehkls * 3)) in
  let num_peaks := length peaks in
  let match_rate :=
    match num_peaks with
    | 0%nat => 0
    | _ => inject_Z (Z.of_nat valid_peak_count) * (1 / inject_Z (Z.of_nat num_peaks))
    end in
  (mk_result phase_index R match_rate ehkls error_mean 1 0 0, rhkls_of hklss).

(** The body of the loop over peak pairs: the solutions one pair adds. *)
Definition pair_solutions (phase_index : nat) (ph : phase) (peaks : list vec)
  (mag_tol angle_tol index_error_tol : Q) (ids : nat * nat)
  : list (OrientationResult * list vec) :=
  let q1 := nth (fst ids) peaks (0, 0, 0) in
  let q2 := nth (snd ids) peaks (0, 0, 0) in
  let '(q1, q2) := if Qltb (norm q1) (norm q2) then (q2, q1) else (q1, q2) in
  let angle := get_angle_cartesian q1 q2 in
  let mask := tolerance_mask ph (norm q1) (norm q2) angle mag_tol angle_tol in
  if Nat.eqb (length (filter (fun b => b) mask)) 0 then []
  else
    filter (fun c => Qltb 0 (match_rate (fst c)))
      (map (candidate phase_index ph peaks index_error_tol q1 q2)
           (select mask (indices ph))).

Definition phase_solutions (phase_index : nat) (ph : phase) (peaks : list vec)
  (mag_tol angle_tol index_error_tol : Q) (n_peaks_to_index : nat)
  : list (OrientationResult * list vec) :=
  flat_map (pair_solutions phase_index ph peaks mag_tol angle_tol index_error_tol)
    (combinations2 (_choose_peak_ids peaks n_peaks_to_index)).

(** The loop over the phases; the state is [(top_matches, res_rhkls)]. *)
Fixpoint match_phases (peaks : list vec)
  (mag_tol angle_tol index_error_tol : Q) (n_peaks_to_index n_best : nat)
  (phase_index : nat) (library : list phase)
  (st : list (option OrientationResult) * list (list vec))
  : list (option OrientationResult) * list (list vec) :=
  match library with
  | [] => st
  | ph :: rest =>
      let continue_with :=
        match_phases peaks mag_tol angle_tol index_error_tol
          n_peaks_to_index n_best (S phase_index) rest in
      if (length peaks <? 2)%nat then continue_with st
      else
        let found :=
          phase_solutions phase_index ph peaks mag_tol angle_tol
            index_error_tol n_peaks_to_index in
        let solutions := map fst found in
        let n_solutions := Nat.min n_best (length solutions) in
        let i := (phase_index * n_best)%nat in
        let top1 :=
          if (0 <? n_solutions)%nat
          then set_slice (fst st) i
                 (firstn n_solutions (sort_desc match_rate solutions))
          else fst st in
        let top2 :=
          if (n_solutions <? n_best)%nat
          then set_slice top1 (i + n_solutions)
                 (repeat sentinel (n_best - n_solutions))
          else top1 in
        continue_with (top2, snd st ++ map snd found)
  end.

(** [match_vectors]: the pair [(top_matches, res_rhkls)].  An entry of
    [top_matches] left as [None] is a slot of [np.empty(..., dtype="object")]
    that was never assigned. *)
Definition match_vectors (peaks : list vec) (library : list phase)
  (mag_tol angle_tol index_error_tol : Q) (n_peaks_to_index n_best : nat)
  : list (option OrientationResult) * list (list vec) :=
  match_phases peaks mag_tol angle_tol index_error_tol n_peaks_to_index n_best
    0 library (repeat None (length library * n_best), []).

(** The [n_best] rows of phase number [k]. *)
Definition phase_rows (top_matches : list (option OrientationResult))
  (n_best k : nat) : list (option OrientationResult) :=
  firstn n_best (skipn (k * n_best) top_matches).

(** What a phase with at least two peaks writes into its [n_best] rows:
    its best solutions by descending match rate, then the padding. *)
Definition written_rows (peaks : list vec)
  (mag_tol angle_tol index_error_tol : Q) (n_peaks_to_index n_best : nat)
  (k : nat) (ph : phase) : list (option OrientationResult) :=
  let solutions :=
    map fst (phase_solutions k ph peaks mag_tol angle_tol index_error_tol
               n_peaks_to_index) in
  let n_solutions := Nat.min n_best (length solutions) in
  map Some (firstn n_solutions (sort_desc match_rate solutions)) ++
  repeat (Some sentinel) (n_best - n_solutions).

Fixpoint written_from (peaks : list vec)
  (mag_tol angle_tol index_error_tol : Q) (n_peaks_to_index n_best : nat)
  (k : nat) (library : list phase) : list (option OrientationResult) :=
  match library with
  | [] => []
  | ph :: rest =>
      written_rows peaks mag_tol angle_tol index_error_tol n_peaks_to_index
        n_best k ph ++
      written_from peaks mag_tol angle_tol index_error_tol n_peaks_to_index
        n_best (S k) rest
  end.

End MatchVectors.

Section CrystalMap.

(** [np.rad2deg(mat2euler(R, "rzxz"))], from transforms3d. *)
Variable euler_degrees : matrix -> vec.

(** The array handed to the reduction: the results of one position,
    directly or wrapped in an array of shape [(1,)] as the signal's map
    passes them. *)
Inductive z_array : Type :=
| Direct (results : list OrientationResult)
| Wrapped (results : list OrientationResult).

Record vector_metrics : Type := mk_vector_metrics {
  vm_match_rate : Q;
  vm_ehkls : list vec;
  vm_total_error : Q;
  vm_phase_reliability : option Q;
  vm_orientation_reliability : Q
}.

Record vector_crystal : Type := mk_vector_crystal {
  vc_phase : nat;
  vc_orientation : vec;
  vc_metrics : vector_metrics
}.

(** [if z_matches.shape == (1,): z_matches = z_matches[0]].  A direct
    array of one result has that shape too: it is replaced by the
    namedtuple itself, on which [get_nth_best_solution] finds no
    [tolist] in either branch of its [try]. *)
Definition unwrap (z_matches : z_array) : result (list OrientationResult) :=
  match z_matches with
  | Wrapped results => Ok results
  | Direct [_] => Raise AttributeError
  | Direct results => Ok results
  end.

(** [get_nth_best_solution(z, "vector", rank, key="total_error",
    descending=False)]: [z[0]] is read first, then the sorted list is
    indexed. *)
Definition get_nth_best_solution (z : list OrientationResult) (rank : nat)
  : result OrientationResult :=
  _ <- getitem z 0 ;;
  getitem (sort_asc total_error z) rank.

(** [x or 1.0] *)
Definition or_one (x : Q) : Q := if Qeq_bool x 0 then 1 else x.

(** The division for [phase_reliability] has no guard.  The model raises
    on a zero divisor, as Python's floats do; NumPy's float scalars give
    an infinity or a NaN there instead, so the properties below of this
    division are stated for a divisor that is not zero. *)
Definition crystal_from_vector_matching (z_matches : z_array)
  : result vector_crystal :=
  z <- unwrap z_matches ;;
  best_match <- get_nth_best_solution z 0 ;;
  let other_phase_matches :=
    filter (fun m => negb (Nat.eqb (phase_index m) (phase_index best_match))) z in
  sel <-
    match other_phase_matches with
    | _ :: _ =>
        second_best_phase <- getitem (sort_asc total_error other_phase_matches) 0 ;;
        q <- truediv (total_error best_match) (total_error second_best_phase) ;;
        let same_phase_matches :=
          filter (fun m => Nat.eqb (phase_index m) (phase_index best_match)) z in
        second_match <- getitem (sort_asc total_error same_phase_matches) 1 ;;
        Ok (Some (100 * (1 - q)), second_match)
    | [] =>
        second_match <- get_nth_best_solution z 1 ;;
        Ok (None, second_match)
    end ;;
  let '(phase_rel, second_match) := sel in
  q <- truediv (total_error best_match) (or_one (total_error second_match)) ;;
  Ok (mk_vector_crystal (phase_index best_match)
        (euler_degrees (rotation_matrix best_match))
        (mk_vector_metrics (match_rate best_match) (error_hkls best_match)
           (total_error best_match) phase_rel (100 * (1 - q)))).

End CrystalMap.

(** A small concrete library for worked examples: peaks on the positive
    x axis.  For such vectors the Euclidean norm is the sum of the
    absolute coordinates, the angle between any two of them is 0 and
    their polar angle is 0, as is their y coordinate, which stands for
    the polar angle of [_cart2polar].  The library holds one
    phase with one pair of hkls, (2 0 0) and (1 0 0) of a cubic lattice
    with unit cell 1: the reference vectors are (2, 0, 0) and (1, 0, 0),
    the rotation of the peaks (2, 0, 0), (1, 0, 0) onto them is the
    identity, and the fractional coordinates are the Cartesian ones. *)
Module Demo.

Definition norm (v : vec) : Q :=
  let '(x, y, z) := v in Qabs x + Qabs y + Qabs z.

Definition get_angle_cartesian (a b : vec) : Q := 0.

Definition polar_angle (v : vec) : Q := let '(x, y, z) := v in y.

Definition rotation_onto (s : unit) (q1 q2 : vec) (hkls : unit) : matrix :=
  identity3.

Definition fractional_hkls (s : unit) (R : matrix) (peaks : list vec)
  : list vec := peaks.

(** One library row whose magnitudes are exactly 2 and 1, at angle 0. *)
Definition library : list (phase unit unit) :=
  [mk_phase unit unit tt [tt] [(2, 1, 0)]].

Definition match_vectors :=
  Vector.match_vectors unit unit norm get_angle_cartesian polar_angle
    rotation_onto fractional_hkls.

End Demo.

End Vector.
(** ** Correlation metrics and [correlate_library] *)

Module Corr.

(** The floating-point operations the metrics use.  They are total, as
    NumPy's are on float64 (a division by zero yields an infinity or a
    NaN, not an exception); the properties below hold for every
    implementation of them. *)
Class Float (F : Type) : Type := {
  fzero : F;
  fof_Z : Z -> F;
  fadd : F -> F -> F;
  fsub : F -> F -> F;
  fmul : F -> F -> F;
  fdiv : F -> F -> F;
  fsqrt : F -> F;
  feqb : F -> F -> bool;
  fltb : F -> F -> bool
}.

Inductive method : Type :=
| zero_mean_normalized_correlation_method
| fast_correlation_method
| full_frame_correlation_method
| unknown_method.

(** One cell of the object array [top_matches]; [CNone] is a slot of
    [np.empty(..., dtype="object")] that was never assigned. *)
Inductive cell (F : Type) : Type :=
| CNone
| CPhase (phase_index : nat)
| COrient (z x z' : F)
| CScore (correlation : F).

Arguments CNone {F}.
Arguments CPhase {F} phase_index.
Arguments COrient {F} z x z'.
Arguments CScore {F} correlation.

Section Metrics.
Context {F : Type} {FF : Float F}.

Definition np_sum (l : list F) : F := fold_left fadd l fzero.

Definition np_average (l : list F) : F :=
  fdiv (np_sum l) (fof_Z (Z.of_nat (length l))).

Definition np_norm (l : list F) : F :=
  fsqrt (np_sum (map (fun x => fmul x x) l)).

Fixpoint zip_with (f : F -> F -> F) (a b : list F) : list F :=
  match a, b with
  | x :: a', y :: b' => f x y :: zip_with f a' b'
  | _, _ => []
  end.

(** [np.multiply(a, b)] on one-dimensional arrays: equal lengths, or one
    of them of length one; other shapes do not broadcast. *)
Definition np_multiply (a b : list F) : result (list F) :=
  if Nat.eqb (length a) (length b) then Ok (zip_with fmul a b)
  else match a, b with
       | [x], _ => Ok (map (fmul x) b)
       | _, [y] => Ok (map (fun x => fmul x y) a)
       | _, _ => Raise ValueError
       end.

Definition fast_correlation (image_intensities int_local : list F) (pn_local : F)
  : result F :=
  prod <- np_multiply image_intensities int_local ;;
  Ok (fdiv (np_sum prod) pn_local).

Definition average_pattern_intensity (nb_pixels : nat) (int_local : list F) : F :=
  fdiv (fmul (fof_Z (Z.of_nat (length int_local))) (np_average int_local))
       (fof_Z (Z.of_nat nb_pixels)).

Definition match_denominator (nb_pixels : nat) (image_std : F)
  (int_local : list F) : F :=
  let avg := average_pattern_intensity nb_pixels int_local in
  fmul image_std
    (fadd (np_norm (map (fun x => fsub x avg) int_local))
          (fmul (fof_Z (Z.of_nat nb_pixels - Z.of_nat (length int_local)))
                (fmul avg avg))).

Definition zero_mean_normalized_correlation (nb_pixels : nat)
  (image_std average_image_intensity : F)
  (image_intensities int_local : list F) : result F :=
  let avg := average_pattern_intensity nb_pixels int_local in
  prod <- np_multiply image_intensities int_local ;;
  let match_numerator :=
    fsub (np_sum prod)
         (fmul (fmul (fof_Z (Z.of_nat nb_pixels)) average_image_intensity) avg) in
  let den := match_denominator nb_pixels image_std int_local in
  if feqb den fzero then Ok fzero
  else Ok (fdiv match_numerator den).

(** A two-dimensional image. *)
Record image2d : Type := mk_image {
  img_rows : nat;
  img_cols : nat;
  img_at : nat -> nat -> F
}.

Definition img_flat (image : image2d) : list F :=
  flat_map (fun y => map (img_at image y) (seq 0 (img_cols image)))
           (seq 0 (img_rows image)).

(** An integer index into an axis of size [dim]: negative indices count
    from the end. *)
Definition np_index (dim : nat) (i : Z) : result nat :=
  if (0 <=? i)%Z && (i <? Z.of_nat dim)%Z then Ok (Z.to_nat i)
  else if (Z.opp (Z.of_nat dim) <=? i)%Z && (i <? 0)%Z
       then Ok (Z.to_nat (i + Z.of_nat dim))
       else Raise IndexError.

(** [image[px_local[:, 1], px_local[:, 0]]] *)
Fixpoint extract (image : image2d) (px_local : list (Z * Z)) : result (list F) :=
  match px_local with
  | [] => Ok []
  | (x, y) :: rest =>
      r <- np_index (img_rows image) y ;;
      c <- np_index (img_cols image) x ;;
      tl <- extract image rest ;;
      Ok (img_at image r c :: tl)
  end.

(** One template of a library entry: orientation, pixel coordinates,
    intensities and pattern norm, as zipped by [zip_for_locals]. *)
Record template : Type := mk_template {
  or_local : F * F * F;
  px_local : list (Z * Z);
  int_local : list F;
  pn_local : F
}.

(** Index of the first minimum of a non-empty array. *)
Fixpoint argmin_from (best_i : nat) (best : F) (i : nat) (l : list F) : nat :=
  match l with
  | [] => best_i
  | x :: l' =>
      if fltb x best then argmin_from i x (S i) l'
      else argmin_from best_i best (S i) l'
  end.

Definition np_argmin (a : list F) : result nat :=
  match a with
  | [] => Raise ValueError
  | x :: l => Ok (argmin_from 0 x 1 l)
  end.

Fixpoint set_nth {A : Type} (l : list A) (i : nat) (v : A) : list A :=
  match l, i with
  | [], _ => []
  | _ :: l', O => v :: l'
  | x :: l', S i' => x :: set_nth l' i' v
  end.

(** Ascending insertion sort on the score column. *)
Fixpoint insert_score {A : Type} (x : A * F) (l : list (A * F)) : list (A * F) :=
  match l with
  | [] => [x]
  | y :: l' => if fltb (snd y) (snd x) then y :: insert_score x l' else x :: l
  end.

Definition sort_score {A : Type} (l : list (A * F)) : list (A * F) :=
  fold_right insert_score [] l.

Definition row (phase_index : nat) (e : (F * F * F) * F) : list (cell F) :=
  let '((z, x, z'), c) := e in [CPhase phase_index; COrient z x z'; CScore c].

(** The score of one template under [method]; no branch assigns
    [corr_local] for the other method names. *)
Definition corr_of (m : method) (nb_pixels : nat)
  (image_std average_image_intensity : F) (image : image2d) (t : template)
  : result F :=
  image_intensities <- extract image (px_local t) ;;
  match m with
  | zero_mean_normalized_correlation_method =>
      zero_mean_normalized_correlation nb_pixels image_std
        average_image_intensity image_intensities (int_local t)
  | fast_correlation_method =>
      fast_correlation image_intensities (int_local t) (pn_local t)
  | _ => Raise UnboundLocalError
  end.

(** The loop over the templates of one phase.  The state is
    [(or_saved, corr_saved)] zipped, and the phase's block of
    [top_matches], rewritten after every template. *)
Fixpoint phase_loop (m : method) (nb_pixels : nat)
  (image_std average_image_intensity : F) (image : image2d)
  (phase_index : nat) (templates : list template)
  (saved : list ((F * F * F) * F)) (block : list (list (cell F)))
  : result (list (list (cell F))) :=
  match templates with
  | [] => Ok block
  | t :: rest =>
      corr_local <- corr_of m nb_pixels image_std average_image_intensity image t ;;
      i <- np_argmin (map snd saved) ;;
      lowest <- getitem (map snd saved) i ;;
      let saved' :=
        if fltb lowest corr_local then set_nth saved i (or_local t, corr_local)
        else saved in
      let combined_array := rev (sort_score saved') in
      phase_loop m nb_pixels image_std average_image_intensity image
        phase_index rest saved' (map (row phase_index) combined_array)
  end.

Fixpoint phases_loop (m : method) (nb_pixels : nat)
  (image_std average_image_intensity : F) (image : image2d)
  (garbage : F * F * F) (n_largest : nat)
  (phase_index : nat) (library : list (list template))
  : result (list (list (list (cell F)))) :=
  match library with
  | [] => Ok []
  | templates :: rest =>
      block <- phase_loop m nb_pixels image_std average_image_intensity image
                 phase_index templates
                 (repeat (garbage, fzero) n_largest)
                 (repeat [CNone; CNone; CNone] n_largest) ;;
      blocks <- phases_loop m nb_pixels image_std average_image_intensity image
                  garbage n_largest (S phase_index) rest ;;
      Ok (block :: blocks)
  end.

(** [correlate_library].  [garbage] is the content of the uninitialised
    [np.empty((n_largest, 3))]; [mask] is compared with [1]. *)
Definition correlate_library (garbage : F * F * F) (image : image2d)
  (library : list (list template)) (n_largest : nat) (m : method) (mask : Z)
  : result (list (list (cell F))) :=
  let nb_pixels := (img_rows image * img_cols image)%nat in
  let average_image_intensity := np_average (img_flat image) in
  let image_std :=
    np_norm (map (fun x => fsub x average_image_intensity) (img_flat image)) in
  if Z.eqb mask 1 then
    blocks <- phases_loop m nb_pixels image_std average_image_intensity image
                garbage n_largest 0 library ;;
    Ok (concat blocks)
  else Ok (concat (repeat (repeat [CNone; CNone; CNone] n_largest)
                     (length library))).

(** A block of [n] rows of three cells. *)
Definition well_shaped (n : nat) (block : list (list (cell F))) : Prop :=
  length block = n /\ Forall (fun r => length r = 3%nat) block.

End Metrics.

(** Exact rationals as a stand-in for floats in worked examples; the
    square root is exact on squares of rationals. *)
#[global] Instance Float_Q : Float Q := {|
  fzero := 0;
  fof_Z := inject_Z;
  fadd := Qplus;
  fsub := Qminus;
  fmul := Qmult;
  fdiv := Qdiv;
  fsqrt := fun q => Z.sqrt (Qnum q * Z.pos (Qden q)) # Qden q;
  feqb := Qeq_bool;
  fltb := Qltb
|}.

End Corr.

(** ** Vector geometry over the reals *)

Module Geometry.

Local Open Scope R_scope.

Definition vec3 : Type := (R * R * R)%type.

(** A 3x3 matrix by rows. *)
Definition mat3 : Type := (vec3 * vec3 * vec3)%type.

Definition identity : mat3 := ((1, 0, 0), (0, 1, 0), (0, 0, 1)).

Definition cross (a b : vec3) : vec3 :=
  let '(a1, a2, a3) := a in
  let '(b1, b2, b3) := b in
  (a2 * b3 - a3 * b2, a3 * b1 - a1 * b3, a1 * b2 - a2 * b1).

Definition dot (a b : vec3) : R :=
  let '(a1, a2, a3) := a in
  let '(b1, b2, b3) := b in
  a1 * b1 + a2 * b2 + a3 * b3.

Definition norm (a : vec3) : R := sqrt (dot a a).

Definition sum_abs (a : vec3) : R :=
  let '(a1, a2, a3) := a in Rabs a1 + Rabs a2 + Rabs a3.

Definition scale (k : R) (a : vec3) : vec3 :=
  let '(a1, a2, a3) := a in (k * a1, k * a2, k * a3).

(** [np.isclose(x, 0.0)] with the default tolerances: [|x| <= 1e-8]. *)
Definition isclose0 (x : R) : bool :=
  if Rle_dec (Rabs x) (1 / 100000000) then true else false.

(** [normalize_or_zero] on one row. *)
Definition normalize_or_zero (v : vec3) : vec3 :=
  if Rlt_dec 0 (norm v) then scale (/ norm v) v else v.

(** [np.clip(x, -1.0, 1.0)] *)
Definition clip (x : R) : R := Rmin (Rmax x (-1)) 1.

(** [get_angle_cartesian_vec] on one row. *)
Definition get_angle_cartesian_vec (a b : vec3) : R :=
  let denom := norm a * norm b in
  if Req_dec_T denom 0 then 0 else acos (clip (dot a b / denom)).

(** [transforms3d.axangles.axangle2mat(axis, angle, is_normalized=True)] *)
Definition axangle2mat (axis : vec3) (angle : R) : mat3 :=
  let '(x, y, z) := axis in
  let c := cos angle in
  let s := sin angle in
  let C := 1 - c in
  let xs := x * s in let ys := y * s in let zs := z * s in
  let xC := x * C in let yC := y * C in let zC := z * C in
  let xyC := x * yC in let yzC := y * zC in let zxC := z * xC in
  ((x * xC + c, xyC - zs, zxC + ys),
   (xyC + zs, y * yC + c, yzC - xs),
   (zxC - ys, yzC + xs, z * zC + c)).

Definition matvec (m : mat3) (v : vec3) : vec3 :=
  let '(r1, r2, r3) := m in (dot r1 v, dot r2 v, dot r3 v).

Definition transpose (m : mat3) : mat3 :=
  let '((a11, a12, a13), (a21, a22, a23), (a31, a32, a33)) := m in
  ((a11, a21, a31), (a12, a22, a32), (a13, a23, a33)).

Definition matmul (a b : mat3) : mat3 :=
  let '(r1, r2, r3) := a in
  let bt := transpose b in
  (matvec bt r1, matvec bt r2, matvec bt r3).

(** The rotation for one row [(to_v1, to_v2)] of the target arrays. *)
Definition rotation_row (from_v1 from_v2 to_v1 to_v2 : vec3) : mat3 :=
  let plane_normal_from := cross from_v1 from_v2 in
  let plane_normal_to := cross to_v1 to_v2 in
  let plane_common_axes := cross plane_normal_from plane_normal_to in
  let plane_normal_to :=
    if isclose0 (sum_abs plane_normal_to) then cross from_v1 to_v1
    else plane_normal_to in
  let plane_normal_to :=
    if isclose0 (sum_abs plane_normal_to) then cross from_v2 to_v2
    else plane_normal_to in
  let plane_normal_to := normalize_or_zero plane_normal_to in
  let plane_common_axes := normalize_or_zero plane_common_axes in
  let common_valid := negb (isclose0 (sum_abs plane_common_axes)) in
  let angle := get_angle_cartesian_vec plane_normal_from plane_normal_to in
  let R1 :=
    if common_valid then axangle2mat plane_common_axes angle else identity in
  let rot_from_v1 := matvec R1 from_v1 in
  let rot_from_v2 := matvec R1 from_v2 in
  let angle1 := get_angle_cartesian_vec rot_from_v1 to_v1 in
  let angle2 := get_angle_cartesian_vec rot_from_v2 to_v2 in
  let angle := (1 / 2) * (angle1 + angle2) in
  let neg_angle_mask :=
    if Rlt_dec (dot (cross rot_from_v1 to_v1) plane_normal_to) 0
    then true else false in
  let angle := if neg_angle_mask then - angle else angle in
  let R2 := axangle2mat plane_normal_to angle in
  matmul R2 R1.

(** [get_rotation_matrix_between_vectors]: one matrix per target row.
    Target arrays with different numbers of rows do not get past the
    first steps: [np.cross] cannot broadcast them ([ValueError]), or,
    when one of them has a single row, the boolean mask of the degenerate
    rows does not fit it ([IndexError]).  With no target row at all
    [R2] is an empty one-dimensional array and the final
    [np.matmul(R2, R1)] raises [ValueError]. *)
Definition get_rotation_matrix_between_vectors (from_v1 from_v2 : vec3)
  (to_v1 to_v2 : list vec3) : result (list mat3) :=
  if negb (Nat.eqb (length to_v1) (length to_v2)) then
    if Nat.eqb (length to_v1) 1 || Nat.eqb (length to_v2) 1
    then Raise IndexError
    else Raise ValueError
  else
    match to_v1 with
    | [] => Raise ValueError
    | _ :: _ =>
        Ok (map (fun t => rotation_row from_v1 from_v2 (fst t) (snd t))
                (combine to_v1 to_v2))
    end.

(** [np.arctan2(y, x)] *)
Definition arctan2 (y x : R) : R :=
  if Rlt_dec 0 x then atan (y / x)
  else if Rlt_dec x 0 then
    if Rle_dec 0 y then atan (y / x) + PI else atan (y / x) - PI
  else if Rlt_dec 0 y then PI / 2
  else if Rlt_dec y 0 then - (PI / 2)
  else 0.

(** A row of a vectors array: the x and y columns and any further
    columns. *)
Record vrow : Type := mk_vrow {
  col0 : R;
  col1 : R;
  more : list R
}.

(** [vectors_to_polar] with the default [columns = [0, 1]]. *)
Definition vectors_to_polar (vectors : list vrow) : list vrow :=
  map (fun v =>
         mk_vrow (sqrt (col0 v * col0 v + col1 v * col1 v))
                 (arctan2 (col1 v) (col0 v))
                 (more v))
      vectors.

(** [polar_to_cartesian]: two columns, whatever follows is dropped. *)
Definition polar_to_cartesian (vectors : list vrow) : list (R * R) :=
  map (fun v =>
         let k := col0 v in
         let phi := col1 v in
         (k * cos phi, k * sin phi))
      vectors.

End Geometry.

(** ** More of [vectors.py], over the reals *)

Module Vectors.

Import Geometry.
Local Open Scope R_scope.

(** [get_angle_cartesian]: [math.acos(max(-1.0, min(1.0, dot / denom)))],
    or [0.0] when [denom == 0]. *)
Definition get_angle_cartesian (a b : vec3) : R :=
  let denom := norm a * norm b in
  if Req_dec_T denom 0 then 0
  else acos (Rmax (-1) (Rmin 1 (dot a b / denom))).

(** [get_angle_cartesian_vec] on two arrays of rows: the shapes are
    compared first. *)
Definition get_angle_cartesian_vec_rows (a b : list vec3) : result (list R) :=
  if Nat.eqb (length a) (length b)
  then Ok (map (fun p => get_angle_cartesian_vec (fst p) (snd p)) (combine a b))
  else Raise ValueError.

(** [detector_to_fourier]; [camera_length] is not used by the body.
    [1 / wavelength**2] raises on a zero wavelength.  For a row outside
    the Ewald sphere NumPy's square root is a NaN; the third coordinate
    is meaningful only for the rows inside. *)
Definition detector_to_fourier (k_xy : list (R * R)) (wavelength camera_length : R)
  : result (list vec3) :=
  if Req_dec_T wavelength 0 then Raise ZeroDivisionError
  else Ok (map (fun p : R * R =>
                  let '(x, y) := p in
                  (x, y,
                   sqrt (1 / (wavelength * wavelength) - (x * x + y * y))
                   - 1 / wavelength))
               k_xy).

(** [np.linalg.norm(z[:, [0, 1]], axis=1)] on one row. *)
Definition norm01 (r : vrow) : R := sqrt (col0 r * col0 r + col1 r * col1 r).

(** [filter_vectors_ragged] with the default [columns]: the norms below
    the minimum are zeroed, then the norms above the maximum, and the rows
    whose norm is left non-zero are kept. *)
Definition filter_vectors_ragged (z : list vrow) (min_magnitude max_magnitude : R)
  : list vrow :=
  let norms := map norm01 z in
  let norms := map (fun n => if Rlt_dec n min_magnitude then 0 else n) norms in
  let norms := map (fun n => if Rlt_dec max_magnitude n then 0 else n) norms in
  map fst
    (filter (fun p => if Req_dec_T (snd p) 0 then false else true)
            (combine z norms)).

Definition zero_row (r : vrow) : vrow :=
  mk_vrow 0 0 (map (fun _ => 0) (more r)).

(** [filter_vectors_edge_ragged]: [z] is overwritten in place, so the call
    yields the array as it is left and the rows returned.  The second mask
    is taken on the array the first assignment left. *)
Definition filter_vectors_edge_ragged (z : list vrow) (x_threshold y_threshold : R)
  : list vrow * list vrow :=
  let z1 :=
    map (fun r => if Rlt_dec x_threshold (Rabs (col0 r)) then zero_row r else r) z in
  let z2 :=
    map (fun r => if Rlt_dec y_threshold (Rabs (col1 r)) then zero_row r else r) z1 in
  (z2, filter (fun r => if Req_dec_T (col0 r) 0 then false else true) z2).

(** [_reverse_pos] on an array whose last axis has [ncols] entries.  The
    result has two columns; a column no iteration assigns keeps the
    content of [np.empty] ([None]). *)
Fixpoint reverse_loop (ncols : nat) (row : list R) (i ind : nat)
  (acc : option R * option R) : result (option R * option R) :=
  match ind with
  | O => Ok acc
  | S ind' =>
      v <- getitem row i ;;
      acc' <- match i with
              | 0%nat => Ok (fst acc, Some v)
              | 1%nat => Ok (Some v, snd acc)
              | _ => Raise IndexError
              end ;;
      reverse_loop ncols row (S i) ind' acc'
  end.

Fixpoint map_result {A B : Type} (f : A -> result B) (l : list A)
  : result (list B) :=
  match l with
  | [] => Ok []
  | x :: l' => y <- f x ;; ys <- map_result f l' ;; Ok (y :: ys)
  end.

Definition _reverse_pos (ncols : nat) (peaks : list (list R)) (ind : nat)
  : result (list (option R * option R)) :=
  if (ncols <? ind)%nat || (2 <? ind)%nat then Raise IndexError
  else map_result (fun row => reverse_loop ncols row 0 ind (None, None)) peaks.

(** [np.repeat(a, 3)] *)
Definition repeat3 (a : list R) : list R := flat_map (fun x => [x; x; x]) a.

(** [angles[1::3] += d] and [angles[2::3] += d] *)
Fixpoint add_stride (offset : nat) (angles d : list R) : list R :=
  match angles, d with
  | a0 :: a1 :: a2 :: rest, x :: d' =>
      match offset with
      | 1%nat => a0 :: (a1 + x) :: a2 :: add_stride offset rest d'
      | 2%nat => a0 :: a1 :: (a2 + x) :: add_stride offset rest d'
      | _ => a0 :: a1 :: a2 :: add_stride offset rest d'
      end
  | _, _ => angles
  end.

(** [to_cart_three_angles]: rows [(k, delta_phi, min_angle)]. *)
Definition to_cart_three_angles (vectors : list vec3) : list (R * R) :=
  let k := map (fun v : vec3 => fst (fst v)) vectors in
  let delta_phi := map (fun v : vec3 => snd (fst v)) vectors in
  let min_angle := map (fun v : vec3 => snd v) vectors in
  let angles := repeat3 min_angle in
  let angles := add_stride 1 angles delta_phi in
  let angles := add_stride 2 angles (map (fun d => d * 2) delta_phi) in
  let k := repeat3 k in
  map (fun p : R * R => (fst p * cos (snd p), fst p * sin (snd p)))
      (combine k angles).

(** Euclidean distance of [scipy.spatial.distance.cdist]. *)
Definition dist2 (u v : R * R) : R :=
  sqrt ((fst u - fst v) * (fst u - fst v) + (snd u - snd v) * (snd u - snd v)).

(** [np.argmin] of a key over a non-empty list: the first minimum. *)
Fixpoint argmin_key {A : Type} (key : A -> R) (best : A) (l : list A) : A :=
  match l with
  | [] => best
  | x :: l' =>
      if Rlt_dec (key x) (key best) then argmin_key key x l'
      else argmin_key key best l'
  end.

(** [filter_vectors_near_basis] on two-column vectors and basis; a row of
    [nan] is [None]. *)
Definition filter_vectors_near_basis (vectors basis : list (R * R))
  (distance : option R) : list (option (R * R)) :=
  match vectors with
  | [] => map (fun _ => None) basis
  | v0 :: rest =>
      map (fun b =>
             let closest := argmin_key (fun v => dist2 v b) v0 rest in
             match distance with
             | Some d => if Rlt_dec d (dist2 closest b) then None else Some closest
             | None => Some closest
             end)
          basis
  end.

End Vectors.

(** ** Ranking of solutions: [get_nth_best_solution] *)

Module Ranking.

(** [mode == "template"]:
    [single_match_result[np.argsort(single_match_result[:, 2])[::-1][rank]]],
    for a rank that is not negative.  The order [np.argsort] gives to
    equal scores is not specified; the sort here is one such order. *)
Definition get_nth_best_template (single_match_result : list Template.match_row)
  (rank : nat) : result Template.match_row :=
  getitem (rev (sort_asc Template.score single_match_result)) rank.

(** [mode == "vector"]: [single_match_result[0]] is read first (its
    [tolist] fails on a result and the [except] branch sorts the whole
    array), then
    [sorted(single_match_result.tolist(), key=attrgetter(key),
    reverse=descending)[rank]]. *)
Definition get_nth_best_vector (single_match_result : list Vector.OrientationResult)
  (rank : nat) (key : Vector.OrientationResult -> Q) (descending : bool)
  : result Vector.OrientationResult :=
  _ <- getitem single_match_result 0 ;;
  getitem (if descending then sort_desc key single_match_result
           else sort_asc key single_match_result) rank.

(** [x] is the first entry of [l], in the order of [l], whose key is
    largest. *)
Definition first_largest {A : Type} (key : A -> Q) (l : list A) (x : A) : Prop :=
  exists pre post,
    l = pre ++ x :: post /\
    Forall (fun y => key y < key x) pre /\
    Forall (fun y => key y <= key x) post.

Definition first_smallest {A : Type} (key : A -> Q) (l : list A) (x : A) : Prop :=
  exists pre post,
    l = pre ++ x :: post /\
    Forall (fun y => key x < key y) pre /\
    Forall (fun y => key x <= key y) post.

End Ranking.

(** Descending order of a key. *)
Definition key_ge {A : Type} (key : A -> Q) (a b : A) : Prop := key b <= key a.

(** A solution found by [match_vectors] for phase number [k]: it carries
    that phase index and a match rate above 0 and at most 1. *)
Definition found_ok (k : nat) (s : Vector.OrientationResult) : Prop :=
  Vector.phase_index s = k /\ 0 < Vector.match_rate s /\ Vector.match_rate s <= 1.

(** ** Reading [correlate_library]'s result *)

Module CorrRows.

(** Rows [k * n .. k * n + n - 1] of a flattened array: the block of
    phase number [k]. *)
Definition block_of {A : Type} (rows : list A) (n k : nat) : list A :=
  firstn n (skipn (k * n) rows).

(** The score [correlate_library] computes for template [t] of an image
    under method [m], on exact rationals. *)
Definition score_in (image : @Corr.image2d Q) (m : Corr.method)
  (t : @Corr.template Q) : result Q :=
  Corr.corr_of m (Corr.img_rows image * Corr.img_cols image)
    (Corr.np_norm
       (map (fun x => Corr.fsub x (Corr.np_average (Corr.img_flat image)))
            (Corr.img_flat image)))
    (Corr.np_average (Corr.img_flat image)) image t.

End CorrRows.

(** ** More of [indexation_utils.py] *)

Module IndexMore.

(** A Python [dict] built from a sequence of pairs: a later pair with the
    same key replaces an earlier one, so a lookup finds the last pair of
    the key; [None] stands for [KeyError]. *)
Definition dict_get (d : list (String.string * nat)) (key : String.string) : option nat :=
  option_map snd (find (fun p => String.eqb (fst p) key) (rev d)).

(** [get_phase_name_and_index]:
    [dict([(y, x) for x, y in enumerate(list(library.keys()))])]. *)
Definition get_phase_name_and_index (keys : list String.string) : list (String.string * nat) :=
  combine keys (seq 0 (length keys)).

(** One spot of a simulation: calibrated x, y and intensity. *)
Definition spot : Type := (Q * Q * Q)%type.

Definition pad (l : list Q) (n : nat) : list Q := l ++ repeat 0 (n - length l).

Definition within (max_radius : option Q) (s : spot) : bool :=
  match max_radius with
  | None => true
  | Some r => let '(x, y, _) := s in Qltb (x * x + y * y) (r * r)
  end.

(** [_simulations_to_arrays]: [positions] has, per template, the row of
    x and the row of y; [max(num_spots)] raises on an empty list. *)
Definition _simulations_to_arrays (simulations : list (list spot))
  (max_radius : option Q)
  : result (list (list Q * list Q) * list (list Q)) :=
  match simulations with
  | [] => Raise ValueError
  | _ =>
      let max_spots := fold_right Nat.max 0%nat (map (@length spot) simulations) in
      let kept := map (filter (within max_radius)) simulations in
      Ok (map (fun sim : list spot =>
                 (pad (map (fun s : spot => fst (fst s)) sim) max_spots,
                  pad (map (fun s : spot => snd (fst s)) sim) max_spots)) kept,
          map (fun sim : list spot =>
                 pad (map (fun s : spot => snd s) sim) max_spots) kept)
  end.

End IndexMore.

(** ** Rotations about the third axis *)

Module Rotation.

Local Open Scope R_scope.

(** The matrix of the rotation by [phi] about the z axis. *)
Definition about_z (phi : R) : Geometry.mat3 :=
  ((cos phi, - sin phi, 0), (sin phi, cos phi, 0), (0, 0, 1)).

End Rotation.

(** ** Polar templates over the reals *)

Module PolarMatch.

Local Open Scope R_scope.

Definition np_sum (l : list R) : R := fold_right Rplus 0 l.

(** [np.sum(ar**2)] *)
Definition sum_sq (l : list R) : R := np_sum (map (fun x => x * x) l).

(** [row / np.sqrt(np.sum(row**2))].  A row whose norm is zero holds
    zeros only, and the division [0/0] gives no number for any of its
    entries (NaN): [None] is that outcome. *)
Definition norm_row (row : list R) : option (list R) :=
  let n := sqrt (sum_sq row) in
  if Req_dec_T n 0 then None else Some (map (fun x => x / n) row).

(** [_norm_array] on a two-dimensional array: one norm for the whole
    array. *)
Definition _norm_array (ar : list (list R)) : option (list (list R)) :=
  let n := sqrt (sum_sq (concat ar)) in
  if Req_dec_T n 0 then None else Some (map (map (fun x => x / n)) ar).

(** [_norm_intensities] and [_norm_integrated_templates]: one norm per
    row ([axis=1]). *)
Definition _norm_intensities (intensities : list (list R))
  : list (option (list R)) :=
  map norm_row intensities.

Definition _norm_integrated_templates (integrated_templates : list (list R))
  : list (option (list R)) :=
  map norm_row integrated_templates.

(** An integer index into an axis of length [n]: a negative index counts
    from the end; [None] is an index outside the axis. *)
Definition wrap (n : nat) (i : Z) : option nat :=
  if ((0 <=? i) && (i <? Z.of_nat n))%Z then Some (Z.to_nat i)
  else if ((- Z.of_nat n <=? i) && (i <? 0))%Z
       then Some (Z.to_nat (i + Z.of_nat n))
       else None.

(** [row[k] = row[k] + x] *)
Fixpoint add_at (k : nat) (x : R) (row : list R) : list R :=
  match row, k with
  | [], _ => []
  | y :: row', O => (y + x) :: row'
  | y :: row', S k' => y :: add_at k' x row'
  end.

(** The inner loop of [_get_integrated_polar_templates] from position
    [j] on: [integrated_templates[i, r_p]] grows by [inten]. *)
Fixpoint accumulate (row : list R) (r_template : list Z) (j : nat)
  (intensity : list R) : result (list R) :=
  match intensity with
  | [] => Ok row
  | inten :: rest =>
      r_p <- getitem r_template j ;;
      match wrap (length row) r_p with
      | None => Raise IndexError
      | Some k => accumulate (add_at k inten row) r_template (S j) rest
      end
  end.

(** [_get_integrated_polar_templates]: one row of [r_max] bins per row
    of [r_templates]; the rows beyond [intensities_templates] stay
    zero.  Every exception the loops can raise is an [IndexError]. *)
Definition _get_integrated_polar_templates (r_max : nat)
  (r_templates : list (list Z)) (intensities_templates : list (list R))
  : result (list (option (list R))) :=
  rows <- Vectors.map_result
            (fun p : nat * list R =>
               r_template <- getitem r_templates (fst p) ;;
               accumulate (repeat 0 r_max) r_template 0 (snd p))
            (combine (seq 0 (length intensities_templates))
                     intensities_templates) ;;
  Ok (_norm_integrated_templates
        (rows ++ repeat (repeat 0 r_max)
                        (length r_templates - length intensities_templates))).

(** The total intensity that falls into bin [k] of [n] bins. *)
Definition bin (n k : nat) (r_template : list Z) (intensity : list R) : R :=
  np_sum (map snd
            (filter (fun p : Z * R => (fst p mod Z.of_nat n =? Z.of_nat k)%Z)
                    (combine r_template intensity))).

(** [image[y, x]] in compiled code: [None] is a read outside the array,
    which is not checked. *)
Definition pixel (image : list (list R)) (y x : Z) : option R :=
  match wrap (length image) y with
  | None => None
  | Some j =>
      match nth_error image j with
      | None => None
      | Some row =>
          match wrap (length row) x with
          | None => None
          | Some k => nth_error row k
          end
      end
  end.

Fixpoint all_some {A : Type} (l : list (option A)) : option (list A) :=
  match l with
  | [] => Some []
  | None :: _ => None
  | Some a :: l' =>
      match all_some l' with
      | None => None
      | Some r => Some (a :: r)
      end
  end.

(** [_extract_pixel_intensities]: [experimental[j] = image[y[j], x[j]]]
    for every position [j] of [x]. *)
Definition _extract_pixel_intensities (image : list (list R)) (x y : list Z)
  : option (list R) :=
  all_some
    (map (fun j =>
            match nth_error y j, nth_error x j with
            | Some yj, Some xj => pixel image yj xj
            | _, _ => None
            end)
         (seq 0 (length x))).

(** [_pearson_correlation].  [None] stands for what is not a number of
    the model: operands of different length, [n = 0], and the NaN or
    division by zero met when [1 - template_sum**2/n] is not positive. *)
Definition _pearson_correlation (image_intensities template_intensities : list R)
  (n : nat) : option R :=
  let template_sum := np_sum template_intensities in
  if negb (length image_intensities =? length template_intensities)%nat
  then None
  else
    let numerator :=
      np_sum (map (fun p : R * R => fst p * snd p)
                  (combine image_intensities template_intensities)) in
    match n with
    | O => None
    | S _ =>
        let d := 1 - template_sum * template_sum / INR n in
        if Rlt_dec 0 d then Some (numerator / sqrt d) else None
    end.

(** [_match_polar_to_polar_template]: the correlation at each shift [i]
    of the template along the azimuthal axis. *)
Definition _match_polar_to_polar_template (polar_image : list (list R))
  (r_template theta_template : list Z) (intensities : list R)
  : list (option R) :=
  let shape0 := length polar_image in
  let shape1 := length (hd [] polar_image) in
  let n := (shape0 * shape1)%nat in
  map (fun i =>
         let theta_compare :=
           map (fun t => ((t + Z.of_nat i) mod Z.of_nat shape0)%Z)
               theta_template in
         match _extract_pixel_intensities polar_image r_template theta_compare with
         | None => None
         | Some image_intensities =>
             _pearson_correlation image_intensities intensities n
         end)
      (seq 0 shape0).

End PolarMatch.

(** ** Two-stage polar matching: the [keep] gate *)

Module Polar.

(** Python's [max(a, 0.)]: the first argument unless the second is
    greater. *)
Definition py_max0 (a : Q) : Q := if Qltb a 0 then 0 else a.

(** The [if keep >= 1. / elif 0. < keep <= 1. / else] chain over [n]
    templates ([theta.shape[0]]). *)
Definition fraction_of_keep (n : nat) (keep : Q) : result Q :=
  if Qle_bool 1 keep then
    q <- truediv (inject_Z (Z.of_nat n) - keep) (inject_Z (Z.of_nat n)) ;;
    Ok (py_max0 q)
  else if Qltb 0 keep && Qle_bool keep 1 then Ok (1 - keep)
  else Raise ValueError.

Section TwoStage.

(** What the matchers call that the sources do not hold, the numeric
    kernels, and NumPy's functions on arrays of floats; [F] is the type
    of a correlation or an angle.  Every call of a function may raise.
    - [image_to_polar] (of [polar_transform_utils]) and the second axis
      of a polar image;
    - [normalised]: what [_prepare_image_and_templates] does to the
      polar image and to the arrays of [_simulations_to_arrays] (the
      optional intensity transform, the subtraction of the mean,
      [_norm_array], [_norm_intensities] and
      [_cartesian_positions_to_polar]); it gives the polar image and one
      template [(r, theta, intensities)] per row;
    - the integration of the templates and the compiled matching
      kernels;
    - [np.percentile], [>], [np.argmax] on a non-empty array,
      [np.argsort(-a)], and
      [np.mod((a + 180) / delta_theta, period).astype(np.uint64)]. *)
Variables image polar_image template integrated F : Type.
Variable image_to_polar : image -> result polar_image.
Variable shape1 : polar_image -> nat.
Variable normalised :
  polar_image -> list (list Q * list Q) * list (list Q) ->
  result (polar_image * list template).
Variable _get_integrated_polar_templates :
  nat -> list template -> result integrated.
Variable _match_library_to_polar_fast :
  polar_image -> integrated -> result (list F).
Variable _match_polar_to_polar_library :
  polar_image -> list template -> result (list (F * F)).
Variable _get_correlation_at_angle :
  polar_image -> list template -> list Z -> result (list F).
Variable percentile : list F -> Q -> F.
Variable fgt : F -> F -> bool.
Variable argmax : list F -> nat.
Variable argsort_descending : list F -> list nat.
Variable angle_180 : Q -> Q -> F -> Z.

(** [_prepare_image_and_templates]: the image is transformed first;
    [_simulations_to_arrays] then raises on an empty list of
    simulations. *)
Definition _prepare_image_and_templates (im : image)
  (simulations : list (list IndexMore.spot)) (delta_r : Q)
  : result (polar_image * list template) :=
  polar <- image_to_polar im ;;
  let max_radius := inject_Z (Z.of_nat (shape1 polar)) * delta_r in
  arrays <- IndexMore._simulations_to_arrays simulations (Some max_radius) ;;
  normalised polar arrays.

(** Row [j] of the surviving templates: its index in the library, its
    best correlation and the angle of it. *)
Definition row_at (template_indexes_filter : list nat) (full : list (F * F))
  (j : nat) : option (nat * F * F) :=
  match nth_error template_indexes_filter j, nth_error full j with
  | Some t, Some (cor, angle) => Some (t, cor, angle)
  | _, _ => None
  end.

(** [_mixed_matching_lib_to_polar]: the rows of [answer].  [np.argmax]
    raises on an empty array.  In the other branch a row for which no
    survivor is left is read outside the arrays, which compiled code
    does not check: such a row is [None]. *)
Definition _mixed_matching_lib_to_polar (polar : polar_image)
  (integrated_templates : integrated) (templates : list template)
  (fraction : Q) (n_best : nat) : result (list (option (nat * F * F))) :=
  coors <- _match_library_to_polar_fast polar integrated_templates ;;
  let template_indexes := seq 0 (length templates) in
  let lowest := percentile coors (fraction * 100) in
  let condition := map (fun c => fgt c lowest) coors in
  let templates_filter := Vector.select condition templates in
  let template_indexes_filter := Vector.select condition template_indexes in
  full <- _match_polar_to_polar_library polar templates_filter ;;
  if Nat.eqb n_best 1 then
    match full with
    | [] => Raise ValueError
    | _ :: _ =>
        Ok [row_at template_indexes_filter full (argmax (map fst full))]
    end
  else
    let n_best_indices := firstn n_best (argsort_descending (map fst full)) in
    Ok (map (fun i =>
               match nth_error n_best_indices i with
               | Some j => row_at template_indexes_filter full j
               | None => None
               end)
            (seq 0 n_best)).

(** What [get_n_best_matches] does once [fraction] is known: the triple
    [(indices, cors, angles)]. *)
Definition n_best_from (polar : polar_image) (templates : list template)
  (fraction : Q) (n_best : nat)
  : result (list (option nat) * list (option F) * list (option F)) :=
  integrated_templates <-
    _get_integrated_polar_templates (shape1 polar) templates ;;
  answer <-
    _mixed_matching_lib_to_polar polar integrated_templates templates
      fraction n_best ;;
  Ok (map (option_map (fun row : nat * F * F => fst (fst row))) answer,
      map (option_map (fun row : nat * F * F => snd (fst row))) answer,
      map (option_map (fun row : nat * F * F => snd row)) answer).

Definition get_n_best_matches (im : image)
  (simulations : list (list IndexMore.spot)) (n_best : nat) (keep delta_r : Q)
  : result (list (option nat) * list (option F) * list (option F)) :=
  p <- _prepare_image_and_templates im simulations delta_r ;;
  fraction <- fraction_of_keep (length (snd p)) keep ;;
  n_best_from (fst p) (snd p) fraction n_best.

(** What [correlate_library_to_pattern_partial] does once [fraction] is
    known: [(template_indexes_filter, full_angles, full_cors,
    full_cors_180)].  [360 / delta_theta] is a division of Python
    numbers. *)
Definition partial_from (polar : polar_image) (templates : list template)
  (fraction delta_theta : Q)
  : result (list nat * list F * list F * list F) :=
  integrated_templates <-
    _get_integrated_polar_templates (shape1 polar) templates ;;
  correlations_fast <- _match_library_to_polar_fast polar integrated_templates ;;
  let template_indexes := seq 0 (length templates) in
  let lowest := percentile correlations_fast (fraction * 100) in
  let condition := map (fun c => fgt c lowest) correlations_fast in
  let templates_filter := Vector.select condition templates in
  let template_indexes_filter := Vector.select condition template_indexes in
  full <- _match_polar_to_polar_library polar templates_filter ;;
  period <- truediv 360 delta_theta ;;
  let full_angles_180 :=
    map (fun a => angle_180 delta_theta period a) (map snd full) in
  full_cors_180 <-
    _get_correlation_at_angle polar templates_filter full_angles_180 ;;
  Ok (template_indexes_filter, map snd full, map fst full, full_cors_180).

Definition correlate_library_to_pattern_partial (im : image)
  (simulations : list (list IndexMore.spot)) (keep delta_r delta_theta : Q)
  : result (list nat * list F * list F * list F) :=
  p <- _prepare_image_and_templates im simulations delta_r ;;
  fraction <- fraction_of_keep (length (snd p)) keep ;;
  partial_from (fst p) (snd p) fraction delta_theta.

End TwoStage.

End Polar.

(** * Properties *)

(** ** Comparison and sorting *)

Lemma Qltb_lt (a b : Q) : Qltb a b = true <-> a < b.
Proof.
  unfold Qltb. rewrite negb_true_iff.
  split; intro H.
  - destruct (Qlt_le_dec a b) as [Hlt | Hle]; [exact Hlt |].
    apply Qle_bool_iff in Hle. congruence.
  - destruct (Qle_bool b a) eqn:E; [| reflexivity].
    apply Qle_bool_iff in E. lra.
Qed.

Lemma Qltb_ge (a b : Q) : Qltb a b = false <-> b <= a.
Proof.
  unfold Qltb. rewrite negb_false_iff. apply Qle_bool_iff.
Qed.

Section KeySortFacts.
Context {A : Type} (key : A -> Q).

Lemma insert_asc_perm x l : Permutation (x :: l) (insert_asc key x l).
Proof.
  induction l as [| y l IH]; simpl; [reflexivity |].
  destruct (Qle_bool (key x) (key y)); [reflexivity |].
  rewrite perm_swap. now constructor.
Qed.

Lemma sort_asc_perm l : Permutation l (sort_asc key l).
Proof.
  induction l as [| x l IH]; simpl; [constructor |].
  rewrite <- insert_asc_perm. now constructor.
Qed.

Lemma insert_desc_perm x l : Permutation (x :: l) (insert_desc key x l).
Proof.
  induction l as [| y l IH]; simpl; [reflexivity |].
  destruct (Qle_bool (key y) (key x)); [reflexivity |].
  rewrite perm_swap. now constructor.
Qed.

Lemma sort_desc_perm l : Permutation l (sort_desc key l).
Proof.
  induction l as [| x l IH]; simpl; [constructor |].
  rewrite <- insert_desc_perm. now constructor.
Qed.

Lemma sort_asc_length l : length (sort_asc key l) = length l.
Proof. symmetry. apply Permutation_length, sort_asc_perm. Qed.

Lemma sort_desc_length l : length (sort_desc key l) = length l.
Proof. symmetry. apply Permutation_length, sort_desc_perm. Qed.

Lemma insert_asc_sorted x l :
  StronglySorted (key_le key) l -> StronglySorted (key_le key) (insert_asc key x l).
Proof.
  induction 1 as [| y l Hs IH Hall]; simpl.
  - repeat constructor.
  - destruct (Qle_bool (key x) (key y)) eqn:E.
    + apply Qle_bool_iff in E.
      constructor; [now constructor |].
      constructor; [exact E |].
      eapply Forall_impl; [| exact Hall].
      unfold key_le; intros; lra.
    + assert (E' : key y <= key x).
      { destruct (Qlt_le_dec (key y) (key x)) as [Hlt | Hle]; [lra |].
        apply Qle_bool_iff in Hle. congruence. }
      constructor; [exact IH |].
      eapply Permutation_Forall; [apply insert_asc_perm |].
      constructor; [exact E' | exact Hall].
Qed.

Lemma sort_asc_sorted l : StronglySorted (key_le key) (sort_asc key l).
Proof.
  induction l as [| x l IH]; simpl; [constructor |].
  now apply insert_asc_sorted.
Qed.

End KeySortFacts.

(** ** NumPy reductions *)

Lemma argmax_from_spec (l : list Q) :
  forall (pre : list Q) (bi : nat) (b : Q),
    nth_error pre bi = Some b ->
    Forall (fun x => x <= b) pre ->
    (forall j x, (j < bi)%nat -> nth_error pre j = Some x -> x < b) ->
    exists m,
      nth_error (pre ++ l) (Np.argmax_from bi b (length pre) l) = Some m /\
      Forall (fun x => x <= m) (pre ++ l) /\
      (forall j x, (j < Np.argmax_from bi b (length pre) l)%nat ->
                   nth_error (pre ++ l) j = Some x -> x < m).
Proof.
  induction l as [| x l IH]; intros pre bi b Hb Hall Hfirst; simpl.
  - rewrite app_nil_r. exists b. auto.
  - assert (Hlen : length (pre ++ [x]) = S (length pre))
      by (rewrite length_app; simpl; lia).
    replace (pre ++ x :: l) with ((pre ++ [x]) ++ l)
      by (rewrite <- app_assoc; reflexivity).
    rewrite <- Hlen.
    destruct (Qltb b x) eqn:E.
    + apply Qltb_lt in E.
      replace (length (pre ++ [x])) with (S (length pre)) at 1 3 by lia.
      rewrite Hlen.
      rewrite <- Hlen.
      apply (IH (pre ++ [x]) (length pre) x).
      * rewrite nth_error_app2 by lia. now rewrite Nat.sub_diag.
      * apply Forall_app. split.
        -- eapply Forall_impl; [| exact Hall]. simpl; intros; lra.
        -- constructor; [lra | constructor].
      * intros j y Hj Hy. rewrite nth_error_app1 in Hy by lia.
        apply nth_error_In in Hy.
        rewrite Forall_forall in Hall. specialize (Hall _ Hy). simpl in Hall. lra.
    + apply Qltb_ge in E.
      apply (IH (pre ++ [x]) bi b).
      * rewrite nth_error_app1; [exact Hb |].
        apply nth_error_Some. congruence.
      * apply Forall_app. split; [exact Hall |].
        constructor; [exact E | constructor].
      * intros j y Hj Hy.
        assert (bi < length pre)%nat by (apply nth_error_Some; congruence).
        rewrite nth_error_app1 in Hy by lia. eauto.
Qed.

Lemma argmax_spec (a : list Q) (i : nat) :
  Np.argmax a = Ok i ->
  exists m,
    nth_error a i = Some m /\
    Forall (fun x => x <= m) a /\
    (forall j x, (j < i)%nat -> nth_error a j = Some x -> x < m).
Proof.
  destruct a as [| x l]; simpl; [discriminate |].
  intros [= <-].
  apply (argmax_from_spec l [x] 0%nat x).
  - reflexivity.
  - constructor; [lra | constructor].
  - intros j y Hj. lia.
Qed.

Lemma argmax_nonempty (a : list Q) :
  a <> [] -> exists i, Np.argmax a = Ok i.
Proof. destruct a; [congruence | intros _; eexists; reflexivity]. Qed.

Lemma fold_max_spec (l : list Q) :
  forall x,
    let m := fold_left (fun m y => if Qltb m y then y else m) l x in
    In m (x :: l) /\ x <= m /\ Forall (fun y => y <= m) l.
Proof.
  induction l as [| y l IH]; intros x; simpl.
  - split; [now left |]. split; [lra | constructor].
  - destruct (Qltb x y) eqn:E.
    + apply Qltb_lt in E.
      destruct (IH y) as (Hin & Hle & Hall). simpl in Hin.
      split; [right; exact Hin |].
      split; [lra |]. constructor; assumption.
    + apply Qltb_ge in E.
      destruct (IH x) as (Hin & Hle & Hall). simpl in Hin.
      split; [destruct Hin as [H | H]; [now left | right; now right] |].
      split; [exact Hle |]. constructor; [lra | exact Hall].
Qed.

Lemma max_spec (a : list Q) :
  a <> [] ->
  exists m, Np.max a = Ok m /\ In m a /\ Forall (fun x => x <= m) a.
Proof.
  destruct a as [| x l]; [congruence |]. intros _.
  destruct (fold_max_spec l x) as (Hin & Hle & Hall).
  eexists. split; [reflexivity |]. split; [exact Hin |].
  constructor; assumption.
Qed.

(** The last two elements of an ascending list. *)
Lemma sorted_last_two (l : list Q) :
  StronglySorted (key_le (fun x => x)) l ->
  (2 <= length l)%nat ->
  exists pre s t,
    l = pre ++ [s; t] /\ s <= t /\ Forall (fun x => x <= s) pre /\
    nth_error l (length l - 2) = Some s.
Proof.
  induction 1 as [| x l Hs IH Hall]; intros Hlen; [simpl in Hlen; lia |].
  destruct l as [| y [| y' l'']]; [simpl in Hlen; lia | |].
  - exists [], x, y. inversion Hall; subst.
    repeat split; auto.
  - destruct IH as (pre & s & t & Heq & Hst & Hpre & Hnth); [simpl; lia |].
    exists (x :: pre), s, t.
    split; [rewrite Heq; reflexivity |]. split; [exact Hst |].
    split.
    + constructor; [| exact Hpre].
      rewrite Heq in Hall. rewrite Forall_forall in Hall.
      apply (Hall s). apply in_or_app. right. now left.
    + replace (length (x :: y :: y' :: l'') - 2)%nat
        with (S (length (y :: y' :: l'') - 2)) by (simpl; lia).
      exact Hnth.
Qed.

Lemma partition_second_last_spec (a : list Q) :
  (2 <= length a)%nat ->
  exists pre s t,
    Np.partition_second_last a = Ok s /\
    Permutation a (t :: s :: pre) /\ s <= t /\
    Forall (fun x => x <= s) pre.
Proof.
  intros Hlen. unfold Np.partition_second_last.
  destruct (Nat.ltb_spec (length a) 2) as [H | _]; [lia |].
  pose proof (sort_asc_sorted (fun x => x) a) as Hs.
  pose proof (sort_asc_perm (fun x => x) a) as Hp.
  destruct (sorted_last_two _ Hs) as (pre & s & t & Heq & Hst & Hpre & Hnth).
  { rewrite sort_asc_length. exact Hlen. }
  exists pre, s, t. rewrite sort_asc_length in Hnth.
  unfold getitem. rewrite Hnth. split; [reflexivity |].
  split; [| auto].
  rewrite Hp, Heq.
  rewrite Permutation_app_comm. simpl. apply perm_swap.
Qed.

(** ** Template-matching reduction *)

Section TemplateReduction.
Import Template.

Lemma two_distinct_other (l : list Z) (p : Z) :
  (2 <= Np.unique_count l)%nat -> exists x, In x l /\ x <> p.
Proof.
  unfold Np.unique_count. intros H.
  pose proof (NoDup_nodup Z.eq_dec l) as Hnd.
  destruct (nodup Z.eq_dec l) as [| a [| b t]] eqn:E; simpl in H; try lia.
  assert (Ha : In a l) by (apply (nodup_In Z.eq_dec); rewrite E; now left).
  assert (Hb : In b l)
    by (apply (nodup_In Z.eq_dec); rewrite E; right; now left).
  inversion Hnd as [| ? ? Hnotin _]; subst.
  destruct (Z.eq_dec a p) as [-> | Hne].
  - exists b. split; [exact Hb |].
    intros ->. apply Hnotin. now left.
  - exists a. auto.
Qed.

Lemma other_phase_nonempty (z : list match_row) (p : Z) :
  multi_phase z -> map score (other_phase p z) <> [].
Proof.
  intros H. destruct (two_distinct_other _ p H) as (x & Hin & Hne).
  apply in_map_iff in Hin. destruct Hin as (r & <- & Hr).
  assert (Hf : In r (other_phase p z)).
  { apply filter_In. split; [exact Hr |].
    apply negb_true_iff, Z.eqb_neq, Hne. }
  intros Hnil. apply (in_map score) in Hf. rewrite Hnil in Hf. exact Hf.
Qed.

Lemma multi_phase_not_single (z : list match_row) :
  multi_phase z -> Nat.eqb (Np.unique_count (map phase z)) 1 = false.
Proof. unfold multi_phase. intros H. apply Nat.eqb_neq. lia. Qed.

Lemma truediv_nonzero (a b : Q) : ~ b == 0 -> truediv a b = Ok (a / b).
Proof.
  intros H. unfold truediv.
  destruct (Qeq_bool b 0) eqn:E; [| reflexivity].
  apply Qeq_bool_iff in E. contradiction.
Qed.

End TemplateReduction.

(** C1 (as amended).  On a result array spanning at least two phases the
    reduction picks the first row of globally maximal score.  When that
    row's phase has at least two rows and the best score is not zero, the
    call returns that row's phase and orientation with
    [orientation_reliability = 100 * (1 - s / best)] for the runner-up
    score [s] of the same phase and
    [phase_reliability = 100 * (1 - p / best)] for the largest score [p]
    of any other phase. *)
Theorem crystal_from_template_matching_multi_phase
  (z : list Template.match_row) (Hmulti : Template.multi_phase z) :
  exists (i : nat) (best : Template.match_row),
    nth_error z i = Some best /\
    Forall (fun r => Template.score r <= Template.score best) z /\
    (forall j r, (j < i)%nat -> nth_error z j = Some r ->
                 Template.score r < Template.score best) /\
    ((2 <= length (Template.same_phase (Template.phase best) z))%nat ->
     ~ Template.score best == 0 ->
     exists s p : Q,
       Template.second_best
         (map Template.score (Template.same_phase (Template.phase best) z))
         (Template.score best) s /\
       Template.is_max
         (map Template.score (Template.other_phase (Template.phase best) z)) p /\
       Template.crystal_from_template_matching z =
         Ok (Template.mk_crystal (Template.phase best) (Template.orient best)
               (Template.mk_metrics (Template.score best)
                  (100 * (1 - s / Template.score best))
                  (Some (100 * (1 - p / Template.score best)))))).
Proof.
  assert (Hne : map Template.score z <> []).
  { intros Hnil. apply map_eq_nil in Hnil. subst z.
    unfold Template.multi_phase, Np.unique_count in Hmulti.
    simpl in Hmulti. lia. }
  destruct (argmax_nonempty _ Hne) as (i & Hi).
  destruct (argmax_spec _ _ Hi) as (m & Hnth & Hall & Hfirst).
  rewrite nth_error_map in Hnth.
  destruct (nth_error z i) as [best |] eqn:Hbest; [| discriminate].
  simpl in Hnth. injection Hnth as <-.
  exists i, best. split; [exact Hbest |].
  split; [rewrite Forall_map in Hall; exact Hall |].
  split.
  { intros j r Hj Hr. apply (Hfirst j); [exact Hj |].
    rewrite nth_error_map, Hr. reflexivity. }
  intros Hsame Hnz.
  destruct (partition_second_last_spec
              (map Template.score (Template.same_phase (Template.phase best) z)))
    as (pre & s & t & Hpart & Hperm & Hst & Hpre).
  { rewrite length_map. exact Hsame. }
  destruct (max_spec _ (other_phase_nonempty z (Template.phase best) Hmulti))
    as (p & Hmax & Hin & Hle).
  exists s, p.
  assert (Ht : t == Template.score best).
  { apply Qle_antisym.
    - assert (Hint : In t (map Template.score z)).
      { apply in_map_iff.
        assert (In t (map Template.score
                        (Template.same_phase (Template.phase best) z)))
          as Hin' by (eapply Permutation_in;
                      [apply Permutation_sym, Hperm | now left]).
        apply in_map_iff in Hin'. destruct Hin' as (r & <- & Hr).
        apply filter_In in Hr. exists r. tauto. }
      rewrite Forall_forall in Hall. apply (Hall _ Hint).
    - assert (Hb : In (Template.score best)
                     (map Template.score
                        (Template.same_phase (Template.phase best) z))).
      { apply in_map, filter_In. split.
        - eapply nth_error_In; exact Hbest.
        - apply Z.eqb_refl. }
      apply (Permutation_in _ Hperm) in Hb.
      destruct Hb as [<- | [<- | Hb]]; try lra.
      rewrite Forall_forall in Hpre. specialize (Hpre _ Hb). simpl in Hpre. lra. }
  split; [exists t, pre; auto |].
  split; [split; assumption |].
  unfold Template.crystal_from_template_matching.
  rewrite (multi_phase_not_single z Hmulti), Hi. simpl.
  unfold getitem at 1. rewrite Hbest. simpl.
  rewrite Hpart. simpl. rewrite Hmax. simpl.
  rewrite !truediv_nonzero by exact Hnz. reflexivity.
Qed.

(** The scenario [[0, th0, 100], [0, th1, 1], [1, th2, 50]]: phase 0 with
    orientation [th0] is selected and [phase_reliability] is 50. *)
Lemma crystal_from_template_matching_multi_phase_witness :
  let z := [Template.mk_row 0 (1, 2, 3) 100;
            Template.mk_row 0 (4, 5, 6) 1;
            Template.mk_row 1 (7, 8, 9) 50] in
  Template.multi_phase z /\
  exists c pr,
    Template.crystal_from_template_matching z = Ok c /\
    Template.best_phase c = 0%Z /\
    Template.best_orientation c = (1, 2, 3) /\
    Template.phase_reliability (Template.best_metrics c) = Some pr /\
    pr == 50.
Proof.
  intros z.
  assert (H : Template.multi_phase z) by (vm_compute; lia).
  split; [exact H |].
  destruct (crystal_from_template_matching_multi_phase z H)
    as (i & best & Hnth & Hall & _ & Hrel).
  assert (Hbest : best = Template.mk_row 0 (1, 2, 3) 100).
  { inversion Hall as [| r0 l0 H0 _]; subst.
    destruct i as [| [| [| i]]]; simpl in Hnth.
    - now injection Hnth.
    - injection Hnth as <-. simpl in H0. lra.
    - injection Hnth as <-. simpl in H0. lra.
    - destruct i; discriminate. }
  subst best.
  destruct Hrel as (s & p & _ & (Hin & _) & Heq).
  - simpl. lia.
  - simpl. lra.
  - simpl in Hin. destruct Hin as [<- | []].
    eexists. eexists. split; [exact Heq |]. simpl.
    split; [reflexivity |]. split; [reflexivity |].
    split; [reflexivity |]. vm_compute. reflexivity.
Defined.

(** With one row per phase (n_largest = 1 on a two-phase library) the
    same-phase runner-up does not exist and the call raises. *)
Lemma crystal_from_template_matching_multi_phase_counterexample :
  let z := [Template.mk_row 0 (1, 2, 3) 100; Template.mk_row 1 (7, 8, 9) 50] in
  Template.multi_phase z /\
  Template.crystal_from_template_matching z = Raise ValueError /\
  ~ Py.returns (Template.crystal_from_template_matching z).
Proof.
  intros z. split; [vm_compute; lia |].
  split; [reflexivity |].
  intros (c & Hc). vm_compute in Hc. discriminate.
Qed.

(** C2 (as amended).  On a single-phase result array the reduction
    returns the phase and orientation of row 0.  When row 0's score is
    positive and a second row exists,
    [orientation_reliability = 100 * (1 - second / best)]; when row 0's
    score is not positive it is 100, whatever follows. *)
Theorem crystal_from_template_matching_single_phase
  (z : list Template.match_row) (Hsingle : Template.single_phase z) :
  exists (r0 : Template.match_row) (rest : list Template.match_row),
    z = r0 :: rest /\
    (0 < Template.score r0 ->
     forall r1 rest', rest = r1 :: rest' ->
       Template.crystal_from_template_matching z =
         Ok (Template.mk_crystal (Template.phase r0) (Template.orient r0)
               (Template.mk_metrics (Template.score r0)
                  (100 * (1 - Template.score r1 / Template.score r0)) None))) /\
    (~ 0 < Template.score r0 ->
     Template.crystal_from_template_matching z =
       Ok (Template.mk_crystal (Template.phase r0) (Template.orient r0)
             (Template.mk_metrics (Template.score r0) 100 None))).
Proof.
  unfold Template.single_phase in Hsingle.
  destruct z as [| r0 rest].
  { unfold Np.unique_count in Hsingle. simpl in Hsingle. discriminate. }
  exists r0, rest. split; [reflexivity |].
  unfold Template.crystal_from_template_matching.
  rewrite Hsingle. simpl Nat.eqb. cbv iota.
  split.
  - intros Hpos r1 rest' ->.
    apply Qltb_lt in Hpos. simpl. rewrite Hpos. simpl.
    rewrite truediv_nonzero; [reflexivity |].
    apply Qltb_lt in Hpos. lra.
  - intros Hnpos. simpl.
    destruct (Qltb 0 (Template.score r0)) eqn:E; [| reflexivity].
    apply Qltb_lt in E. contradiction.
Qed.

(** Tied scores [10, 10, 10] give [orientation_reliability == 0]. *)
Lemma crystal_from_template_matching_single_phase_witness :
  let z := [Template.mk_row 0 (1, 2, 3) 10;
            Template.mk_row 0 (4, 5, 6) 10;
            Template.mk_row 0 (7, 8, 9) 10] in
  Template.single_phase z /\
  exists c,
    Template.crystal_from_template_matching z = Ok c /\
    Template.best_phase c = 0%Z /\
    Template.best_orientation c = (1, 2, 3) /\
    Template.orientation_reliability (Template.best_metrics c) == 0.
Proof.
  intros z.
  assert (H : Template.single_phase z) by reflexivity.
  split; [exact H |].
  destruct (crystal_from_template_matching_single_phase z H)
    as (r0 & rest & Hz & Hpos & _).
  injection Hz as <- <-.
  eexists. split.
  - eapply Hpos; [simpl; lra | reflexivity].
  - simpl. split; [reflexivity |]. split; [reflexivity |].
    vm_compute. reflexivity.
Defined.

(** A single row of positive score: row 1 does not exist and the call
    raises. *)
Lemma crystal_from_template_matching_single_phase_counterexample :
  let z := [Template.mk_row 0 (1, 2, 3) 10] in
  Template.single_phase z /\
  Template.crystal_from_template_matching z = Raise IndexError /\
  ~ Py.returns (Template.crystal_from_template_matching z).
Proof.
  intros z. split; [reflexivity |].
  split; [reflexivity |].
  intros (c & Hc). vm_compute in Hc. discriminate.
Qed.

(** ** Vector matching *)

Lemma firstn_exact {A : Type} (pre suf : list A) (i : nat) :
  length pre = i -> firstn i (pre ++ suf) = pre.
Proof.
  intros <-. rewrite firstn_app, Nat.sub_diag, firstn_all. simpl.
  apply app_nil_r.
Qed.

Lemma skipn_past {A : Type} (pre suf : list A) (i m : nat) :
  length pre = i -> skipn (i + m) (pre ++ suf) = skipn m suf.
Proof.
  intros <-. rewrite skipn_app.
  rewrite skipn_all2 by lia. simpl. f_equal. lia.
Qed.

Lemma set_slice_block {A : Type} (pre blk suf : list (option A))
  (vals : list A) (i : nat) :
  length pre = i -> (length vals <= length blk)%nat ->
  Vector.set_slice (pre ++ blk ++ suf) i vals =
  pre ++ map Some vals ++ skipn (length vals) blk ++ suf.
Proof.
  intros Hi Hle. unfold Vector.set_slice.
  rewrite (firstn_exact _ _ _ Hi), (skipn_past _ _ _ _ Hi).
  rewrite skipn_app.
  replace (length vals - length blk)%nat with 0%nat by lia.
  reflexivity.
Qed.

Section MatchVectorsFacts.
Context {hkl_pair structure : Type}.
Context (norm : Vector.vec -> Q)
        (get_angle_cartesian : Vector.vec -> Vector.vec -> Q)
        (polar_angle : Vector.vec -> Q)
        (rotation_onto :
           structure -> Vector.vec -> Vector.vec -> hkl_pair -> Vector.matrix)
        (fractional_hkls :
           structure -> Vector.matrix -> list Vector.vec -> list Vector.vec).
Context (peaks : list Vector.vec)
        (angle_tol index_error_tol : Q)
        (n_peaks_to_index n_best : nat).

Local Abbreviation phase := (Vector.phase hkl_pair structure).
Local Abbreviation found_in mag_tol k ph :=
  (Vector.phase_solutions hkl_pair structure norm get_angle_cartesian
     polar_angle rotation_onto fractional_hkls k ph peaks mag_tol
     angle_tol index_error_tol n_peaks_to_index).
Local Abbreviation loop mag_tol :=
  (Vector.match_phases hkl_pair structure norm get_angle_cartesian polar_angle
     rotation_onto fractional_hkls peaks mag_tol angle_tol index_error_tol
     n_peaks_to_index n_best).
Local Abbreviation written_rows mag_tol :=
  (Vector.written_rows hkl_pair structure norm get_angle_cartesian polar_angle
     rotation_onto fractional_hkls peaks mag_tol angle_tol index_error_tol
     n_peaks_to_index n_best).
Local Abbreviation written_from mag_tol :=
  (Vector.written_from hkl_pair structure norm get_angle_cartesian polar_angle
     rotation_onto fractional_hkls peaks mag_tol angle_tol index_error_tol
     n_peaks_to_index n_best).
Local Abbreviation match_vectors mag_tol library :=
  (Vector.match_vectors hkl_pair structure norm get_angle_cartesian polar_angle
     rotation_onto fractional_hkls peaks library mag_tol angle_tol
     index_error_tol n_peaks_to_index n_best).

Lemma written_rows_length (mag_tol : Q) (k : nat) (ph : phase) :
  length (written_rows mag_tol k ph) = n_best.
Proof.
  unfold Vector.written_rows. rewrite length_app, length_map, repeat_length.
  rewrite length_firstn, sort_desc_length. lia.
Qed.

Lemma match_phases_skips (mag_tol : Q) (library : list phase) :
  forall k st, (length peaks < 2)%nat -> loop mag_tol k library st = st.
Proof.
  induction library as [| ph rest IH]; intros k st Hlt; simpl; [reflexivity |].
  destruct (Nat.ltb_spec (length peaks) 2) as [_ | H]; [| lia].
  apply IH. exact Hlt.
Qed.

Lemma match_phases_writes (mag_tol : Q) (library : list phase) :
  forall k pre suf res,
    (2 <= length peaks)%nat ->
    length pre = (k * n_best)%nat ->
    length suf = (length library * n_best)%nat ->
    fst (loop mag_tol k library (pre ++ suf, res)) =
    pre ++ written_from mag_tol k library.
Proof.
  induction library as [| ph rest IH]; intros k pre suf res Hp Hpre Hsuf.
  - simpl in *. destruct suf; [reflexivity | discriminate].
  - simpl Vector.match_phases.
    destruct (Nat.ltb_spec (length peaks) 2) as [H | _]; [lia |].
    cbv zeta. simpl fst. simpl snd.
    set (sols := map fst (found_in mag_tol k ph)).
    set (n := Nat.min n_best (length sols)).
    set (topn := firstn n (sort_desc Vector.match_rate sols)).
    assert (Hn : (n <= n_best)%nat) by (unfold n; lia).
    assert (Htopn : length topn = n).
    { unfold topn. rewrite length_firstn, sort_desc_length. unfold n. lia. }
    rewrite <- (firstn_skipn n_best suf).
    set (blk := firstn n_best suf). set (suf' := skipn n_best suf).
    assert (Hblk : length blk = n_best).
    { unfold blk. rewrite length_firstn. simpl in Hsuf. lia. }
    assert (Hsuf' : length suf' = (length rest * n_best)%nat).
    { unfold suf'. rewrite length_skipn. simpl in Hsuf. lia. }
    assert (Htop1 :
      (if (0 <? n)%nat
       then Vector.set_slice (pre ++ blk ++ suf') (k * n_best) topn
       else pre ++ blk ++ suf') =
      (pre ++ map Some topn) ++ skipn n blk ++ suf').
    { destruct (Nat.ltb_spec 0 n) as [Hpos | Hzero].
      - rewrite set_slice_block by (try exact Hpre; lia).
        rewrite Htopn, <- app_assoc. reflexivity.
      - assert (n = 0)%nat as Hn0 by lia.
        destruct topn; [| simpl in Htopn; lia].
        rewrite Hn0. simpl. rewrite app_nil_r. reflexivity. }
    rewrite Htop1.
    assert (Hpre1 : length (pre ++ map Some topn) = (k * n_best + n)%nat).
    { rewrite length_app, length_map. lia. }
    assert (Htop2 :
      (if (n <? n_best)%nat
       then Vector.set_slice ((pre ++ map Some topn) ++ skipn n blk ++ suf')
              (k * n_best + n) (repeat Vector.sentinel (n_best - n))
       else (pre ++ map Some topn) ++ skipn n blk ++ suf') =
      (pre ++ written_rows mag_tol k ph) ++ suf').
    { unfold Vector.written_rows. fold sols. fold n. fold topn.
      destruct (Nat.ltb_spec n n_best) as [Hlt | Hge].
      - rewrite set_slice_block
          by (try exact Hpre1; rewrite repeat_length, length_skipn; lia).
        rewrite repeat_length, skipn_all2 by (rewrite length_skipn; lia).
        rewrite map_repeat. simpl. rewrite <- !app_assoc. reflexivity.
      - replace (n_best - n)%nat with 0%nat by lia.
        rewrite skipn_all2 by lia. simpl.
        rewrite app_nil_r. reflexivity. }
    rewrite Htop2.
    rewrite IH.
    + simpl Vector.written_from. rewrite <- app_assoc. reflexivity.
    + exact Hp.
    + rewrite length_app, written_rows_length. simpl. lia.
    + exact Hsuf'.
Qed.

Lemma written_from_length (mag_tol : Q) (library : list phase) :
  forall k, length (written_from mag_tol k library) = (length library * n_best)%nat.
Proof.
  induction library as [| ph rest IH]; intros k; simpl; [reflexivity |].
  rewrite length_app, written_rows_length, IH. reflexivity.
Qed.

(** With at least two peaks every phase writes its [n_best] rows. *)
Lemma match_vectors_padding (mag_tol : Q) (library : list phase) :
  (2 <= length peaks)%nat ->
  fst (match_vectors mag_tol library) = written_from mag_tol 0 library.
Proof.
  intros Hp. unfold Vector.match_vectors.
  apply (match_phases_writes mag_tol library 0 [] _ [] Hp); [reflexivity |].
  apply repeat_length.
Qed.

Lemma match_vectors_length (mag_tol : Q) (library : list phase) :
  length (fst (match_vectors mag_tol library)) = (length library * n_best)%nat.
Proof.
  destruct (Nat.lt_ge_cases (length peaks) 2) as [Hlt | Hge].
  - unfold Vector.match_vectors. rewrite match_phases_skips by exact Hlt.
    apply repeat_length.
  - rewrite match_vectors_padding by exact Hge. apply written_from_length.
Qed.

Lemma written_from_phase_rows (mag_tol : Q) (library : list phase) :
  forall k0 k ph,
    nth_error library k = Some ph ->
    Vector.phase_rows (written_from mag_tol k0 library) n_best k =
    written_rows mag_tol (k0 + k) ph.
Proof.
  unfold Vector.phase_rows.
  induction library as [| ph0 rest IH]; intros k0 k ph Hk.
  - destruct k; discriminate.
  - simpl Vector.written_from. destruct k as [| k].
    + injection Hk as <-. simpl skipn. rewrite Nat.add_0_r.
      apply firstn_exact, written_rows_length.
    + simpl in Hk.
      replace (S k * n_best)%nat with (n_best + k * n_best)%nat by lia.
      rewrite skipn_past by apply written_rows_length.
      rewrite (IH (S k0) k ph Hk). f_equal. lia.
Qed.

(** With at least two peaks, phase number [k] owns exactly [n_best] rows:
    its best solutions, then sentinels. *)
Lemma match_vectors_phase_rows (mag_tol : Q) (library : list phase)
  (k : nat) (ph : phase) :
  (2 <= length peaks)%nat ->
  nth_error library k = Some ph ->
  Vector.phase_rows (fst (match_vectors mag_tol library)) n_best k =
  written_rows mag_tol k ph.
Proof.
  intros Hp Hk. rewrite match_vectors_padding by exact Hp.
  apply (written_from_phase_rows mag_tol library 0 k ph Hk).
Qed.

Lemma tolerance_mask_zero (ph : phase) (q1_len q2_len angle : Q) :
  filter (fun b : bool => b)
    (Vector.tolerance_mask hkl_pair structure ph q1_len q2_len angle 0 angle_tol)
  = [].
Proof.
  unfold Vector.tolerance_mask.
  induction (Vector.measurements hkl_pair structure ph) as [| m l IH];
    [reflexivity |].
  rewrite map_cons. destruct m as [[m0 m1] m2].
  assert (H : Qltb (Qabs (m0 - q1_len)) 0 = false)
    by (apply Qltb_ge, Qabs_nonneg).
  rewrite H. simpl. exact IH.
Qed.

Lemma phase_solutions_zero (k : nat) (ph : phase) : found_in 0 k ph = [].
Proof.
  unfold Vector.phase_solutions.
  induction (Vector.combinations2
               (Vector._choose_peak_ids polar_angle peaks n_peaks_to_index))
    as [| ids l IH]; simpl; [reflexivity |].
  rewrite IH, app_nil_r.
  unfold Vector.pair_solutions.
  destruct (Qltb _ _); rewrite tolerance_mask_zero; reflexivity.
Qed.

Lemma written_from_no_solutions (mag_tol : Q) (library : list phase) :
  (forall k ph, found_in mag_tol k ph = []) ->
  forall k,
    written_from mag_tol k library =
    repeat (Some Vector.sentinel) (length library * n_best).
Proof.
  intros Hnone. induction library as [| ph rest IH]; intros k; simpl;
    [reflexivity |].
  rewrite IH. unfold Vector.written_rows. rewrite Hnone. simpl.
  rewrite Nat.min_0_r, Nat.sub_0_r. simpl.
  rewrite repeat_app. reflexivity.
Qed.

Lemma match_phases_rhkls_no_solutions (mag_tol : Q) (library : list phase) :
  (forall k ph, found_in mag_tol k ph = []) ->
  forall k st, snd (loop mag_tol k library st) = snd st.
Proof.
  intros Hnone. induction library as [| ph rest IH]; intros k st; simpl;
    [reflexivity |].
  destruct (length peaks <? 2)%nat; rewrite IH; [reflexivity |].
  rewrite Hnone. simpl. apply app_nil_r.
Qed.

(** C3.  The returned array always has [len(library) * n_best] slots, but
    when fewer than two peaks are supplied every phase is skipped before
    the padding code: all slots are left unassigned and none holds the
    sentinel. *)
Theorem match_vectors_few_peaks_unfilled (mag_tol : Q) (library : list phase)
  (Hfew : (length peaks < 2)%nat) :
  length (fst (match_vectors mag_tol library)) = (length library * n_best)%nat /\
  fst (match_vectors mag_tol library) = repeat None (length library * n_best) /\
  ~ In (Some Vector.sentinel) (fst (match_vectors mag_tol library)).
Proof.
  split; [apply match_vectors_length |].
  assert (H : fst (match_vectors mag_tol library) =
              repeat None (length library * n_best)).
  { unfold Vector.match_vectors. rewrite match_phases_skips by exact Hfew.
    reflexivity. }
  split; [exact H |].
  rewrite H. intros Hin. apply repeat_spec in Hin. discriminate.
Qed.

(** C4.  With [mag_tol = 0] no library row passes the strict magnitude
    comparison, so no phase finds a candidate.  With at least two peaks
    the result is then the all-sentinel array with no rounded hkls.
    With fewer than two peaks every phase is skipped before the padding
    code, and the result is not the all-sentinel array: every slot is
    left unassigned. *)
Theorem match_vectors_zero_mag_tol (library : list phase) :
  (forall k ph, found_in 0 k ph = []) /\
  ((2 <= length peaks)%nat ->
   match_vectors 0 library =
     (repeat (Some Vector.sentinel) (length library * n_best), [])) /\
  ((length peaks < 2)%nat ->
   match_vectors 0 library = (repeat None (length library * n_best), []) /\
   (library <> [] -> (0 < n_best)%nat ->
    fst (match_vectors 0 library) <>
      repeat (Some Vector.sentinel) (length library * n_best))).
Proof.
  split; [apply phase_solutions_zero |]. split.
  - intros Hpeaks.
    rewrite (surjective_pairing (match_vectors 0 library)).
    f_equal.
    + rewrite match_vectors_padding by exact Hpeaks.
      apply written_from_no_solutions, phase_solutions_zero.
    + unfold Vector.match_vectors.
      apply (match_phases_rhkls_no_solutions 0 library phase_solutions_zero).
  - intros Hfew.
    assert (H : match_vectors 0 library =
                (repeat None (length library * n_best), [])).
    { unfold Vector.match_vectors. apply match_phases_skips. exact Hfew. }
    split; [exact H |].
    intros Hlib Hn. rewrite H. simpl fst.
    destruct library as [| ph rest]; [congruence |].
    destruct n_best as [| n]; [lia |].
    simpl. discriminate.
Qed.

End MatchVectorsFacts.


(** One peak, one phase, [n_best = 2]: both slots stay unassigned. *)
Lemma match_vectors_few_peaks_unfilled_witness :
  (length [(1, 0, 0)] < 2)%nat /\
  fst (Vector.Demo.match_vectors [(1, 0, 0)] Vector.Demo.library
         (1 # 10) (1 # 10) (1 # 10) 2 2) = [None; None].
Proof.
  split; [simpl; lia |].
  apply (match_vectors_few_peaks_unfilled Vector.Demo.norm
           Vector.Demo.get_angle_cartesian Vector.Demo.polar_angle
           Vector.Demo.rotation_onto Vector.Demo.fractional_hkls
           [(1, 0, 0)] (1 # 10) (1 # 10) 2 2 (1 # 10) Vector.Demo.library).
  simpl. lia.
Defined.

(** Two peaks of magnitudes 1 and 2 against a library row with exactly
    these magnitudes: with [mag_tol = 0] the result is all-sentinel. *)
Lemma match_vectors_zero_mag_tol_witness :
  (2 <= length [(1, 0, 0); (2, 0, 0)])%nat /\
  Vector.Demo.match_vectors [(1, 0, 0); (2, 0, 0)] Vector.Demo.library
    0 (1 # 10) (1 # 10) 2 2 =
  ([Some Vector.sentinel; Some Vector.sentinel], []).
Proof.
  split; [simpl; lia |].
  apply (match_vectors_zero_mag_tol Vector.Demo.norm
           Vector.Demo.get_angle_cartesian Vector.Demo.polar_angle
           Vector.Demo.rotation_onto Vector.Demo.fractional_hkls
           [(1, 0, 0); (2, 0, 0)] (1 # 10) (1 # 10) 2 2 Vector.Demo.library).
  simpl. lia.
Defined.

(** The same peaks and library with a positive tolerance: the exactly
    matching row is found, with match rate 1. *)
Example match_vectors_positive_mag_tol_finds_exact :
  map (option_map Vector.match_rate)
    (fst (Vector.Demo.match_vectors [(1, 0, 0); (2, 0, 0)] Vector.Demo.library
            (1 # 10) (1 # 10) (1 # 10) 2 2))
  = [Some (2 # 2); Some 0].
Proof. vm_compute. reflexivity. Qed.

(** With a single peak and [mag_tol = 0] no magnitude equality exists,
    yet the result is not the all-sentinel array: the slots are
    unassigned. *)
Lemma match_vectors_zero_mag_tol_counterexample :
  fst (Vector.Demo.match_vectors [(1, 0, 0)] Vector.Demo.library
         0 (1 # 10) (1 # 10) 2 2) = [None; None] /\
  fst (Vector.Demo.match_vectors [(1, 0, 0)] Vector.Demo.library
         0 (1 # 10) (1 # 10) 2 2) <> repeat (Some Vector.sentinel) 2.
Proof.
  split; [reflexivity |].
  vm_compute. discriminate.
Qed.
(** ** Vector-matching reduction *)

Lemma or_one_nonzero (x : Q) : ~ Vector.or_one x == 0.
Proof.
  unfold Vector.or_one. destruct (Qeq_bool x 0) eqn:E.
  - intros H. discriminate H.
  - intros H. apply Qeq_bool_iff in H. congruence.
Qed.

Lemma sort_asc_head_least {A : Type} (key : A -> Q) (l : list A) (x : A)
  (rest : list A) :
  sort_asc key l = x :: rest -> Forall (fun y => key x <= key y) l.
Proof.
  intros H.
  pose proof (sort_asc_sorted key l) as Hs. rewrite H in Hs.
  apply StronglySorted_inv in Hs. destruct Hs as [_ Hall].
  pose proof (sort_asc_perm key l) as Hp. rewrite H in Hp.
  eapply Permutation_Forall; [apply Permutation_sym, Hp |].
  constructor; [apply Qle_refl | exact Hall].
Qed.

Lemma sort_asc_nonempty {A : Type} (key : A -> Q) (l : list A) (x : A)
  (rest : list A) :
  sort_asc key l = x :: rest -> exists y l', l = y :: l'.
Proof.
  intros H. destruct l as [| y l']; [discriminate | eauto].
Qed.

Section VectorReduction.
Context (euler_degrees : Vector.matrix -> Vector.vec).

Local Abbreviation crystal := (Vector.crystal_from_vector_matching euler_degrees).
Local Abbreviation others best z :=
  (filter (fun m => negb (Nat.eqb (Vector.phase_index m) (Vector.phase_index best))) z).
Local Abbreviation sames best z :=
  (filter (fun m => Nat.eqb (Vector.phase_index m) (Vector.phase_index best)) z).
Local Abbreviation outcome best phase_rel second :=
  (Ok (Vector.mk_vector_crystal (Vector.phase_index best)
         (euler_degrees (Vector.rotation_matrix best))
         (Vector.mk_vector_metrics (Vector.match_rate best)
            (Vector.error_hkls best) (Vector.total_error best) phase_rel
            (100 * (1 - Vector.total_error best /
                        Vector.or_one (Vector.total_error second)))))).

(** C5 (as amended).  The best match is the first entry of least
    [total_error].  [orientation_reliability] is
    [100 * (1 - best / runner_up)], where a runner-up error equal to zero
    is replaced by 1.0, so this division never divides by zero; with
    other phases present and a best other-phase error that is not zero,
    [phase_reliability = 100 * (1 - best / best_other)].  A single
    result has no runner-up and the call raises. *)
Theorem crystal_from_vector_matching_reliabilities
  (z : list Vector.OrientationResult) (best : Vector.OrientationResult)
  (rest : list Vector.OrientationResult)
  (Hsorted : sort_asc Vector.total_error z = best :: rest) :
  Forall (fun m => Vector.total_error best <= Vector.total_error m) z /\
  (forall x, ~ Vector.or_one x == 0) /\
  (others best z = [] ->
   forall second rest', rest = second :: rest' ->
     crystal (Vector.Wrapped z) = outcome best None second) /\
  (forall sp others' b second same',
     sort_asc Vector.total_error (others best z) = sp :: others' ->
     sort_asc Vector.total_error (sames best z) = b :: second :: same' ->
     ~ Vector.total_error sp == 0 ->
     Forall (fun m => Vector.total_error sp <= Vector.total_error m)
       (others best z) /\
     crystal (Vector.Wrapped z) =
       outcome best
         (Some (100 * (1 - Vector.total_error best / Vector.total_error sp)))
         second) /\
  (rest = [] -> crystal (Vector.Wrapped z) = Raise IndexError).
Proof.
  destruct (sort_asc_nonempty _ _ _ _ Hsorted) as (y & l' & Hz).
  assert (Hbest : Vector.get_nth_best_solution z 0 = Ok best).
  { unfold Vector.get_nth_best_solution. rewrite Hsorted, Hz. reflexivity. }
  split; [exact (sort_asc_head_least _ _ _ _ Hsorted) |].
  split; [exact or_one_nonzero |].
  unfold Vector.crystal_from_vector_matching. simpl Vector.unwrap.
  cbn [Py.bind]. rewrite Hbest. cbn [Py.bind].
  split; [| split].
  - intros Hnone second rest' ->. rewrite Hnone.
    unfold Vector.get_nth_best_solution. rewrite Hsorted, Hz. simpl.
    rewrite truediv_nonzero by apply or_one_nonzero. reflexivity.
  - intros sp others' b second same' Hsp Hsame Hnz.
    split; [exact (sort_asc_head_least _ _ _ _ Hsp) |].
    destruct (sort_asc_nonempty _ _ _ _ Hsp) as (o & ol & Ho).
    rewrite Ho. rewrite <- Ho. rewrite Hsp, Hsame. simpl.
    rewrite truediv_nonzero by exact Hnz. simpl.
    rewrite truediv_nonzero by apply or_one_nonzero. reflexivity.
  - intros ->.
    assert (Hlen : length z = 1%nat).
    { rewrite <- (sort_asc_length Vector.total_error z), Hsorted. reflexivity. }
    rewrite Hz in Hlen. destruct l'; [| discriminate]. subst z.
    simpl in Hsorted. injection Hsorted as <-.
    simpl. rewrite Nat.eqb_refl. simpl. reflexivity.
Qed.

End VectorReduction.

(** Errors 1/4 and 1/2 in phase 0 and 1 in phase 1:
    orientation reliability 50, phase reliability 75. *)
Lemma crystal_from_vector_matching_reliabilities_witness :
  let a := Vector.mk_result 0 Vector.identity3 1 [] (1 # 4) 1 0 0 in
  let b := Vector.mk_result 0 Vector.identity3 (1 # 2) [] (1 # 2) 1 0 0 in
  let c := Vector.mk_result 1 Vector.identity3 (1 # 2) [] 1 1 0 0 in
  sort_asc Vector.total_error [b; a; c] = [a; b; c] /\
  exists r pr,
    Vector.crystal_from_vector_matching (fun _ => (0, 0, 0))
      (Vector.Wrapped [b; a; c]) = Ok r /\
    Vector.vc_phase r = 0%nat /\
    Vector.vm_orientation_reliability (Vector.vc_metrics r) == 50 /\
    Vector.vm_phase_reliability (Vector.vc_metrics r) = Some pr /\
    pr == 75.
Proof.
  intros a b c.
  assert (H : sort_asc Vector.total_error [b; a; c] = [a; b; c]) by reflexivity.
  split; [exact H |].
  destruct (crystal_from_vector_matching_reliabilities (fun _ => (0, 0, 0))
              [b; a; c] a [b; c] H) as (_ & _ & _ & Hmulti & _).
  destruct (Hmulti c [] a b []) as (_ & Heq).
  - reflexivity.
  - reflexivity.
  - simpl. lra.
  - eexists. eexists. split; [exact Heq |]. simpl.
    split; [reflexivity |].
    split; [vm_compute; reflexivity |].
    split; [reflexivity |]. vm_compute. reflexivity.
Defined.

(** A runner-up error of zero is replaced by 1.0. *)
Example crystal_from_vector_matching_zero_runner_up :
  let a := Vector.mk_result 0 Vector.identity3 1 [] 0 1 0 0 in
  exists r,
    Vector.crystal_from_vector_matching (fun _ => (0, 0, 0))
      (Vector.Wrapped [a; a]) = Ok r /\
    Vector.vm_orientation_reliability (Vector.vc_metrics r) == 100.
Proof.
  intros a. eexists. split; [reflexivity |]. vm_compute. reflexivity.
Qed.

(** A single result has no runner-up: nothing is substituted, the call
    raises, wrapped or not. *)
Lemma crystal_from_vector_matching_absent_runner_up_counterexample :
  let a := Vector.mk_result 0 Vector.identity3 1 [] (1 # 4) 1 0 0 in
  Vector.crystal_from_vector_matching (fun _ => (0, 0, 0)) (Vector.Wrapped [a])
    = Raise IndexError /\
  Vector.crystal_from_vector_matching (fun _ => (0, 0, 0)) (Vector.Direct [a])
    = Raise AttributeError /\
  ~ Py.returns
      (Vector.crystal_from_vector_matching (fun _ => (0, 0, 0))
         (Vector.Wrapped [a])).
Proof.
  intros a. split; [reflexivity |]. split; [reflexivity |].
  intros (r & Hr). vm_compute in Hr. discriminate.
Qed.

(** ** Correlation metrics and [correlate_library] *)

Section CorrFacts.
Context {F : Type} {FF : Corr.Float F}.

Lemma np_multiply_same_length (a b : list F) :
  length a = length b ->
  Corr.np_multiply a b = Ok (Corr.zip_with Corr.fmul a b).
Proof.
  intros H. unfold Corr.np_multiply. rewrite H, Nat.eqb_refl. reflexivity.
Qed.

Lemma set_nth_length {A : Type} (l : list A) :
  forall i v, length (Corr.set_nth l i v) = length l.
Proof.
  induction l as [| x l IH]; intros [| i] v; simpl; auto.
Qed.

Lemma insert_score_length {A : Type} (x : A * F) (l : list (A * F)) :
  length (Corr.insert_score x l) = S (length l).
Proof.
  induction l as [| y l IH]; simpl; [reflexivity |].
  destruct (Corr.fltb (snd y) (snd x)); simpl; [rewrite IH |]; reflexivity.
Qed.

Lemma sort_score_length {A : Type} (l : list (A * F)) :
  length (Corr.sort_score l) = length l.
Proof.
  induction l as [| x l IH]; simpl; [reflexivity |].
  rewrite insert_score_length, IH. reflexivity.
Qed.

Lemma argmin_from_bound (l : list F) :
  forall bi b i,
    (bi < i)%nat -> (Corr.argmin_from bi b i l < i + length l)%nat.
Proof.
  induction l as [| x l IH]; intros bi b i Hbi; simpl; [lia |].
  destruct (Corr.fltb x b).
  - specialize (IH i x (S i)). lia.
  - specialize (IH bi b (S i)). lia.
Qed.

Lemma np_argmin_nonempty (a : list F) :
  a <> [] ->
  exists i x, Corr.np_argmin a = Ok i /\ nth_error a i = Some x.
Proof.
  destruct a as [| y l]; [congruence |]. intros _.
  pose proof (argmin_from_bound l 0%nat y 1%nat) as Hb.
  assert (Hlt : (Corr.argmin_from 0 y 1 l < length (y :: l))%nat)
    by (simpl; lia).
  apply nth_error_Some in Hlt.
  destruct (nth_error (y :: l) (Corr.argmin_from 0 y 1 l)) as [x |] eqn:E;
    [| congruence].
  exists (Corr.argmin_from 0 y 1 l), x. split; [reflexivity | exact E].
Qed.

Local Abbreviation well_shaped := (@Corr.well_shaped F).

Lemma row_length (k : nat) (e : (F * F * F) * F) : length (Corr.row k e) = 3%nat.
Proof. destruct e as [[[z x] z'] c]. reflexivity. Qed.

Lemma rows_well_shaped (k : nat) (l : list ((F * F * F) * F)) :
  well_shaped (length l) (map (Corr.row k) l).
Proof.
  split; [apply length_map |].
  apply Forall_map, Forall_forall. intros e _. apply row_length.
Qed.

Lemma phase_loop_shape (m : Corr.method) (nb : nat) (std avg : F)
  (image : Corr.image2d) (k : nat) (templates : list Corr.template) :
  forall saved block out,
    well_shaped (length saved) block ->
    Corr.phase_loop m nb std avg image k templates saved block = Ok out ->
    well_shaped (length saved) out.
Proof.
  induction templates as [| t rest IH]; intros saved block out Hblock; simpl.
  - intros [= <-]. exact Hblock.
  - destruct (Corr.corr_of m nb std avg image t) as [c |]; simpl; [| discriminate].
    destruct (Corr.np_argmin (map snd saved)) as [i |]; simpl; [| discriminate].
    destruct (getitem (map snd saved) i) as [lowest |]; simpl; [| discriminate].
    intros Hout.
    set (saved' := if Corr.fltb lowest c
                   then Corr.set_nth saved i (Corr.or_local t, c) else saved) in *.
    assert (Hlen : length saved' = length saved).
    { unfold saved'. destruct (Corr.fltb lowest c);
        [apply set_nth_length | reflexivity]. }
    rewrite <- Hlen. eapply IH; [| exact Hout].
    rewrite <- (sort_score_length saved'), <- length_rev.
    apply rows_well_shaped.
Qed.

Lemma phase_loop_returns (m : Corr.method) (nb : nat) (std avg : F)
  (image : Corr.image2d) (k : nat) (templates : list Corr.template) :
  Forall (fun t => Py.returns (Corr.corr_of m nb std avg image t)) templates ->
  forall saved block,
    saved <> [] ->
    Py.returns (Corr.phase_loop m nb std avg image k templates saved block).
Proof.
  induction 1 as [| t rest (c & Hc) _ IH]; intros saved block Hne; simpl.
  - eexists; reflexivity.
  - rewrite Hc. simpl.
    assert (Hne' : map snd saved <> []).
    { destruct saved; [congruence | discriminate]. }
    destruct (np_argmin_nonempty _ Hne') as (i & x & Hi & Hx).
    rewrite Hi. simpl. unfold getitem. rewrite Hx. simpl.
    apply IH.
    destruct (Corr.fltb x c); [| exact Hne].
    intros Hnil. apply (f_equal (@length _)) in Hnil.
    rewrite set_nth_length in Hnil.
    destruct saved; [congruence | discriminate].
Qed.

Lemma concat_blocks_shape (n : nat) (blocks : list (list (list (Corr.cell F)))) :
  Forall (well_shaped n) blocks ->
  length (concat blocks) = (length blocks * n)%nat /\
  Forall (fun r => length r = 3%nat) (concat blocks).
Proof.
  induction 1 as [| b bs [Hlen Hrows] _ [IH1 IH2]]; simpl; [auto |].
  split.
  - rewrite length_app, Hlen, IH1. reflexivity.
  - apply Forall_app. auto.
Qed.

Lemma none_block_shape (n : nat) :
  well_shaped n (repeat [@Corr.CNone F; Corr.CNone; Corr.CNone] n).
Proof.
  split; [apply repeat_length |].
  apply Forall_forall. intros r Hr. apply repeat_spec in Hr. now subst.
Qed.

Lemma phases_loop_shape (m : Corr.method) (nb : nat) (std avg : F)
  (image : Corr.image2d) (garbage : F * F * F) (n : nat)
  (library : list (list Corr.template)) :
  forall k blocks,
    Corr.phases_loop m nb std avg image garbage n k library = Ok blocks ->
    length blocks = length library /\ Forall (well_shaped n) blocks.
Proof.
  induction library as [| ts rest IH]; intros k blocks; simpl.
  - intros [= <-]. auto.
  - destruct (Corr.phase_loop m nb std avg image k ts _ _) as [block |] eqn:E;
      simpl; [| discriminate].
    destruct (Corr.phases_loop m nb std avg image garbage n (S k) rest)
      as [bs |] eqn:E'; simpl; [| discriminate].
    intros [= <-]. destruct (IH _ _ E') as [Hl Hs].
    split; [simpl; congruence |].
    constructor; [| exact Hs].
    apply phase_loop_shape in E.
    + rewrite repeat_length in E. exact E.
    + rewrite repeat_length. apply none_block_shape.
Qed.

Lemma phases_loop_returns (m : Corr.method) (nb : nat) (std avg : F)
  (image : Corr.image2d) (garbage : F * F * F) (n : nat)
  (library : list (list Corr.template)) :
  (0 < n)%nat ->
  Forall (Forall (fun t => Py.returns (Corr.corr_of m nb std avg image t)))
    library ->
  forall k, Py.returns (Corr.phases_loop m nb std avg image garbage n k library).
Proof.
  intros Hn. induction 1 as [| ts rest Hts _ IH]; intros k; simpl.
  - eexists; reflexivity.
  - destruct (phase_loop_returns m nb std avg image k ts Hts
                (repeat (garbage, Corr.fzero) n)
                (repeat [Corr.CNone; Corr.CNone; Corr.CNone] n)) as (b & Hb).
    { destruct n; [lia | discriminate]. }
    rewrite Hb. simpl.
    destruct (IH (S k)) as (bs & Hbs). rewrite Hbs. simpl.
    eexists; reflexivity.
Qed.

Lemma concat_repeat_repeat {A : Type} (x : A) (n k : nat) :
  concat (repeat (repeat x n) k) = repeat x (k * n).
Proof.
  induction k as [| k IH]; simpl; [reflexivity |].
  rewrite IH, repeat_app. reflexivity.
Qed.

(** C6 (as amended).  On intensities of equal length the metric returns
    without raising: the scalar 0 whenever the comparison
    [match_denominator == 0] holds (the division is not evaluated), and
    the quotient of numerator and denominator otherwise.  On intensities
    whose lengths differ, neither being 1, [np.multiply] raises
    [ValueError] before the denominator is looked at. *)
Theorem zero_mean_normalized_correlation_zero_denominator
  (nb_pixels : nat) (image_std average_image_intensity : F)
  (image_intensities int_local : list F) :
  let den := Corr.match_denominator nb_pixels image_std int_local in
  let num :=
    Corr.fsub
      (Corr.np_sum (Corr.zip_with Corr.fmul image_intensities int_local))
      (Corr.fmul
         (Corr.fmul (Corr.fof_Z (Z.of_nat nb_pixels)) average_image_intensity)
         (Corr.average_pattern_intensity nb_pixels int_local)) in
  (length image_intensities = length int_local ->
   (Corr.feqb den Corr.fzero = true ->
    Corr.zero_mean_normalized_correlation nb_pixels image_std
      average_image_intensity image_intensities int_local = Ok Corr.fzero) /\
   (Corr.feqb den Corr.fzero = false ->
    Corr.zero_mean_normalized_correlation nb_pixels image_std
      average_image_intensity image_intensities int_local
    = Ok (Corr.fdiv num den))) /\
  (length image_intensities <> length int_local ->
   length image_intensities <> 1%nat -> length int_local <> 1%nat ->
   Corr.zero_mean_normalized_correlation nb_pixels image_std
     average_image_intensity image_intensities int_local = Raise ValueError).
Proof.
  intros den num. unfold Corr.zero_mean_normalized_correlation. split.
  - intros Hshape.
    rewrite (np_multiply_same_length _ _ Hshape). cbn [Py.bind].
    fold den. fold num.
    split; intros Hden; rewrite Hden; reflexivity.
  - intros Hne Ha Hb.
    assert (Hmul : Corr.np_multiply image_intensities int_local
                   = Raise ValueError).
    { unfold Corr.np_multiply.
      apply Nat.eqb_neq in Hne. rewrite Hne.
      destruct image_intensities as [| x [| x' a']];
        destruct int_local as [| y [| y' b']]; simpl in *;
        try reflexivity; congruence. }
    rewrite Hmul. reflexivity.
Qed.

(** C10 (as amended).  When [mask] is not 1 no template is scored and the
    call returns [len(library) * n_largest] rows of three unassigned
    cells.  With any mask, an array the call returns has that shape; and
    the call does return when [n_largest] is positive and the scoring of
    every template returns. *)
Theorem correlate_library_shape_and_mask
  (garbage : F * F * F) (image : Corr.image2d)
  (library : list (list Corr.template)) (n_largest : nat)
  (m : Corr.method) (mask : Z) :
  (mask <> 1%Z ->
   Corr.correlate_library garbage image library n_largest m mask =
     Ok (repeat [Corr.CNone; Corr.CNone; Corr.CNone]
           (length library * n_largest))) /\
  (forall rows,
     Corr.correlate_library garbage image library n_largest m mask = Ok rows ->
     length rows = (length library * n_largest)%nat /\
     Forall (fun r => length r = 3%nat) rows) /\
  ((0 < n_largest)%nat ->
   Forall (Forall (fun t =>
     Py.returns
       (Corr.corr_of m (Corr.img_rows image * Corr.img_cols image)
          (Corr.np_norm
             (map (fun x => Corr.fsub x (Corr.np_average (Corr.img_flat image)))
                (Corr.img_flat image)))
          (Corr.np_average (Corr.img_flat image)) image t))) library ->
   Py.returns (Corr.correlate_library garbage image library n_largest m mask)).
Proof.
  unfold Corr.correlate_library.
  split; [| split].
  - intros Hmask. apply Z.eqb_neq in Hmask. rewrite Hmask.
    rewrite concat_repeat_repeat. reflexivity.
  - intros rows. destruct (Z.eqb mask 1).
    + destruct (Corr.phases_loop _ _ _ _ _ _ _ _ _) as [blocks |] eqn:E; simpl;
        [| discriminate].
      intros [= <-]. apply phases_loop_shape in E. destruct E as [Hl Hs].
      rewrite <- Hl. apply concat_blocks_shape. exact Hs.
    + intros [= <-]. rewrite concat_repeat_repeat.
      split; [apply repeat_length |].
      apply Forall_forall. intros r Hr. apply repeat_spec in Hr. now subst.
  - intros Hn Hall. destruct (Z.eqb mask 1); [| eexists; reflexivity].
    destruct (phases_loop_returns m _ _ _ image garbage n_largest library Hn Hall 0%nat)
      as (blocks & Hb).
    rewrite Hb. simpl. eexists; reflexivity.
Qed.

End CorrFacts.

(** A flat image ([image_std = 0]) makes the denominator vanish. *)
Lemma zero_mean_normalized_correlation_zero_denominator_witness :
  length [3; 4] = length [1; 1] /\
  Corr.feqb (Corr.match_denominator 4 0 [1; 1]) Corr.fzero = true /\
  Corr.zero_mean_normalized_correlation 4 0 (7 # 2) [3; 4] [1; 1] = Ok 0.
Proof.
  split; [reflexivity |]. split; [reflexivity |].
  change (Ok 0) with (Ok (@Corr.fzero Q _)).
  apply (zero_mean_normalized_correlation_zero_denominator
           (F := Q) 4 0 (7 # 2) [3; 4] [1; 1]); reflexivity.
Defined.

(** The same flat image with three image intensities against two
    template intensities: the denominator is 0, yet the call raises
    instead of returning 0. *)
Lemma zero_mean_normalized_correlation_unequal_lengths_counterexample :
  Corr.feqb (Corr.match_denominator 4 0 [1; 1]) Corr.fzero = true /\
  Corr.zero_mean_normalized_correlation 4 0 (7 # 2) [3; 4; 5] [1; 1]
  = Raise ValueError /\
  Corr.zero_mean_normalized_correlation 4 0 (7 # 2) [3; 4; 5] [1; 1]
  <> Ok 0.
Proof.
  split; [reflexivity |]. split; [reflexivity |].
  intros H. discriminate H.
Qed.

(** With [mask = 1], a method name that no branch handles, or
    [n_largest = 0], makes the call raise on a library of one template. *)
Lemma correlate_library_raises_counterexample :
  let image := Corr.mk_image 2 2 (fun _ _ => 1) in
  let t := Corr.mk_template (0, 0, 0) [(0, 0)%Z] [1] 1 in
  Corr.correlate_library (0, 0, 0) image [[t]] 1
    Corr.full_frame_correlation_method 1 = Raise UnboundLocalError /\
  Corr.correlate_library (0, 0, 0) image [[t]] 0
    Corr.fast_correlation_method 1 = Raise ValueError /\
  ~ Py.returns
      (Corr.correlate_library (0, 0, 0) image [[t]] 1
         Corr.full_frame_correlation_method 1).
Proof.
  intros image t. split; [reflexivity |]. split; [reflexivity |].
  intros (r & Hr). vm_compute in Hr. discriminate.
Qed.

(** The same image and template scored with [fast_correlation]. *)
Example correlate_library_fast_example :
  let image := Corr.mk_image 2 2 (fun _ _ => 1) in
  let t := Corr.mk_template (10, 20, 30) [(0, 0)%Z; (1, 1)%Z] [2; 3] 1 in
  Corr.correlate_library (0, 0, 0) image [[t]] 1 Corr.fast_correlation_method 1
  = Ok [[Corr.CPhase 0; Corr.COrient 10 20 30; Corr.CScore (5 # 1)]].
Proof. vm_compute. reflexivity. Qed.


(** ** The [keep] gate of the two-stage matchers *)

Lemma inject_nat_nonzero (n : nat) : (0 < n)%nat -> ~ inject_Z (Z.of_nat n) == 0.
Proof.
  intros Hn H. unfold Qeq in H. simpl in H. lia.
Qed.

Lemma fraction_of_keep_count (n : nat) (keep : Q) :
  (0 < n)%nat -> 1 <= keep ->
  exists fraction,
    Polar.fraction_of_keep n keep = Ok fraction /\
    fraction == Qmax ((inject_Z (Z.of_nat n) - keep) / inject_Z (Z.of_nat n)) 0.
Proof.
  intros Hn Hk. unfold Polar.fraction_of_keep.
  apply Qle_bool_iff in Hk. rewrite Hk.
  rewrite truediv_nonzero by (apply inject_nat_nonzero; exact Hn).
  cbn [Py.bind]. eexists. split; [reflexivity |].
  unfold Polar.py_max0.
  destruct (Qltb _ 0) eqn:E.
  - apply Qltb_lt in E. symmetry. apply Q.max_r. lra.
  - apply Qltb_ge in E. symmetry. apply Q.max_l. exact E.
Qed.

Lemma fraction_of_keep_proportion (n : nat) (keep : Q) :
  0 < keep -> keep < 1 -> Polar.fraction_of_keep n keep = Ok (1 - keep).
Proof.
  intros Hpos Hlt. unfold Polar.fraction_of_keep.
  destruct (Qle_bool 1 keep) eqn:E1; [apply Qle_bool_iff in E1; lra |].
  apply Qltb_lt in Hpos. rewrite Hpos.
  assert (E2 : Qle_bool keep 1 = true) by (apply Qle_bool_iff; lra).
  rewrite E2. reflexivity.
Qed.

Lemma fraction_of_keep_invalid (n : nat) (keep : Q) :
  keep <= 0 -> Polar.fraction_of_keep n keep = Raise ValueError.
Proof.
  intros Hle. unfold Polar.fraction_of_keep.
  destruct (Qle_bool 1 keep) eqn:E1; [apply Qle_bool_iff in E1; lra |].
  destruct (Qltb 0 keep) eqn:E2; [apply Qltb_lt in E2; lra |].
  reflexivity.
Qed.

Section KeepGate.
Context {image polar_image template integrated F : Type}.
Context (image_to_polar : image -> result polar_image)
        (shape1 : polar_image -> nat)
        (normalised :
           polar_image -> list (list Q * list Q) * list (list Q) ->
           result (polar_image * list template))
        (_get_integrated_polar_templates :
           nat -> list template -> result integrated)
        (_match_library_to_polar_fast :
           polar_image -> integrated -> result (list F))
        (_match_polar_to_polar_library :
           polar_image -> list template -> result (list (F * F)))
        (_get_correlation_at_angle :
           polar_image -> list template -> list Z -> result (list F))
        (percentile : list F -> Q -> F)
        (fgt : F -> F -> bool)
        (argmax : list F -> nat)
        (argsort_descending : list F -> list nat)
        (angle_180 : Q -> Q -> F -> Z).

Local Abbreviation _prepare_image_and_templates :=
  (Polar._prepare_image_and_templates image polar_image template
     image_to_polar shape1 normalised).
Local Abbreviation n_best_from :=
  (Polar.n_best_from polar_image template integrated F shape1
     _get_integrated_polar_templates _match_library_to_polar_fast
     _match_polar_to_polar_library percentile fgt argmax argsort_descending).
Local Abbreviation partial_from :=
  (Polar.partial_from polar_image template integrated F shape1
     _get_integrated_polar_templates _match_library_to_polar_fast
     _match_polar_to_polar_library _get_correlation_at_angle percentile fgt
     angle_180).
Local Abbreviation get_n_best_matches :=
  (Polar.get_n_best_matches image polar_image template integrated F
     image_to_polar shape1 normalised _get_integrated_polar_templates
     _match_library_to_polar_fast _match_polar_to_polar_library percentile fgt
     argmax argsort_descending).
Local Abbreviation correlate_library_to_pattern_partial :=
  (Polar.correlate_library_to_pattern_partial image polar_image template
     integrated F image_to_polar shape1 normalised
     _get_integrated_polar_templates _match_library_to_polar_fast
     _match_polar_to_polar_library _get_correlation_at_angle percentile fgt
     angle_180).

(** C7 (as amended).  Whatever the preparation, the integration and the
    matching kernels compute or raise: an exception of the preparation
    is the outcome of both matchers; once the image and [N >= 1]
    templates are prepared, [keep >= 1] is a survivor count,
    [fraction = max((N - keep) / N, 0)], and [0 < keep < 1] is a
    retained proportion, [fraction = 1 - keep], and the matchers go on
    with that fraction; any other [keep] ([keep <= 0]) makes both raise
    [ValueError], the integration and the matching kernels not having
    been called. *)
Theorem keep_gate (im : image) (simulations : list (list IndexMore.spot))
  (n_best : nat) (keep delta_r delta_theta : Q) :
  (forall e,
     _prepare_image_and_templates im simulations delta_r = Raise e ->
     get_n_best_matches im simulations n_best keep delta_r = Raise e /\
     correlate_library_to_pattern_partial im simulations keep delta_r
       delta_theta = Raise e) /\
  (forall polar templates,
     _prepare_image_and_templates im simulations delta_r
       = Ok (polar, templates) ->
     templates <> [] ->
     let N := length templates in
     (1 <= keep ->
      exists fraction,
        Polar.fraction_of_keep N keep = Ok fraction /\
        fraction
          == Qmax ((inject_Z (Z.of_nat N) - keep) / inject_Z (Z.of_nat N)) 0 /\
        get_n_best_matches im simulations n_best keep delta_r
          = n_best_from polar templates fraction n_best /\
        correlate_library_to_pattern_partial im simulations keep delta_r
          delta_theta
          = partial_from polar templates fraction delta_theta) /\
     (0 < keep -> keep < 1 ->
      Polar.fraction_of_keep N keep = Ok (1 - keep) /\
      get_n_best_matches im simulations n_best keep delta_r
        = n_best_from polar templates (1 - keep) n_best /\
      correlate_library_to_pattern_partial im simulations keep delta_r
        delta_theta
        = partial_from polar templates (1 - keep) delta_theta) /\
     (keep <= 0 ->
      get_n_best_matches im simulations n_best keep delta_r
        = Raise ValueError /\
      correlate_library_to_pattern_partial im simulations keep delta_r
        delta_theta = Raise ValueError)).
Proof.
  unfold Polar.get_n_best_matches, Polar.correlate_library_to_pattern_partial.
  split.
  - intros e He. rewrite He. split; reflexivity.
  - intros polar templates Hp Hne. rewrite Hp. cbn [Py.bind fst snd].
    set (N := length templates).
    assert (HN : (0 < N)%nat).
    { unfold N. destruct templates; [congruence | simpl; lia]. }
    split; [| split].
    + intros Hk.
      destruct (fraction_of_keep_count N keep HN Hk) as (fraction & Hf & Heq).
      exists fraction. split; [exact Hf |]. split; [exact Heq |].
      rewrite Hf. split; reflexivity.
    + intros Hpos Hlt.
      pose proof (fraction_of_keep_proportion N keep Hpos Hlt) as Hf.
      split; [exact Hf |]. rewrite Hf. split; reflexivity.
    + intros Hle.
      rewrite (fraction_of_keep_invalid N keep Hle). split; reflexivity.
Qed.

(** A library of one template, asked for the one best match: the coarse
    correlation of the only template is not greater than the percentile
    of it, no template survives, and [np.argmax] of the empty array of
    fine correlations raises, for every valid [keep]. *)
Lemma get_n_best_matches_single_template_raises
  (im : image) (simulations : list (list IndexMore.spot))
  (keep delta_r : Q) (polar : polar_image) (t : template)
  (integrated_templates : integrated) (c : F) :
  _prepare_image_and_templates im simulations delta_r = Ok (polar, [t]) ->
  0 < keep ->
  _get_integrated_polar_templates (shape1 polar) [t]
    = Ok integrated_templates ->
  _match_library_to_polar_fast polar integrated_templates = Ok [c] ->
  (forall q, fgt c (percentile [c] q) = false) ->
  _match_polar_to_polar_library polar [] = Ok [] ->
  get_n_best_matches im simulations 1 keep delta_r = Raise ValueError.
Proof.
  intros Hp Hkeep Hint Hfast Hperc Hfine.
  assert (Hf : exists fraction,
            Polar.fraction_of_keep 1 keep = Ok fraction).
  { destruct (Qlt_le_dec keep 1) as [Hlt | Hge].
    - exists (1 - keep). apply fraction_of_keep_proportion; assumption.
    - destruct (fraction_of_keep_count 1 keep) as (f & Hf & _);
        [lia | exact Hge |]. exists f. exact Hf. }
  destruct Hf as (fraction & Hf).
  unfold Polar.get_n_best_matches. rewrite Hp. cbn [Py.bind fst snd length].
  rewrite Hf. cbn [Py.bind].
  unfold Polar.n_best_from. rewrite Hint. cbn [Py.bind].
  unfold Polar._mixed_matching_lib_to_polar. rewrite Hfast. cbn [Py.bind].
  cbn [map]. rewrite Hperc. cbn [Vector.select].
  rewrite Hfine. reflexivity.
Qed.

End KeepGate.

(** Three simulations of one spot each, prepared into three templates by
    collaborators that return at once: [keep = 2] keeps a third,
    [keep = 1/4] gives the fraction 3/4, and [keep = 0] raises. *)
Lemma keep_gate_witness :
  let simulations := [[(1, 0, 1)]; [(0, 1, 1)]; [(1, 1, 1)]] in
  let prepare :=
    Polar._prepare_image_and_templates unit unit unit
      (fun _ => Ok tt) (fun _ => 4%nat)
      (fun p arrays => Ok (p, map (fun _ => tt) (snd arrays))) in
  let n_best :=
    Polar.get_n_best_matches unit unit unit unit Q
      (fun _ => Ok tt) (fun _ => 4%nat)
      (fun p arrays => Ok (p, map (fun _ => tt) (snd arrays)))
      (fun _ _ => Ok tt) (fun _ _ => Ok [3; 1; 2])
      (fun _ ts => Ok (map (fun _ => (1, 0)) ts))
      (fun l _ => hd 0 l) (fun a b => Qltb b a) (fun _ => 0%nat)
      (fun l => seq 0 (length l)) in
  prepare tt simulations 1 = Ok (tt, [tt; tt; tt]) /\
  [tt; tt; tt] <> [] /\
  (exists f, Polar.fraction_of_keep 3 2 = Ok f /\ f == 1 # 3) /\
  Polar.fraction_of_keep 3 (1 # 4) = Ok (1 - (1 # 4)) /\
  n_best tt simulations 1%nat 0 1 = Raise ValueError.
Proof.
  intros simulations prepare n_best.
  assert (Hp : prepare tt simulations 1 = Ok (tt, [tt; tt; tt]))
    by reflexivity.
  assert (Hne : [tt; tt; tt] <> []) by discriminate.
  split; [exact Hp |]. split; [exact Hne |].
  destruct (keep_gate (fun _ => Ok tt) (fun _ => 4%nat)
              (fun p arrays => Ok (p, map (fun _ => tt) (snd arrays)))
              (fun _ _ => Ok tt) (fun _ _ => Ok [3; 1; 2])
              (fun _ ts => Ok (map (fun _ => (1, 0)) ts))
              (fun _ _ _ => Ok []) (fun l _ => hd 0 l)
              (fun a b => Qltb b a) (fun _ => 0%nat)
              (fun l => seq 0 (length l)) (fun _ _ (_ : Q) => 0%Z)
              tt simulations 1%nat 2 1 1) as (_ & Hcount).
  destruct (keep_gate (fun _ => Ok tt) (fun _ => 4%nat)
              (fun p arrays => Ok (p, map (fun _ => tt) (snd arrays)))
              (fun _ _ => Ok tt) (fun _ _ => Ok [3; 1; 2])
              (fun _ ts => Ok (map (fun _ => (1, 0)) ts))
              (fun _ _ _ => Ok []) (fun l _ => hd 0 l)
              (fun a b => Qltb b a) (fun _ => 0%nat)
              (fun l => seq 0 (length l)) (fun _ _ (_ : Q) => 0%Z)
              tt simulations 1%nat (1 # 4) 1 1) as (_ & Hprop).
  destruct (keep_gate (fun _ => Ok tt) (fun _ => 4%nat)
              (fun p arrays => Ok (p, map (fun _ => tt) (snd arrays)))
              (fun _ _ => Ok tt) (fun _ _ => Ok [3; 1; 2])
              (fun _ ts => Ok (map (fun _ => (1, 0)) ts))
              (fun _ _ _ => Ok []) (fun l _ => hd 0 l)
              (fun a b => Qltb b a) (fun _ => 0%nat)
              (fun l => seq 0 (length l)) (fun _ _ (_ : Q) => 0%Z)
              tt simulations 1%nat 0 1 1) as (_ & Hbad).
  split; [| split].
  - destruct (Hcount tt [tt; tt; tt] Hp Hne) as (Hc & _).
    destruct Hc as (f & Hf & Heq & _); [vm_compute; discriminate |].
    exists f. split; [exact Hf |].
    rewrite Heq. vm_compute. reflexivity.
  - destruct (Hprop tt [tt; tt; tt] Hp Hne) as (_ & Hq & _).
    apply Hq; reflexivity.
  - destruct (Hbad tt [tt; tt; tt] Hp Hne) as (_ & _ & Hb).
    apply Hb. vm_compute. discriminate.
Defined.

(** At [keep = 1] the first branch wins: over two templates the fraction
    is 1/2, not [1 - keep = 0]. *)
Lemma keep_gate_keep_one_counterexample :
  (0 < 1 /\ 1 <= 1) /\
  (exists f, Polar.fraction_of_keep 2 1 = Ok f /\ f == 1 # 2 /\ ~ f == 1 - 1).
Proof.
  split; [split; [reflexivity | discriminate] |].
  eexists. split; [reflexivity |].
  split; [vm_compute; reflexivity | vm_compute; discriminate].
Qed.

(** A spot at distance 2.6 from the centre of a polar image with three
    radial bins lies inside the maximal radius 3, is kept, and rounds to
    the radius 3, which is outside the three bins: with a valid [keep]
    the integration of the templates raises [IndexError]; with
    [keep = 0] the matcher raises [ValueError] and the integration is
    not reached. *)
Example get_n_best_matches_keep_before_integration :
  let matcher :=
    Polar.get_n_best_matches unit unit (list Z * list R)
      (list (option (list R))) Q
      (fun _ => Ok tt) (fun _ => 3%nat)
      (fun p arrays =>
         Ok (p,
             map (fun row : (list Q * list Q) * list Q =>
                    (map (fun x => Qfloor (Vector.rint (Qabs x)))
                         (fst (fst row)),
                     map (fun _ => 1%R) (snd row)))
                 (combine (fst arrays) (snd arrays))))
      (fun r_max ts =>
         PolarMatch._get_integrated_polar_templates r_max
           (map fst ts) (map snd ts))
      (fun _ _ => Ok [1]) (fun _ ts => Ok (map (fun _ => (1, 0)) ts))
      (fun l _ => hd 0 l) (fun a b => Qltb b a) (fun _ => 0%nat)
      (fun l => seq 0 (length l)) in
  matcher tt [[(13 # 5, 0, 1)]] 1%nat (1 # 2) 1 = Raise IndexError /\
  matcher tt [[(13 # 5, 0, 1)]] 1%nat 0 1 = Raise ValueError.
Proof.
  intros matcher. split; vm_compute; reflexivity.
Qed.

(** ** Vector geometry *)

Section GeometryFacts.
Import Geometry.
Local Open Scope R_scope.

Lemma cross_self (n : vec3) : cross n n = (0, 0, 0).
Proof.
  destruct n as [[n1 n2] n3]. unfold cross.
  f_equal; [f_equal |]; ring.
Qed.

Lemma dot_self_nonneg (a : vec3) : 0 <= dot a a.
Proof. destruct a as [[a1 a2] a3]. unfold dot. nra. Qed.

Lemma norm_zero : norm (0, 0, 0) = 0.
Proof.
  unfold norm, dot.
  replace (0 * 0 + 0 * 0 + 0 * 0) with 0 by ring. apply sqrt_0.
Qed.

Lemma normalize_or_zero_zero : normalize_or_zero (0, 0, 0) = (0, 0, 0).
Proof.
  unfold normalize_or_zero. rewrite norm_zero.
  destruct (Rlt_dec 0 0) as [H | _]; [lra | reflexivity].
Qed.

Lemma isclose0_zero_vector : isclose0 (sum_abs (0, 0, 0)) = true.
Proof.
  unfold isclose0, sum_abs. rewrite Rabs_R0.
  replace (0 + 0 + 0) with 0 by ring. rewrite Rabs_R0.
  destruct (Rle_dec 0 (1 / 100000000)) as [_ | H]; [reflexivity | lra].
Qed.

Lemma matvec_identity (v : vec3) : matvec identity v = v.
Proof.
  destruct v as [[v1 v2] v3]. unfold matvec, identity, dot.
  f_equal; [f_equal |]; ring.
Qed.

Lemma matmul_identity : matmul identity identity = identity.
Proof.
  unfold matmul, identity, transpose, matvec, dot.
  repeat (f_equal; try ring).
Qed.

(** A vector makes the angle 0 with itself, also when its norm is 0. *)
Lemma get_angle_cartesian_vec_self (a : vec3) : get_angle_cartesian_vec a a = 0.
Proof.
  unfold get_angle_cartesian_vec.
  destruct (Req_dec_T (norm a * norm a) 0) as [_ | Hne]; [reflexivity |].
  assert (Hsq : norm a * norm a = dot a a)
    by (unfold norm; apply sqrt_sqrt, dot_self_nonneg).
  rewrite Hsq in *.
  replace (dot a a / dot a a) with 1 by (field; exact Hne).
  unfold clip. rewrite Rmax_left by lra. rewrite Rmin_left by lra.
  apply acos_1.
Qed.

Lemma axangle2mat_zero_angle (axis : vec3) : axangle2mat axis 0 = identity.
Proof.
  destruct axis as [[x y] z]. unfold axangle2mat, identity.
  rewrite cos_0, sin_0.
  repeat (f_equal; try ring).
Qed.

(** Rotating a pair onto itself is the identity, for every pair. *)
Lemma rotation_row_self (a b : vec3) : rotation_row a b a b = identity.
Proof.
  unfold rotation_row. cbv zeta.
  rewrite (cross_self (cross a b)), normalize_or_zero_zero, isclose0_zero_vector.
  cbn [negb]. cbv iota.
  rewrite !matvec_identity, !get_angle_cartesian_vec_self.
  replace (1 / 2 * (0 + 0)) with 0 by field.
  replace (- 0) with 0 by ring.
  match goal with
  | |- context [if ?c then 0 else 0] =>
      replace (if c then 0 else 0) with 0 by (destruct c; reflexivity)
  end.
  rewrite axangle2mat_zero_angle. apply matmul_identity.
Qed.

End GeometryFacts.

(** C8 (as amended).  For linearly independent [a] and [b] and a
    positive number [n] of target rows that all equal the reference
    pair, the call returns and every returned matrix is the identity. *)
Theorem get_rotation_matrix_between_vectors_identity
  (a b : Geometry.vec3) (n : nat)
  (Hindependent : Geometry.cross a b <> (0%R, 0%R, 0%R))
  (Hrows : (0 < n)%nat) :
  Geometry.get_rotation_matrix_between_vectors a b (repeat a n) (repeat b n)
  = Ok (repeat Geometry.identity n).
Proof.
  unfold Geometry.get_rotation_matrix_between_vectors.
  rewrite !repeat_length, Nat.eqb_refl. cbn [negb].
  destruct n as [| n]; [lia |].
  change (repeat a (S n)) with (a :: repeat a n) at 1. cbv iota.
  f_equal. clear Hrows.
  generalize (S n). intros m.
  induction m as [| m IH]; simpl; [reflexivity |].
  rewrite rotation_row_self, IH. reflexivity.
Qed.

(** The pair of the first two axes, two target rows. *)
Lemma get_rotation_matrix_between_vectors_identity_witness :
  Geometry.cross (1, 0, 0)%R (0, 1, 0)%R <> (0%R, 0%R, 0%R) /\
  (0 < 2)%nat /\
  Geometry.get_rotation_matrix_between_vectors (1, 0, 0)%R (0, 1, 0)%R
    [(1, 0, 0)%R; (1, 0, 0)%R] [(0, 1, 0)%R; (0, 1, 0)%R]
  = Ok [Geometry.identity; Geometry.identity].
Proof.
  assert (H : Geometry.cross (1, 0, 0)%R (0, 1, 0)%R <> (0%R, 0%R, 0%R)).
  { unfold Geometry.cross. intros Heq. injection Heq as _ _ H3. lra. }
  assert (Hn : (0 < 2)%nat) by lia.
  split; [exact H |]. split; [exact Hn |].
  exact (get_rotation_matrix_between_vectors_identity
           (1, 0, 0)%R (0, 1, 0)%R 2 H Hn).
Defined.

(** With no target row the identity case has nothing to return: the call
    raises, for the independent pair of the first two axes as for any
    other pair. *)
Lemma get_rotation_matrix_between_vectors_no_rows_counterexample :
  Geometry.cross (1, 0, 0)%R (0, 1, 0)%R <> (0%R, 0%R, 0%R) /\
  Geometry.get_rotation_matrix_between_vectors (1, 0, 0)%R (0, 1, 0)%R
    (repeat (1, 0, 0)%R 0) (repeat (0, 1, 0)%R 0) = Raise ValueError /\
  Geometry.get_rotation_matrix_between_vectors (1, 0, 0)%R (0, 1, 0)%R
    (repeat (1, 0, 0)%R 0) (repeat (0, 1, 0)%R 0)
  <> Ok (repeat Geometry.identity 0).
Proof.
  split.
  { unfold Geometry.cross. intros Heq. injection Heq as _ _ H3. lra. }
  split; [reflexivity |].
  intros H. discriminate H.
Qed.

Section PolarFacts.
Import Geometry.
Local Open Scope R_scope.

Lemma hypot_factor (x y : R) :
  x <> 0 -> sqrt (x * x + y * y) = Rabs x * sqrt (1 + (y / x)²).
Proof.
  intros Hx.
  replace (x * x + y * y) with (x² * (1 + (y / x)²))
    by (unfold Rsqr; field; exact Hx).
  rewrite sqrt_mult.
  - rewrite sqrt_Rsqr_abs. reflexivity.
  - apply Rle_0_sqr.
  - pose proof (Rle_0_sqr (y / x)). lra.
Qed.

Lemma sqrt_one_plus_sqr_pos (t : R) : 0 < sqrt (1 + t²).
Proof. apply sqrt_lt_R0. pose proof (Rle_0_sqr t). lra. Qed.

Lemma polar_cos (x y : R) :
  sqrt (x * x + y * y) * cos (arctan2 y x) = x.
Proof.
  unfold arctan2.
  destruct (Rlt_dec 0 x) as [Hpos | Hnpos].
  - rewrite hypot_factor by lra. rewrite Rabs_right by lra.
    rewrite cos_atan.
    pose proof (sqrt_one_plus_sqr_pos (y / x)). field. lra.
  - destruct (Rlt_dec x 0) as [Hneg | Hnneg].
    + rewrite hypot_factor by lra. rewrite Rabs_left by lra.
      pose proof (sqrt_one_plus_sqr_pos (y / x)) as Hs.
      destruct (Rle_dec 0 y) as [_ | _].
      * rewrite neg_cos, cos_atan. field. lra.
      * rewrite cos_minus, cos_PI, sin_PI, cos_atan. field. lra.
    + assert (x = 0) by lra. subst x.
      destruct (Rlt_dec 0 y) as [_ | Hy']; [rewrite cos_PI2; ring |].
      destruct (Rlt_dec y 0) as [_ | Hy]; [rewrite cos_neg, cos_PI2; ring |].
      assert (y = 0) by lra. subst y.
      replace (0 * 0 + 0 * 0) with 0 by ring. rewrite sqrt_0. ring.
Qed.

Lemma polar_sin (x y : R) :
  sqrt (x * x + y * y) * sin (arctan2 y x) = y.
Proof.
  unfold arctan2.
  destruct (Rlt_dec 0 x) as [Hpos | Hnpos].
  - rewrite hypot_factor by lra. rewrite Rabs_right by lra.
    rewrite sin_atan.
    pose proof (sqrt_one_plus_sqr_pos (y / x)). field. lra.
  - destruct (Rlt_dec x 0) as [Hneg | Hnneg].
    + rewrite hypot_factor by lra. rewrite Rabs_left by lra.
      pose proof (sqrt_one_plus_sqr_pos (y / x)) as Hs.
      destruct (Rle_dec 0 y) as [_ | _].
      * rewrite neg_sin, sin_atan. field. lra.
      * rewrite sin_minus, cos_PI, sin_PI, sin_atan. field. lra.
    + assert (x = 0) by lra. subst x.
      replace (0 * 0 + y * y) with (y²) by (unfold Rsqr; ring).
      rewrite sqrt_Rsqr_abs.
      destruct (Rlt_dec 0 y) as [Hy | Hny].
      * rewrite sin_PI2, Rabs_right by lra. ring.
      * destruct (Rlt_dec y 0) as [Hy | Hy].
        -- rewrite sin_neg, sin_PI2, Rabs_left by lra. ring.
        -- assert (y = 0) by lra. subst y. rewrite Rabs_R0. ring.
Qed.

End PolarFacts.

(** C9.  On rows that are not the zero vector, converting to polar
    coordinates and back returns the x and y columns unchanged (exactly,
    over the reals; the zero vector would pass too). *)
Theorem polar_to_cartesian_vectors_to_polar (v : list Geometry.vrow)
  (Hnonzero :
     Forall (fun r => (Geometry.col0 r, Geometry.col1 r) <> (0%R, 0%R)) v) :
  Geometry.polar_to_cartesian (Geometry.vectors_to_polar v)
  = map (fun r => (Geometry.col0 r, Geometry.col1 r)) v.
Proof.
  unfold Geometry.polar_to_cartesian, Geometry.vectors_to_polar.
  rewrite map_map. apply map_ext. intros r. simpl.
  rewrite polar_cos, polar_sin. reflexivity.
Qed.

(** Two vectors, one in the left half-plane. *)
Lemma polar_to_cartesian_vectors_to_polar_witness :
  let v := [Geometry.mk_vrow 3 4 []; Geometry.mk_vrow (-1) 2 []] in
  Forall (fun r => (Geometry.col0 r, Geometry.col1 r) <> (0%R, 0%R)) v /\
  Geometry.polar_to_cartesian (Geometry.vectors_to_polar v)
  = [(3%R, 4%R); ((-1)%R, 2%R)].
Proof.
  intros v.
  assert (H : Forall (fun r => (Geometry.col0 r, Geometry.col1 r) <> (0%R, 0%R)) v).
  { repeat constructor; simpl; intros Heq; injection Heq as H1 H2; lra. }
  split; [exact H |].
  exact (polar_to_cartesian_vectors_to_polar v H).
Defined.

(** ** More of [vectors.py] *)

Section AngleFacts.
Import Geometry.
Local Open Scope R_scope.

Lemma clip_as_max_min (x : R) : clip x = Rmax (-1) (Rmin 1 x).
Proof.
  unfold clip, Rmax, Rmin.
  repeat (destruct (Rle_dec _ _)); lra.
Qed.

Lemma get_angle_cartesian_vec_scalar (a b : vec3) :
  get_angle_cartesian_vec a b = Vectors.get_angle_cartesian a b.
Proof.
  unfold get_angle_cartesian_vec, Vectors.get_angle_cartesian.
  destruct (Req_dec_T (norm a * norm b) 0); [reflexivity |].
  rewrite clip_as_max_min. reflexivity.
Qed.

Lemma norm_nonneg (a : vec3) : 0 <= norm a.
Proof. unfold norm. apply sqrt_pos. Qed.

Lemma norm_sqr (a : vec3) : norm a * norm a = dot a a.
Proof. unfold norm. apply sqrt_sqrt, dot_self_nonneg. Qed.

Lemma dot_scale (k : R) (a : vec3) :
  dot (scale k a) (scale k a) = k² * dot a a.
Proof. destruct a as [[a1 a2] a3]. unfold dot, scale, Rsqr. ring. Qed.

Lemma norm_scale (k : R) (a : vec3) : norm (scale k a) = Rabs k * norm a.
Proof.
  unfold norm. rewrite dot_scale.
  rewrite sqrt_mult; [| apply Rle_0_sqr | apply dot_self_nonneg].
  rewrite sqrt_Rsqr_abs. reflexivity.
Qed.

Lemma norm_pos_of_nonzero (a : vec3) : a <> (0, 0, 0) -> 0 < norm a.
Proof.
  intros Hne. destruct a as [[a1 a2] a3].
  unfold norm. apply sqrt_lt_R0. unfold dot.
  destruct (Req_dec a1 0) as [-> | H1];
    [destruct (Req_dec a2 0) as [-> | H2];
     [destruct (Req_dec a3 0) as [-> | H3]; [congruence |] |] |]; nra.
Qed.

End AngleFacts.

(** X1.  The angle of [get_angle_cartesian] always lies in [[0, pi]], and
    is 0 whenever one of the two vectors has norm 0. *)
Theorem get_angle_cartesian_bounds (a b : Geometry.vec3) :
  (0 <= Vectors.get_angle_cartesian a b <= PI)%R /\
  (Geometry.norm a = 0%R \/ Geometry.norm b = 0%R ->
   Vectors.get_angle_cartesian a b = 0%R).
Proof.
  unfold Vectors.get_angle_cartesian.
  destruct (Req_dec_T (Geometry.norm a * Geometry.norm b) 0) as [Hz | Hnz].
  - split; [| reflexivity]. pose proof PI_RGT_0. lra.
  - split; [apply acos_bound |].
    intros [H | H]; rewrite H in Hnz; exfalso; apply Hnz; ring.
Qed.

(** X2.  [get_angle_cartesian_vec] on arrays of equal length returns, row
    by row, the angle [get_angle_cartesian] gives for that pair of rows;
    on arrays of different length it raises [ValueError]. *)
Theorem get_angle_cartesian_vec_rows_agrees (a b : list Geometry.vec3) :
  (length a = length b ->
   Vectors.get_angle_cartesian_vec_rows a b =
     Ok (map (fun p => Vectors.get_angle_cartesian (fst p) (snd p))
             (combine a b))) /\
  (length a <> length b ->
   Vectors.get_angle_cartesian_vec_rows a b = Raise ValueError).
Proof.
  unfold Vectors.get_angle_cartesian_vec_rows. split; intros H.
  - rewrite H, Nat.eqb_refl. f_equal.
    apply map_ext. intros p. apply get_angle_cartesian_vec_scalar.
  - apply Nat.eqb_neq in H. rewrite H. reflexivity.
Qed.

(** X3.  A vector that is not zero makes the angle 0 with itself and the
    angle [pi] with its opposite. *)
Theorem get_angle_cartesian_self_and_opposite (a : Geometry.vec3)
  (Hnonzero : a <> (0%R, 0%R, 0%R)) :
  Vectors.get_angle_cartesian a a = 0%R /\
  Vectors.get_angle_cartesian a (Geometry.scale (-1) a) = PI.
Proof.
  pose proof (norm_pos_of_nonzero a Hnonzero) as Hpos.
  pose proof (norm_sqr a) as Hsq.
  split.
  - rewrite <- get_angle_cartesian_vec_scalar.
    apply get_angle_cartesian_vec_self.
  - unfold Vectors.get_angle_cartesian.
    rewrite norm_scale.
    replace (Rabs (-1)) with 1%R
      by (unfold Rabs; destruct (Rcase_abs (-1)); lra).
    rewrite Rmult_1_l.
    destruct (Req_dec_T (Geometry.norm a * Geometry.norm a) 0) as [Hz | Hnz];
      [nra |].
    replace (Geometry.dot a (Geometry.scale (-1) a))
      with (- Geometry.dot a a)%R
      by (destruct a as [[a1 a2] a3]; unfold Geometry.dot, Geometry.scale; ring).
    rewrite Hsq in *.
    replace (- Geometry.dot a a / Geometry.dot a a)%R with (-1)%R
      by (field; exact Hnz).
    rewrite Rmin_right by lra. rewrite Rmax_left by lra.
    replace (-1)%R with (- (1))%R by ring.
    rewrite acos_opp, acos_1. ring.
Qed.

Lemma get_angle_cartesian_self_and_opposite_witness :
  (1%R, 0%R, 0%R) <> (0%R, 0%R, 0%R) /\
  Vectors.get_angle_cartesian (1, 0, 0)%R
    (Geometry.scale (-1) (1, 0, 0)%R) = PI.
Proof.
  assert (H : (1%R, 0%R, 0%R) <> (0%R, 0%R, 0%R)).
  { intros Heq. injection Heq as H1. lra. }
  split; [exact H |].
  exact (proj2 (get_angle_cartesian_self_and_opposite (1, 0, 0)%R H)).
Defined.

(** X4.  [normalize_or_zero] turns a vector of non-zero norm into a unit
    vector, leaves a vector of norm 0 as it is, and applying it twice
    changes nothing more. *)
Theorem normalize_or_zero_unit_or_unchanged (v : Geometry.vec3) :
  (Geometry.norm v <> 0%R ->
   Geometry.norm (Geometry.normalize_or_zero v) = 1%R) /\
  (Geometry.norm v = 0%R -> Geometry.normalize_or_zero v = v) /\
  Geometry.normalize_or_zero (Geometry.normalize_or_zero v)
  = Geometry.normalize_or_zero v.
Proof.
  pose proof (norm_nonneg v) as Hge.
  assert (Hunit : (0 < Geometry.norm v)%R ->
                  Geometry.norm (Geometry.scale (/ Geometry.norm v) v) = 1%R).
  { intros Hpos. rewrite norm_scale.
    rewrite Rabs_right by (left; apply Rinv_0_lt_compat; exact Hpos).
    field. lra. }
  destruct (Rlt_dec 0 (Geometry.norm v)) as [Hpos | Hnpos].
  - assert (E : Geometry.normalize_or_zero v =
                Geometry.scale (/ Geometry.norm v) v).
    { unfold Geometry.normalize_or_zero.
      destruct (Rlt_dec 0 (Geometry.norm v)); [reflexivity | contradiction]. }
    rewrite E.
    split; [intros _; apply Hunit; exact Hpos |].
    split; [intros Hz; lra |].
    unfold Geometry.normalize_or_zero. rewrite (Hunit Hpos).
    destruct (Rlt_dec 0 1) as [_ | H]; [| lra].
    destruct (Geometry.scale (/ Geometry.norm v) v) as [[u1 u2] u3].
    unfold Geometry.scale. rewrite Rinv_1, !Rmult_1_l. reflexivity.
  - assert (E : Geometry.normalize_or_zero v = v).
    { unfold Geometry.normalize_or_zero.
      destruct (Rlt_dec 0 (Geometry.norm v)); [contradiction | reflexivity]. }
    rewrite E.
    split; [intros Hnz; lra |].
    split; [reflexivity | exact E].
Qed.

(** X5.  For a wavelength that is not zero, [detector_to_fourier] keeps
    the two detector coordinates of every row and adds a third one such
    that, for a row inside the Ewald sphere ([x^2 + y^2 <= 1/wavelength^2]),
    the point shifted by [1/wavelength] along z lies on the sphere of
    radius [1/|wavelength|]. *)
Theorem detector_to_fourier_on_ewald_sphere
  (k_xy : list (R * R)) (wavelength camera_length : R)
  (Hwavelength : wavelength <> 0%R) :
  exists k,
    Vectors.detector_to_fourier k_xy wavelength camera_length = Ok k /\
    map (fun q : Geometry.vec3 => fst q) k = k_xy /\
    Forall (fun q : Geometry.vec3 =>
      let '(x, y, z) := q in
      (x * x + y * y <= 1 / (wavelength * wavelength) ->
       x * x + y * y + (z + 1 / wavelength) * (z + 1 / wavelength)
       = 1 / (wavelength * wavelength))%R) k.
Proof.
  unfold Vectors.detector_to_fourier.
  destruct (Req_dec_T wavelength 0) as [Hz | _]; [contradiction |].
  eexists. split; [reflexivity |]. split.
  - rewrite map_map. rewrite <- (map_id k_xy) at 2.
    apply map_ext. intros [x y]. reflexivity.
  - apply Forall_map, Forall_forall. intros [x y] _ Hin.
    set (d := (1 / (wavelength * wavelength) - (x * x + y * y))%R) in *.
    assert (Hd : (0 <= d)%R) by (unfold d; lra).
    replace (sqrt d - 1 / wavelength + 1 / wavelength)%R with (sqrt d) by ring.
    rewrite (sqrt_sqrt d Hd). unfold d. ring.
Qed.

Lemma detector_to_fourier_on_ewald_sphere_witness :
  (2 <> 0)%R /\
  exists k,
    Vectors.detector_to_fourier [(0%R, 0%R)] 2 1 = Ok k /\
    map (fun q : Geometry.vec3 => fst q) k = [(0%R, 0%R)].
Proof.
  assert (H : (2 <> 0)%R) by lra.
  split; [exact H |].
  destruct (detector_to_fourier_on_ewald_sphere [(0%R, 0%R)] 2 1 H)
    as (k & Hk & Hxy & _).
  exists k. split; assumption.
Defined.

Section FilterFacts.
Import Geometry.
Local Open Scope R_scope.

Lemma combine_map_self {A B : Type} (f : A -> B) (l : list A) :
  combine l (map f l) = map (fun x => (x, f x)) l.
Proof. induction l as [| x l IH]; simpl; [| rewrite IH]; reflexivity. Qed.

End FilterFacts.

(** X6.  [filter_vectors_ragged] returns exactly the rows whose norm lies
    between the two magnitudes and is not zero: a row of norm 0 is never
    returned, whatever the minimum. *)
Theorem filter_vectors_ragged_keeps (z : list Geometry.vrow)
  (min_magnitude max_magnitude : R) (r : Geometry.vrow) :
  In r (Vectors.filter_vectors_ragged z min_magnitude max_magnitude) <->
  In r z /\
  (min_magnitude <= Vectors.norm01 r <= max_magnitude)%R /\
  Vectors.norm01 r <> 0%R.
Proof.
  unfold Vectors.filter_vectors_ragged.
  rewrite !map_map, combine_map_self.
  rewrite in_map_iff. split.
  - intros ([r' n] & Hfst & Hin). simpl in Hfst. subst r'.
    apply filter_In in Hin. destruct Hin as [Hin Hkeep].
    apply in_map_iff in Hin. destruct Hin as (r0 & Heq & Hr0).
    injection Heq as -> <-. simpl in Hkeep.
    split; [exact Hr0 |].
    destruct (Rlt_dec (Vectors.norm01 r) min_magnitude) as [Hlt | Hge].
    + destruct (Rlt_dec max_magnitude 0); destruct (Req_dec_T 0 0);
        try discriminate; congruence.
    + destruct (Rlt_dec max_magnitude (Vectors.norm01 r)) as [Hgt | Hle].
      * destruct (Req_dec_T 0 0); [discriminate | congruence].
      * destruct (Req_dec_T (Vectors.norm01 r) 0); [discriminate |].
        repeat split; lra.
  - intros (Hin & [Hmin Hmax] & Hnz).
    exists (r, Vectors.norm01 r). split; [reflexivity |].
    apply filter_In. split.
    + apply in_map_iff. exists r. split; [| exact Hin].
      destruct (Rlt_dec (Vectors.norm01 r) min_magnitude); [lra |].
      destruct (Rlt_dec max_magnitude (Vectors.norm01 r)); [lra |]. reflexivity.
    + simpl. destruct (Req_dec_T (Vectors.norm01 r) 0);
        [contradiction | reflexivity].
Qed.

(** X7.  [filter_vectors_edge_ragged] returns exactly the rows that lie
    within both thresholds and whose first coordinate is not zero, and it
    leaves the array it was given with every row beyond the x threshold
    overwritten by zeros. *)
Theorem filter_vectors_edge_ragged_keeps (z : list Geometry.vrow)
  (x_threshold y_threshold : R) :
  let '(z_after, kept) :=
    Vectors.filter_vectors_edge_ragged z x_threshold y_threshold in
  length z_after = length z /\
  (forall r, In r kept <->
     In r z /\ Geometry.col0 r <> 0%R /\
     (Rabs (Geometry.col0 r) <= x_threshold)%R /\
     (Rabs (Geometry.col1 r) <= y_threshold)%R) /\
  (forall r, In r z -> (x_threshold < Rabs (Geometry.col0 r))%R ->
             In (Vectors.zero_row r) z_after).
Proof.
  unfold Vectors.filter_vectors_edge_ragged.
  rewrite map_map.
  split; [apply length_map |]. split.
  - intros r. rewrite filter_In, in_map_iff. split.
    + intros [(r0 & Heq & Hr0) Hkeep].
      destruct (Rlt_dec x_threshold (Rabs (Geometry.col0 r0))) as [Hx | Hx].
      * assert (Hzero : Geometry.col0 r = 0%R).
        { rewrite <- Heq. simpl.
          destruct (Rlt_dec y_threshold (Rabs 0)); reflexivity. }
        rewrite Hzero in Hkeep.
        destruct (Req_dec_T 0 0); [discriminate | congruence].
      * destruct (Rlt_dec y_threshold (Rabs (Geometry.col1 r0))) as [Hy | Hy].
        -- rewrite <- Heq in Hkeep. simpl in Hkeep.
           destruct (Req_dec_T 0 0); [discriminate | congruence].
        -- subst r0.
           destruct (Req_dec_T (Geometry.col0 r) 0); [discriminate |].
           repeat split; try assumption; lra.
    + intros (Hin & Hnz & Hx & Hy). split.
      * exists r. split; [| exact Hin].
        destruct (Rlt_dec x_threshold (Rabs (Geometry.col0 r))); [lra |].
        destruct (Rlt_dec y_threshold (Rabs (Geometry.col1 r))); [lra |].
        reflexivity.
      * destruct (Req_dec_T (Geometry.col0 r) 0); [contradiction | reflexivity].
  - intros r Hin Hx. apply in_map_iff. exists r. split; [| exact Hin].
    destruct (Rlt_dec x_threshold (Rabs (Geometry.col0 r))); [| lra].
    simpl. destruct (Rlt_dec y_threshold (Rabs 0)); [| reflexivity].
    unfold Vectors.zero_row. simpl. rewrite map_map. reflexivity.
Qed.

(** X8.  On an array with at least two columns, [_reverse_pos] with the
    default [ind = 2] returns the first two columns swapped, so reversing
    the result again gives the first two columns back; any [ind] above 2
    raises [IndexError]. *)
Theorem reverse_pos_swaps_columns (ncols : nat) (peaks : list (list R))
  (Hcols : (2 <= ncols)%nat)
  (Hrows : Forall (fun row => length row = ncols) peaks) :
  Vectors._reverse_pos ncols peaks 2 =
    Ok (map (fun row => (Some (nth 1 row 0%R), Some (nth 0 row 0%R))) peaks) /\
  Vectors._reverse_pos 2
    (map (fun row => [nth 1 row 0%R; nth 0 row 0%R]) peaks) 2 =
    Ok (map (fun row => (Some (nth 0 row 0%R), Some (nth 1 row 0%R))) peaks) /\
  (forall ind, (3 <= ind)%nat ->
     Vectors._reverse_pos ncols peaks ind = Raise IndexError).
Proof.
  assert (Hswap : forall n (rows : list (list R)),
            (2 <= n)%nat -> Forall (fun row => length row = n) rows ->
            Vectors._reverse_pos n rows 2 =
            Ok (map (fun row => (Some (nth 1 row 0%R), Some (nth 0 row 0%R)))
                    rows)).
  { intros n rows Hn Hall. unfold Vectors._reverse_pos.
    destruct (Nat.ltb_spec n 2) as [H | _]; [lia |]. simpl orb. cbv iota.
    induction Hall as [| row rows Hrow _ IH]; [reflexivity |].
    destruct row as [| a [| b rest]]; simpl in Hrow; try lia.
    simpl. simpl in IH. rewrite IH. reflexivity. }
  split; [apply Hswap; assumption |]. split.
  - rewrite Hswap; [| lia |].
    + rewrite map_map. reflexivity.
    + apply Forall_map, Forall_forall. intros row _. reflexivity.
  - intros ind Hind. unfold Vectors._reverse_pos.
    destruct (Nat.ltb_spec 2 ind) as [_ | H]; [| lia].
    rewrite orb_true_r. reflexivity.
Qed.

Lemma reverse_pos_swaps_columns_witness :
  (2 <= 3)%nat /\
  Forall (fun row : list R => length row = 3%nat) [[1; 2; 3]; [4; 5; 6]]%R /\
  Vectors._reverse_pos 3 [[1; 2; 3]; [4; 5; 6]]%R 2 =
    Ok [(Some 2%R, Some 1%R); (Some 5%R, Some 4%R)].
Proof.
  assert (Hc : (2 <= 3)%nat) by lia.
  assert (Hr : Forall (fun row : list R => length row = 3%nat)
                 [[1; 2; 3]; [4; 5; 6]]%R) by (repeat constructor).
  split; [exact Hc |]. split; [exact Hr |].
  exact (proj1 (reverse_pos_swaps_columns 3 [[1; 2; 3]; [4; 5; 6]]%R Hc Hr)).
Defined.

(** X9.  [to_cart_three_angles] turns every row [(k, delta_phi, min_angle)]
    into three consecutive points at the angles [min_angle],
    [min_angle + delta_phi] and [min_angle + 2 delta_phi], each at
    distance [|k|] from the origin. *)
Theorem to_cart_three_angles_points (vectors : list Geometry.vec3) :
  Vectors.to_cart_three_angles vectors =
    flat_map (fun v : Geometry.vec3 =>
                let '(k, d, a) := v in
                [(k * cos a, k * sin a);
                 (k * cos (a + d), k * sin (a + d));
                 (k * cos (a + d * 2), k * sin (a + d * 2))]%R)
             vectors /\
  length (Vectors.to_cart_three_angles vectors) = (3 * length vectors)%nat /\
  (forall p, In p (Vectors.to_cart_three_angles vectors) ->
     exists v, In v vectors /\
       (fst p * fst p + snd p * snd p = fst (fst v) * fst (fst v))%R).
Proof.
  assert (Heq : Vectors.to_cart_three_angles vectors =
    flat_map (fun v : Geometry.vec3 =>
                let '(k, d, a) := v in
                [(k * cos a, k * sin a);
                 (k * cos (a + d), k * sin (a + d));
                 (k * cos (a + d * 2), k * sin (a + d * 2))]%R)
             vectors).
  { unfold Vectors.to_cart_three_angles.
    induction vectors as [| [[k d] a] vs IH]; [reflexivity |].
    simpl. simpl in IH. rewrite IH. reflexivity. }
  split; [exact Heq |]. rewrite Heq. clear Heq. split.
  - induction vectors as [| [[k d] a] vs IH]; simpl; [reflexivity |].
    rewrite IH. lia.
  - intros p Hin. apply in_flat_map in Hin.
    destruct Hin as ([[k d] a] & Hv & Hp).
    exists (k, d, a). split; [exact Hv |]. simpl.
    assert (Hcs : forall t, (k * cos t * (k * cos t) + k * sin t * (k * sin t)
                             = k * k)%R).
    { intros t. pose proof (sin2_cos2 t) as H. unfold Rsqr in H. nra. }
    destruct Hp as [<- | [<- | [<- | []]]]; simpl; apply Hcs.
Qed.

Section NearBasisFacts.
Local Open Scope R_scope.

Lemma argmin_key_spec {A : Type} (key : A -> R) (l : list A) :
  forall best,
    In (Vectors.argmin_key key best l) (best :: l) /\
    (forall x, In x (best :: l) ->
       key (Vectors.argmin_key key best l) <= key x).
Proof.
  induction l as [| y l IH]; intros best; simpl.
  - split; [now left |]. intros x [<- | []]. lra.
  - destruct (Rlt_dec (key y) (key best)) as [Hlt | Hge].
    + destruct (IH y) as [Hin Hle]. split.
      * right. exact Hin.
      * intros x [<- | Hx]; [| apply Hle; exact Hx].
        specialize (Hle y (or_introl eq_refl)). lra.
    + destruct (IH best) as [Hin Hle]. split.
      * destruct Hin as [H | H]; [now left | right; now right].
      * intros x [<- | [<- | Hx]].
        -- apply Hle. now left.
        -- specialize (Hle best (or_introl eq_refl)). lra.
        -- apply Hle. now right.
Qed.

End NearBasisFacts.

(** X10.  [filter_vectors_near_basis] returns one row per basis vector.
    A row that is not [nan] is one of the given vectors, no given vector
    is closer to that basis vector, and it lies within [distance] when a
    distance is given; a [nan] row means that there were no vectors or
    that every vector is farther than [distance]. *)
Theorem filter_vectors_near_basis_closest
  (vectors basis : list (R * R)) (distance : option R) :
  let out := Vectors.filter_vectors_near_basis vectors basis distance in
  length out = length basis /\
  (forall j b v,
     nth_error basis j = Some b -> nth_error out j = Some (Some v) ->
     In v vectors /\
     (forall u, In u vectors -> (Vectors.dist2 v b <= Vectors.dist2 u b)%R) /\
     (forall d, distance = Some d -> (Vectors.dist2 v b <= d)%R)) /\
  (forall j b,
     nth_error basis j = Some b -> nth_error out j = Some None ->
     vectors = [] \/
     exists d, distance = Some d /\
       forall u, In u vectors -> (d < Vectors.dist2 u b)%R).
Proof.
  unfold Vectors.filter_vectors_near_basis.
  destruct vectors as [| v0 rest].
  - cbv zeta. split; [apply length_map |]. split.
    + intros j b v Hb Hout. rewrite nth_error_map, Hb in Hout. discriminate.
    + intros. now left.
  - cbv zeta. split; [apply length_map |].
    split; intros j b; [intros v |]; intros Hb Hout;
      rewrite nth_error_map, Hb in Hout; simpl in Hout;
      destruct (argmin_key_spec (fun v => Vectors.dist2 v b) rest v0)
        as [Hin Hle].
    + destruct distance as [d |].
      * destruct (Rlt_dec d _) as [Hfar | Hnear]; [discriminate |].
        injection Hout as <-.
        split; [exact Hin |]. split; [exact Hle |].
        intros d' [= <-]. lra.
      * injection Hout as <-.
        split; [exact Hin |]. split; [exact Hle |]. intros d' Hd. discriminate.
    + right. destruct distance as [d |]; [| discriminate].
      destruct (Rlt_dec d _) as [Hfar | Hnear]; [| discriminate].
      exists d. split; [reflexivity |].
      intros u Hu. specialize (Hle u Hu). lra.
Qed.

(** ** Ranking of solutions *)

Section RankingFacts.
Context {A : Type} (key : A -> Q).

Lemma sorted_nth_le (l : list A) :
  StronglySorted (key_le key) l ->
  forall i j a b,
    (i <= j)%nat -> nth_error l i = Some a -> nth_error l j = Some b ->
    key a <= key b.
Proof.
  induction 1 as [| x l Hs IH Hall]; intros i j a b Hij Ha Hb.
  - destruct i; discriminate.
  - destruct i as [| i], j as [| j]; simpl in Ha, Hb; try lia.
    + injection Ha as <-. injection Hb as <-. apply Qle_refl.
    + injection Ha as <-. apply nth_error_In in Hb.
      rewrite Forall_forall in Hall. apply (Hall b Hb).
    + apply (IH i j); [lia | assumption | assumption].
Qed.

Lemma first_largest_bound (l : list A) (x : A) :
  Ranking.first_largest key l x -> Forall (fun y => key y <= key x) l.
Proof.
  intros (pre & post & -> & Hpre & Hpost).
  apply Forall_app. split.
  - eapply Forall_impl; [| exact Hpre]. simpl. intros; lra.
  - constructor; [apply Qle_refl | exact Hpost].
Qed.

Lemma first_smallest_bound (l : list A) (x : A) :
  Ranking.first_smallest key l x -> Forall (fun y => key x <= key y) l.
Proof.
  intros (pre & post & -> & Hpre & Hpost).
  apply Forall_app. split.
  - eapply Forall_impl; [| exact Hpre]. simpl. intros; lra.
  - constructor; [apply Qle_refl | exact Hpost].
Qed.

Lemma Qle_bool_false (a b : Q) : Qle_bool a b = false -> b < a.
Proof.
  intros H. destruct (Qlt_le_dec b a) as [Hlt | Hle]; [exact Hlt |].
  apply Qle_bool_iff in Hle. congruence.
Qed.

Lemma sort_desc_head (l : list A) :
  forall x rest, sort_desc key l = x :: rest -> Ranking.first_largest key l x.
Proof.
  induction l as [| a l IH]; intros x rest Hs; [discriminate |].
  change (sort_desc key (a :: l)) with (insert_desc key a (sort_desc key l)) in Hs.
  destruct (sort_desc key l) as [| y s] eqn:E.
  - assert (l = []) as ->.
    { apply length_zero_iff_nil. rewrite <- (sort_desc_length key l), E.
      reflexivity. }
    simpl in Hs. injection Hs as <- <-.
    exists [], []. repeat split; constructor.
  - specialize (IH y s eq_refl). simpl in Hs.
    destruct (Qle_bool (key y) (key a)) eqn:Hya.
    + injection Hs as <- <-. apply Qle_bool_iff in Hya.
      exists [], l. split; [reflexivity |]. split; [constructor |].
      eapply Forall_impl; [| apply (first_largest_bound _ _ IH)].
      simpl. intros; lra.
    + injection Hs as <- <-. apply Qle_bool_false in Hya.
      destruct IH as (pre & post & -> & Hpre & Hpost).
      exists (a :: pre), post. split; [reflexivity |].
      split; [constructor; assumption | exact Hpost].
Qed.

Lemma sort_asc_head (l : list A) :
  forall x rest, sort_asc key l = x :: rest -> Ranking.first_smallest key l x.
Proof.
  induction l as [| a l IH]; intros x rest Hs; [discriminate |].
  change (sort_asc key (a :: l)) with (insert_asc key a (sort_asc key l)) in Hs.
  destruct (sort_asc key l) as [| y s] eqn:E.
  - assert (l = []) as ->.
    { apply length_zero_iff_nil. rewrite <- (sort_asc_length key l), E.
      reflexivity. }
    simpl in Hs. injection Hs as <- <-.
    exists [], []. repeat split; constructor.
  - specialize (IH y s eq_refl). simpl in Hs.
    destruct (Qle_bool (key a) (key y)) eqn:Hay.
    + injection Hs as <- <-. apply Qle_bool_iff in Hay.
      exists [], l. split; [reflexivity |]. split; [constructor |].
      eapply Forall_impl; [| apply (first_smallest_bound _ _ IH)].
      simpl. intros; lra.
    + injection Hs as <- <-. apply Qle_bool_false in Hay.
      destruct IH as (pre & post & -> & Hpre & Hpost).
      exists (a :: pre), post. split; [reflexivity |].
      split; [constructor; assumption | exact Hpost].
Qed.

End RankingFacts.

(** X11.  In template mode [get_nth_best_solution] ranks the rows by
    correlation: every rank below the number of rows returns a row of the
    array, a lower rank never has a smaller correlation than a higher
    one (so rank 0 has the largest), and a rank that is not below the
    number of rows raises [IndexError]. *)
Theorem get_nth_best_template_ranks (z : list Template.match_row) :
  (forall rank, (rank < length z)%nat ->
     exists row, Ranking.get_nth_best_template z rank = Ok row /\ In row z) /\
  (forall i j ri rj, (i <= j)%nat ->
     Ranking.get_nth_best_template z i = Ok ri ->
     Ranking.get_nth_best_template z j = Ok rj ->
     Template.score rj <= Template.score ri) /\
  (forall r0, Ranking.get_nth_best_template z 0 = Ok r0 ->
     Forall (fun r => Template.score r <= Template.score r0) z) /\
  (forall rank, (length z <= rank)%nat ->
     Ranking.get_nth_best_template z rank = Raise IndexError).
Proof.
  unfold Ranking.get_nth_best_template, getitem.
  pose proof (sort_asc_sorted Template.score z) as Hs.
  pose proof (sort_asc_perm Template.score z) as Hp.
  pose proof (sort_asc_length Template.score z) as Hl.
  assert (Hmono : forall i j ri rj, (i <= j)%nat ->
            nth_error (rev (sort_asc Template.score z)) i = Some ri ->
            nth_error (rev (sort_asc Template.score z)) j = Some rj ->
            Template.score rj <= Template.score ri).
  { intros i j ri rj Hij Hi Hj. rewrite nth_error_rev, Hl in Hi, Hj.
    destruct (Nat.ltb_spec i (length z)); [| discriminate].
    destruct (Nat.ltb_spec j (length z)); [| discriminate].
    apply (sorted_nth_le Template.score _ Hs (length z - S j) (length z - S i));
      [lia | assumption | assumption]. }
  split; [| split; [| split]].
  - intros rank Hr.
    assert (Hlt : (rank < length (rev (sort_asc Template.score z)))%nat)
      by (rewrite length_rev, Hl; exact Hr).
    apply nth_error_Some in Hlt.
    destruct (nth_error (rev (sort_asc Template.score z)) rank) as [row |] eqn:E;
      [| congruence].
    exists row. split; [reflexivity |].
    apply nth_error_In in E. apply in_rev in E.
    eapply Permutation_in; [apply Permutation_sym, Hp | exact E].
  - intros i j ri rj Hij Hi Hj.
    destruct (nth_error _ i) as [a |] eqn:Ei; [| discriminate].
    destruct (nth_error _ j) as [b |] eqn:Ej; [| discriminate].
    injection Hi as <-. injection Hj as <-.
    exact (Hmono i j a b Hij Ei Ej).
  - intros r0 H0.
    destruct (nth_error _ 0) as [a |] eqn:E0; [| discriminate].
    injection H0 as <-.
    apply Forall_forall. intros r Hr.
    apply (Permutation_in _ Hp) in Hr. apply in_rev in Hr.
    apply In_nth_error in Hr. destruct Hr as (j & Hj).
    apply (Hmono 0%nat j a r); [lia | exact E0 | exact Hj].
  - intros rank Hr.
    assert (E : nth_error (rev (sort_asc Template.score z)) rank = None)
      by (apply nth_error_None; rewrite length_rev, Hl; exact Hr).
    rewrite E. reflexivity.
Qed.

Lemma get_nth_best_vector_cons (a : Vector.OrientationResult)
  (z : list Vector.OrientationResult) (rank : nat)
  (key : Vector.OrientationResult -> Q) (descending : bool) :
  Ranking.get_nth_best_vector (a :: z) rank key descending =
  getitem (if descending then sort_desc key (a :: z)
           else sort_asc key (a :: z)) rank.
Proof. reflexivity. Qed.

(** X12.  In vector mode, rank 0 of [get_nth_best_solution] is the first
    result, in the order of the array, with the largest key when
    [descending] and with the smallest key otherwise (ties keep the
    array's order); an empty array, or a rank that is not below the
    number of results, raises [IndexError]. *)
Theorem get_nth_best_vector_first_extreme
  (z : list Vector.OrientationResult) (key : Vector.OrientationResult -> Q) :
  (forall best, Ranking.get_nth_best_vector z 0 key true = Ok best ->
     Ranking.first_largest key z best) /\
  (forall best, Ranking.get_nth_best_vector z 0 key false = Ok best ->
     Ranking.first_smallest key z best) /\
  (z <> [] -> forall descending,
     Py.returns (Ranking.get_nth_best_vector z 0 key descending)) /\
  (forall rank descending, (length z <= rank)%nat ->
     Ranking.get_nth_best_vector z rank key descending = Raise IndexError).
Proof.
  split; [| split; [| split]].
  - intros best. destruct z as [| a z']; [intros H; discriminate H |].
    rewrite get_nth_best_vector_cons. unfold getitem.
    destruct (sort_desc key (a :: z')) as [| x rest] eqn:E;
      [intros H; discriminate H |].
    intros [= <-]. exact (sort_desc_head key _ _ _ E).
  - intros best. destruct z as [| a z']; [intros H; discriminate H |].
    rewrite get_nth_best_vector_cons. unfold getitem.
    destruct (sort_asc key (a :: z')) as [| x rest] eqn:E;
      [intros H; discriminate H |].
    intros [= <-]. exact (sort_asc_head key _ _ _ E).
  - intros Hne descending. destruct z as [| a z']; [congruence |].
    rewrite get_nth_best_vector_cons. unfold getitem.
    destruct descending.
    + destruct (sort_desc key (a :: z')) as [| x rest] eqn:E.
      * apply (f_equal (@length _)) in E. rewrite sort_desc_length in E.
        discriminate.
      * eexists; reflexivity.
    + destruct (sort_asc key (a :: z')) as [| x rest] eqn:E.
      * apply (f_equal (@length _)) in E. rewrite sort_asc_length in E.
        discriminate.
      * eexists; reflexivity.
  - intros rank descending Hr. destruct z as [| a z']; [reflexivity |].
    rewrite get_nth_best_vector_cons. unfold getitem.
    assert (E : nth_error (if descending then sort_desc key (a :: z')
                           else sort_asc key (a :: z')) rank = None).
    { apply nth_error_None.
      destruct descending; [rewrite sort_desc_length | rewrite sort_asc_length];
        exact Hr. }
    rewrite E. reflexivity.
Qed.

(** ** Ranges of the reliabilities *)

Lemma reliability_range (a b : Q) :
  0 <= a -> a <= b -> 0 < b ->
  0 <= 100 * (1 - a / b) /\ 100 * (1 - a / b) <= 100.
Proof.
  intros Ha Hab Hb.
  assert (H0 : 0 <= a / b) by (apply Qle_shift_div_l; lra).
  assert (H1 : a / b <= 1) by (apply Qle_shift_div_r; lra).
  split; lra.
Qed.

Lemma truediv_ok (a b q : Q) :
  truediv a b = Ok q -> q = a / b /\ ~ b == 0.
Proof.
  unfold truediv. destruct (Qeq_bool b 0) eqn:E; [discriminate |].
  intros [= <-]. split; [reflexivity |].
  intros H. apply Qeq_bool_iff in H. congruence.
Qed.

Lemma or_one_range (a s : Q) :
  0 <= a -> a <= s ->
  0 <= 100 * (1 - a / Vector.or_one s) /\
  100 * (1 - a / Vector.or_one s) <= 100.
Proof.
  intros Ha Has. unfold Vector.or_one.
  destruct (Qeq_bool s 0) eqn:E.
  - apply Qeq_bool_iff in E. apply reliability_range; lra.
  - assert (~ s == 0) by (intros H; apply Qeq_bool_iff in H; congruence).
    apply reliability_range; lra.
Qed.

Lemma getitem_sort_asc_in {A : Type} (key : A -> Q) (l : list A) (i : nat) (x : A) :
  getitem (sort_asc key l) i = Ok x -> In x l.
Proof.
  unfold getitem.
  destruct (nth_error (sort_asc key l) i) as [y |] eqn:E; [| discriminate].
  intros [= <-]. apply nth_error_In in E.
  eapply Permutation_in; [apply Permutation_sym, sort_asc_perm | exact E].
Qed.

Lemma filter_length_bound {A : Type} (f : A -> bool) (l : list A) :
  (length (filter f l) <= length l)%nat.
Proof.
  induction l as [| x l IH]; simpl; [lia |].
  destruct (f x); simpl; lia.
Qed.

Lemma getitem_sort_asc_returns {A : Type} (key : A -> Q) (l : list A) (i : nat) :
  (i < length l)%nat ->
  exists x, getitem (sort_asc key l) i = Ok x /\ In x l.
Proof.
  intros Hi. unfold getitem.
  destruct (nth_error (sort_asc key l) i) as [x |] eqn:E.
  - exists x. split; [reflexivity |].
    apply nth_error_In in E.
    eapply Permutation_in; [apply Permutation_sym, sort_asc_perm | exact E].
  - apply nth_error_None in E. rewrite sort_asc_length in E. lia.
Qed.

(** X13.  Let [best] be the first result of least total error.  When no
    total error is negative, no result of a phase other than [best]'s has
    a total error of zero, and the phase of [best] holds at least two
    results, [crystal_from_vector_matching] returns; the entry has the
    phase of [best], and its [orientation_reliability], and its
    [phase_reliability] when present, lie between 0 and 100. *)
Theorem crystal_from_vector_matching_reliability_range
  (euler_degrees : Vector.matrix -> Vector.vec)
  (z : list Vector.OrientationResult) (best : Vector.OrientationResult)
  (rest : list Vector.OrientationResult)
  (Hsorted : sort_asc Vector.total_error z = best :: rest)
  (Hnonneg : Forall (fun m => 0 <= Vector.total_error m) z)
  (Hothers : Forall (fun m =>
                       Vector.phase_index m <> Vector.phase_index best ->
                       ~ Vector.total_error m == 0) z)
  (Hsame : (2 <= length (filter (fun m => Nat.eqb (Vector.phase_index m)
                                            (Vector.phase_index best)) z))%nat) :
  exists r,
    Vector.crystal_from_vector_matching euler_degrees (Vector.Wrapped z) = Ok r /\
    Vector.vc_phase r = Vector.phase_index best /\
    (0 <= Vector.vm_orientation_reliability (Vector.vc_metrics r) /\
     Vector.vm_orientation_reliability (Vector.vc_metrics r) <= 100) /\
    (forall pr, Vector.vm_phase_reliability (Vector.vc_metrics r) = Some pr ->
       0 <= pr /\ pr <= 100).
Proof.
  rewrite Forall_forall in Hnonneg. rewrite Forall_forall in Hothers.
  pose proof (sort_asc_head_least _ _ _ _ Hsorted) as Hleast.
  rewrite Forall_forall in Hleast.
  assert (Hbest_in : In best z).
  { eapply Permutation_in; [apply Permutation_sym, sort_asc_perm |].
    rewrite Hsorted. now left. }
  pose proof (Hnonneg _ Hbest_in) as Hbest0.
  assert (Hz : exists y l', z = y :: l').
  { destruct z as [| y l']; [discriminate | eauto]. }
  destruct Hz as (y & l' & Hz).
  assert (Hbest : Vector.get_nth_best_solution z 0 = Ok best).
  { unfold Vector.get_nth_best_solution. rewrite Hsorted, Hz. reflexivity. }
  unfold Vector.crystal_from_vector_matching.
  simpl Vector.unwrap. cbn [Py.bind]. rewrite Hbest. cbn [Py.bind].
  set (sames := filter (fun m => Nat.eqb (Vector.phase_index m)
                                   (Vector.phase_index best)) z) in *.
  set (others := filter (fun m => negb (Nat.eqb (Vector.phase_index m)
                                          (Vector.phase_index best))) z).
  assert (Hor : forall second, In second z ->
            exists q,
              truediv (Vector.total_error best)
                (Vector.or_one (Vector.total_error second)) = Ok q /\
              0 <= 100 * (1 - q) /\ 100 * (1 - q) <= 100).
  { intros second Hin. eexists. split.
    - apply truediv_nonzero, or_one_nonzero.
    - apply or_one_range; [exact Hbest0 | apply Hleast, Hin]. }
  destruct others as [| o os] eqn:Hothers_eq.
  - assert (Hlen : (1 < length z)%nat).
    { pose proof (filter_length_bound
                    (fun m => Nat.eqb (Vector.phase_index m)
                                (Vector.phase_index best)) z) as Hb.
      fold sames in Hb. lia. }
    destruct (getitem_sort_asc_returns Vector.total_error z 1 Hlen)
      as (second & Hsecond & Hsecond_in).
    assert (Hget : Vector.get_nth_best_solution z 1 = Ok second).
    { unfold Vector.get_nth_best_solution. rewrite Hz at 1. cbn [getitem nth_error Py.bind].
      exact Hsecond. }
    rewrite Hget. cbn [Py.bind].
    destruct (Hor second Hsecond_in) as (q & Hq & Hrange).
    rewrite Hq. cbn [Py.bind].
    eexists. split; [reflexivity |]. simpl.
    split; [reflexivity |]. split; [exact Hrange |].
    intros pr Hpr. discriminate Hpr.
  - assert (Hpos : (0 < length (o :: os))%nat) by (simpl; lia).
    destruct (getitem_sort_asc_returns Vector.total_error (o :: os) 0 Hpos)
      as (sp & Hsp & Hsp_in).
    rewrite Hsp. cbn [Py.bind].
    assert (Hsp_z : In sp z /\
                    Vector.phase_index sp <> Vector.phase_index best).
    { rewrite <- Hothers_eq in Hsp_in. unfold others in Hsp_in.
      apply filter_In in Hsp_in. destruct Hsp_in as [Hin Hne].
      split; [exact Hin |].
      apply negb_true_iff, Nat.eqb_neq in Hne. exact Hne. }
    destruct Hsp_z as [Hsp_z Hsp_phase].
    pose proof (Hothers _ Hsp_z Hsp_phase) as Hsp_nz.
    rewrite (truediv_nonzero _ _ Hsp_nz). cbn [Py.bind].
    assert (Hlen : (1 < length sames)%nat) by lia.
    destruct (getitem_sort_asc_returns Vector.total_error sames 1 Hlen)
      as (second & Hsecond & Hsecond_in).
    rewrite Hsecond. cbn [Py.bind].
    assert (Hsecond_z : In second z).
    { unfold sames in Hsecond_in. apply filter_In in Hsecond_in. tauto. }
    destruct (Hor second Hsecond_z) as (q & Hq & Hrange).
    rewrite Hq. cbn [Py.bind].
    eexists. split; [reflexivity |]. simpl.
    split; [reflexivity |]. split; [exact Hrange |].
    intros pr [= <-].
    pose proof (Hnonneg _ Hsp_z) as Hsp0.
    pose proof (Hleast _ Hsp_z) as Hle.
    apply reliability_range; [exact Hbest0 | exact Hle | lra].
Qed.

(** Errors 1/4 and 1/2 in phase 0 and 1 in phase 1. *)
Lemma crystal_from_vector_matching_reliability_range_witness :
  let a := Vector.mk_result 0 Vector.identity3 1 [] (1 # 4) 1 0 0 in
  let b := Vector.mk_result 0 Vector.identity3 (1 # 2) [] (1 # 2) 1 0 0 in
  let c := Vector.mk_result 1 Vector.identity3 (1 # 2) [] 1 1 0 0 in
  sort_asc Vector.total_error [b; a; c] = [a; b; c] /\
  Forall (fun m => 0 <= Vector.total_error m) [b; a; c] /\
  Forall (fun m => Vector.phase_index m <> Vector.phase_index a ->
                   ~ Vector.total_error m == 0) [b; a; c] /\
  (2 <= length (filter (fun m => Nat.eqb (Vector.phase_index m)
                                   (Vector.phase_index a)) [b; a; c]))%nat /\
  exists r,
    Vector.crystal_from_vector_matching (fun _ => (0, 0, 0))
      (Vector.Wrapped [b; a; c]) = Ok r /\
    Vector.vc_phase r = Vector.phase_index a /\
    (0 <= Vector.vm_orientation_reliability (Vector.vc_metrics r) /\
     Vector.vm_orientation_reliability (Vector.vc_metrics r) <= 100) /\
    (forall pr, Vector.vm_phase_reliability (Vector.vc_metrics r) = Some pr ->
       0 <= pr /\ pr <= 100).
Proof.
  intros a b c.
  assert (H1 : sort_asc Vector.total_error [b; a; c] = [a; b; c]) by reflexivity.
  assert (H2 : Forall (fun m => 0 <= Vector.total_error m) [b; a; c]).
  { repeat constructor; simpl; lra. }
  assert (H3 : Forall (fun m => Vector.phase_index m <> Vector.phase_index a ->
                               ~ Vector.total_error m == 0) [b; a; c]).
  { repeat constructor; simpl; intros _ H; lra. }
  assert (H4 : (2 <= length (filter (fun m => Nat.eqb (Vector.phase_index m)
                                   (Vector.phase_index a)) [b; a; c]))%nat).
  { simpl. lia. }
  split; [exact H1 |]. split; [exact H2 |]. split; [exact H3 |].
  split; [exact H4 |].
  exact (crystal_from_vector_matching_reliability_range
           (fun _ => (0, 0, 0)) [b; a; c] a [b; c] H1 H2 H3 H4).
Defined.

Lemma partition_second_last_in (a : list Q) (s : Q) :
  Np.partition_second_last a = Ok s -> In s a.
Proof.
  unfold Np.partition_second_last.
  destruct (length a <? 2)%nat; [discriminate |].
  apply getitem_sort_asc_in.
Qed.

Lemma max_in (a : list Q) (m : Q) : Np.max a = Ok m -> In m a.
Proof.
  intros H. destruct a as [| x l]; [discriminate |].
  destruct (max_spec (x :: l)) as (m' & Hm & Hin & _); [discriminate |].
  rewrite H in Hm. injection Hm as <-. exact Hin.
Qed.

(** X14.  When no correlation is negative and, in the single-phase case,
    the second row does not score above the first (the rows are sorted),
    every crystal map entry that [crystal_from_template_matching] returns
    has its [orientation_reliability], and its [phase_reliability] when
    present, between 0 and 100. *)
Theorem crystal_from_template_matching_reliability_range
  (z : list Template.match_row) (c : Template.crystal)
  (Hnonneg : Forall (fun r => 0 <= Template.score r) z)
  (Hsorted : forall r0 r1 rest,
     Template.single_phase z -> z = r0 :: r1 :: rest ->
     Template.score r1 <= Template.score r0)
  (Hreturns : Template.crystal_from_template_matching z = Ok c) :
  (0 <= Template.orientation_reliability (Template.best_metrics c) /\
   Template.orientation_reliability (Template.best_metrics c) <= 100) /\
  (forall pr, Template.phase_reliability (Template.best_metrics c) = Some pr ->
     0 <= pr /\ pr <= 100).
Proof.
  rewrite Forall_forall in Hnonneg.
  unfold Template.crystal_from_template_matching in Hreturns.
  destruct (Nat.eqb (Np.unique_count (map Template.phase z)) 1) eqn:Hbranch.
  - apply Nat.eqb_eq in Hbranch.
    destruct z as [| r0 rest]; [discriminate |].
    cbn [Py.bind getitem nth_error] in Hreturns.
    destruct (Qltb 0 (Template.score r0)) eqn:Hpos.
    + apply Qltb_lt in Hpos.
      destruct rest as [| r1 rest']; [discriminate |].
      cbn [Py.bind getitem nth_error] in Hreturns.
      destruct (truediv _ _) as [q |] eqn:Hq; [| discriminate].
      cbn [Py.bind] in Hreturns. injection Hreturns as <-. simpl.
      apply truediv_ok in Hq. destruct Hq as [-> _].
      split; [| intros pr Hpr; discriminate].
      apply reliability_range; [| | exact Hpos].
      * apply Hnonneg. right. now left.
      * apply (Hsorted r0 r1 rest' Hbranch eq_refl).
    + cbn [Py.bind] in Hreturns. injection Hreturns as <-. simpl.
      split; [split; lra | intros pr Hpr; discriminate].
  - destruct (Np.argmax (map Template.score z)) as [i |] eqn:Hi;
      [| discriminate]. cbn [Py.bind] in Hreturns.
    destruct (argmax_spec _ _ Hi) as (m & Hnth & Hall & _).
    destruct (getitem z i) as [best |] eqn:Hbest; [| discriminate].
    cbn [Py.bind] in Hreturns.
    assert (Hbest_nth : nth_error z i = Some best).
    { unfold getitem in Hbest. destruct (nth_error z i); [| discriminate].
      now injection Hbest as <-. }
    rewrite nth_error_map, Hbest_nth in Hnth. simpl in Hnth.
    injection Hnth as <-.
    rewrite Forall_forall in Hall.
    destruct (Np.partition_second_last _) as [s |] eqn:Hs; [| discriminate].
    cbn [Py.bind] in Hreturns.
    destruct (Np.max _) as [p |] eqn:Hp; [| discriminate].
    cbn [Py.bind] in Hreturns.
    destruct (truediv s _) as [qo |] eqn:Hqo; [| discriminate].
    cbn [Py.bind] in Hreturns.
    destruct (truediv p _) as [qp |] eqn:Hqp; [| discriminate].
    cbn [Py.bind] in Hreturns. injection Hreturns as <-. simpl.
    apply truediv_ok in Hqo. destruct Hqo as [-> Hnz].
    apply truediv_ok in Hqp. destruct Hqp as [-> _].
    assert (Hbest0 : 0 <= Template.score best)
      by (apply Hnonneg; eapply nth_error_In; exact Hbest_nth).
    assert (Hscore : forall x rows,
              In x (map Template.score rows) ->
              (forall r, In r rows -> In r z) ->
              0 <= x /\ x <= Template.score best).
    { intros x rows Hx Hsub. apply in_map_iff in Hx.
      destruct Hx as (r & <- & Hr). split.
      - apply Hnonneg, Hsub, Hr.
      - apply Hall. apply in_map, Hsub, Hr. }
    apply partition_second_last_in in Hs. apply max_in in Hp.
    destruct (Hscore s _ Hs) as [Hs0 Hs1].
    { intros r Hr. apply filter_In in Hr. tauto. }
    destruct (Hscore p _ Hp) as [Hp0 Hp1].
    { intros r Hr. apply filter_In in Hr. tauto. }
    split; [apply reliability_range; lra |].
    intros pr [= <-]. apply reliability_range; lra.
Qed.

Lemma crystal_from_template_matching_reliability_range_witness :
  exists c,
    Template.crystal_from_template_matching
      [Template.mk_row 0 (1, 2, 3) 100; Template.mk_row 0 (4, 5, 6) 1;
       Template.mk_row 1 (7, 8, 9) 50] = Ok c /\
    0 <= Template.orientation_reliability (Template.best_metrics c) /\
    Template.orientation_reliability (Template.best_metrics c) <= 100.
Proof.
  eexists. split; [reflexivity |].
  refine (proj1 (crystal_from_template_matching_reliability_range
                   [Template.mk_row 0 (1, 2, 3) 100; Template.mk_row 0 (4, 5, 6) 1;
                    Template.mk_row 1 (7, 8, 9) 50] _ _ _ eq_refl)).
  - repeat constructor; simpl; lra.
  - intros r0 r1 rest Hsingle. vm_compute in Hsingle. discriminate.
Defined.

(** ** More of [match_vectors] *)

Lemma linspace_int_length (last n : nat) :
  length (Vector.linspace_int last n) = n.
Proof.
  destruct n as [| [| n]]; [reflexivity | reflexivity |].
  unfold Vector.linspace_int. rewrite length_map, length_seq. reflexivity.
Qed.

Lemma linspace_int_bound (last n : nat) :
  Forall (fun i => (i <= last)%nat) (Vector.linspace_int last n).
Proof.
  destruct n as [| [| n]]; [constructor | repeat constructor; lia |].
  unfold Vector.linspace_int. apply Forall_map, Forall_forall.
  intros k Hk. apply in_seq in Hk.
  apply Nat.Div0.div_le_upper_bound. nia.
Qed.

Lemma argsort_perm (keys : list Q) :
  Permutation (seq 0 (length keys)) (Vector.argsort keys).
Proof. unfold Vector.argsort. apply sort_asc_perm. Qed.

Lemma map_nth_seq_self {A : Type} (l : list A) (d : A) :
  map (fun k => nth k l d) (seq 0 (length l)) = l.
Proof.
  apply (nth_ext _ _ d d).
  - rewrite length_map, length_seq. reflexivity.
  - intros n Hn. rewrite length_map, length_seq in Hn.
    rewrite (nth_indep _ d (nth 0 l d))
      by (rewrite length_map, length_seq; exact Hn).
    rewrite (map_nth (fun k => nth k l d) (seq 0 (length l)) 0%nat n).
    rewrite seq_nth by exact Hn. reflexivity.
Qed.

(** X16.  On a non-empty array of peaks [_choose_peak_ids] returns
    exactly [n_peaks_to_index] indices, each a valid index of a peak.
    Asked for as many indices as there are peaks it returns every peak
    once; asked for more, it returns some peak more than once. *)
Theorem choose_peak_ids_valid (polar_angle : Vector.vec -> Q)
  (peaks : list Vector.vec) (n_peaks_to_index : nat)
  (Hnonempty : peaks <> []) :
  let ids := Vector._choose_peak_ids polar_angle peaks n_peaks_to_index in
  length ids = n_peaks_to_index /\
  Forall (fun i => (i < length peaks)%nat) ids /\
  (n_peaks_to_index = length peaks ->
   Permutation (seq 0 (length peaks)) ids) /\
  ((length peaks < n_peaks_to_index)%nat -> ~ NoDup ids).
Proof.
  intros ids. unfold ids, Vector._choose_peak_ids.
  set (order := Vector.argsort (map polar_angle peaks)).
  assert (Hperm : Permutation (seq 0 (length peaks)) order).
  { unfold order. rewrite <- (length_map polar_angle peaks).
    apply argsort_perm. }
  assert (Hlen : length order = length peaks).
  { rewrite <- (Permutation_length Hperm), length_seq. reflexivity. }
  assert (Hpos : (0 < length peaks)%nat).
  { destruct peaks; [congruence | simpl; lia]. }
  assert (Hrange : Forall (fun i => (i < length peaks)%nat)
            (map (fun k => nth k order 0%nat)
               (Vector.linspace_int (length peaks - 1) n_peaks_to_index))).
  { apply Forall_map.
    eapply Forall_impl; [| apply linspace_int_bound].
    intros k Hk. simpl in Hk. simpl.
    assert (Hin : In (nth k order 0%nat) order)
      by (apply nth_In; rewrite Hlen; lia).
    apply (Permutation_in _ (Permutation_sym Hperm)) in Hin.
    apply in_seq in Hin. lia. }
  split; [rewrite length_map; apply linspace_int_length |].
  split; [exact Hrange |]. split.
  - intros ->.
    assert (Hlin : Vector.linspace_int (length peaks - 1) (length peaks)
                   = seq 0 (length peaks)).
    { destruct (length peaks) as [| [| n]] eqn:E; [lia | reflexivity |].
      unfold Vector.linspace_int.
      replace (S (S n) - 1)%nat with (S n) by lia.
      rewrite <- (map_id (seq 0 (S (S n)))) at 2.
      apply map_ext. intros k. apply Nat.div_mul. lia. }
    rewrite Hlin, <- Hlen, map_nth_seq_self. rewrite Hlen. exact Hperm.
  - intros Hmore Hnodup.
    assert (Hincl : incl (map (fun k => nth k order 0%nat)
                            (Vector.linspace_int (length peaks - 1) n_peaks_to_index))
                         (seq 0 (length peaks))).
    { intros i Hi. rewrite Forall_forall in Hrange.
      apply in_seq. specialize (Hrange i Hi). lia. }
    pose proof (NoDup_incl_length Hnodup Hincl) as Hle.
    rewrite length_map, linspace_int_length, length_seq in Hle. lia.
Qed.

Lemma choose_peak_ids_valid_witness :
  [(1, 0, 0); (0, 2, 0)] <> @nil Vector.vec /\
  Permutation (seq 0 2)
    (Vector._choose_peak_ids Vector.Demo.polar_angle [(1, 0, 0); (0, 2, 0)] 2).
Proof.
  assert (H : [(1, 0, 0); (0, 2, 0)] <> @nil Vector.vec) by discriminate.
  split; [exact H |].
  destruct (choose_peak_ids_valid Vector.Demo.polar_angle
              [(1, 0, 0); (0, 2, 0)] 2 H) as (_ & _ & Hperm & _).
  apply Hperm. reflexivity.
Defined.

Lemma in_firstn {A : Type} (n : nat) (l : list A) (x : A) :
  In x (firstn n l) -> In x l.
Proof.
  intros H. rewrite <- (firstn_skipn n l). apply in_or_app. now left.
Qed.

Section DescendingSort.
Context {A : Type} (key : A -> Q).

Lemma insert_desc_sorted (x : A) (l : list A) :
  StronglySorted (key_ge key) l -> StronglySorted (key_ge key) (insert_desc key x l).
Proof.
  induction 1 as [| y l Hs IH Hall]; simpl.
  - repeat constructor.
  - destruct (Qle_bool (key y) (key x)) eqn:E.
    + apply Qle_bool_iff in E.
      constructor; [now constructor |].
      constructor; [exact E |].
      eapply Forall_impl; [| exact Hall].
      unfold key_ge; intros; lra.
    + apply Qle_bool_false in E.
      constructor; [exact IH |].
      eapply Permutation_Forall; [apply insert_desc_perm |].
      constructor; [unfold key_ge; lra | exact Hall].
Qed.

Lemma sort_desc_sorted (l : list A) : StronglySorted (key_ge key) (sort_desc key l).
Proof.
  induction l as [| x l IH]; simpl; [constructor |].
  now apply insert_desc_sorted.
Qed.

Lemma sorted_firstn (R : A -> A -> Prop) (n : nat) (l : list A) :
  StronglySorted R l -> StronglySorted R (firstn n l).
Proof.
  intros Hs. revert n. induction Hs as [| x l Hs IH Hall]; intros [| n]; simpl;
    try constructor.
  - apply IH.
  - apply Forall_forall. intros y Hy.
    rewrite Forall_forall in Hall. apply Hall.
    eapply in_firstn; exact Hy.
Qed.

Lemma sorted_app_tail (l : list A) (x : A) (n : nat) :
  StronglySorted (key_ge key) l ->
  Forall (fun y => key x <= key y) l ->
  StronglySorted (key_ge key) (l ++ repeat x n).
Proof.
  induction 1 as [| y l Hs IH Hall]; intros Hge; simpl.
  - induction n as [| n IHn]; simpl; constructor; [exact IHn |].
    apply Forall_forall. intros z Hz. apply repeat_spec in Hz. subst z.
    unfold key_ge. apply Qle_refl.
  - inversion Hge as [| ? ? Hy Hl]; subst.
    constructor; [apply IH; exact Hl |].
    apply Forall_app. split; [exact Hall |].
    apply Forall_forall. intros z Hz. apply repeat_spec in Hz. subst z.
    exact Hy.
Qed.

End DescendingSort.

Section FoundSolutions.
Context {hkl_pair structure : Type}.
Context (norm : Vector.vec -> Q)
        (get_angle_cartesian : Vector.vec -> Vector.vec -> Q)
        (polar_angle : Vector.vec -> Q)
        (rotation_onto :
           structure -> Vector.vec -> Vector.vec -> hkl_pair -> Vector.matrix)
        (fractional_hkls :
           structure -> Vector.matrix -> list Vector.vec -> list Vector.vec).
Context (peaks : list Vector.vec)
        (mag_tol angle_tol index_error_tol : Q)
        (n_peaks_to_index n_best : nat).

Local Abbreviation phase := (Vector.phase hkl_pair structure).

Lemma candidate_match_rate (k : nat) (ph : phase) (q1 q2 : Vector.vec)
  (hkls : hkl_pair) :
  (forall s R, length (fractional_hkls s R peaks) = length peaks) ->
  let c := fst (Vector.candidate hkl_pair structure rotation_onto
                  fractional_hkls k ph peaks index_error_tol q1 q2 hkls) in
  Vector.phase_index c = k /\ Vector.match_rate c <= 1.
Proof.
  intros Hfrac. simpl. split; [reflexivity |].
  set (ehkls := Vector.ehkls_of _).
  assert (Hcount : (length (filter (fun e => Qltb (Vector.max3 e) index_error_tol)
                              ehkls) <= length peaks)%nat).
  { etransitivity; [apply filter_length_bound |].
    unfold ehkls, Vector.ehkls_of. rewrite length_map, Hfrac. lia. }
  destruct (length peaks) as [| n] eqn:E; [lra |].
  set (cnt := length (filter _ ehkls)) in *.
  assert (H1 : inject_Z (Z.of_nat cnt) <= inject_Z (Z.of_nat (S n))).
  { rewrite <- Zle_Qle. lia. }
  assert (H2 : 0 < inject_Z (Z.of_nat (S n))).
  { replace 0 with (inject_Z 0) by reflexivity. rewrite <- Zlt_Qlt. lia. }
  assert (H3 : inject_Z (Z.of_nat cnt) * (1 / inject_Z (Z.of_nat (S n)))
               == inject_Z (Z.of_nat cnt) / inject_Z (Z.of_nat (S n))).
  { field. lra. }
  rewrite H3. apply Qle_shift_div_r; lra.
Qed.

Lemma phase_solutions_found (k : nat) (ph : phase) :
  (forall s R, length (fractional_hkls s R peaks) = length peaks) ->
  Forall (found_ok k)
    (map fst (Vector.phase_solutions hkl_pair structure norm get_angle_cartesian
                polar_angle rotation_onto fractional_hkls k ph peaks mag_tol
                angle_tol index_error_tol n_peaks_to_index)).
Proof.
  intros Hfrac. apply Forall_map, Forall_forall. intros c Hc.
  unfold Vector.phase_solutions in Hc. apply in_flat_map in Hc.
  destruct Hc as (ids & _ & Hc). unfold Vector.pair_solutions in Hc.
  destruct (if Qltb _ _ then _ else _) as [q1 q2].
  destruct (Nat.eqb _ 0); [contradiction |].
  apply filter_In in Hc. destruct Hc as [Hc Hrate].
  apply in_map_iff in Hc. destruct Hc as (hkls & <- & _).
  apply Qltb_lt in Hrate.
  destruct (candidate_match_rate k ph q1 q2 hkls Hfrac) as [Hk Hle].
  split; [exact Hk |]. split; [exact Hrate | exact Hle].
Qed.

Lemma firstn_min_length {A : Type} (n : nat) (l : list A) :
  firstn (Nat.min n (length l)) l = firstn n l.
Proof.
  destruct (Nat.le_ge_cases n (length l)) as [H | H].
  - rewrite Nat.min_l by exact H. reflexivity.
  - rewrite Nat.min_r by exact H.
    rewrite firstn_all, firstn_all2 by exact H. reflexivity.
Qed.

Lemma sorted_app_split {A : Type} (R : A -> A -> Prop) (a b : list A) :
  StronglySorted R (a ++ b) ->
  forall x y, In x a -> In y b -> R x y.
Proof.
  induction a as [| h a IH]; intros Hs x y Hx Hy; [contradiction |].
  simpl in Hs. apply StronglySorted_inv in Hs. destruct Hs as [Hs Hall].
  destruct Hx as [<- | Hx].
  - rewrite Forall_forall in Hall. apply Hall, in_or_app. now right.
  - apply (IH Hs x y Hx Hy).
Qed.

(** X17.  With at least two peaks, and a lattice that gives one
    fractional hkl per peak, the [n_best] rows of phase number [k] are
    exactly the first [n_best] of the solutions found for that phase,
    in descending order of match rate (equal rates in the order found),
    followed by sentinels only.  So every row before the sentinels is a
    solution that was found, carries the phase index [k] and a match rate
    above 0 and at most 1, and every solution found that is not among
    the rows has a match rate no larger than that of any such row. *)
Theorem match_vectors_rows_ranked (library : list phase) (k : nat) (ph : phase)
  (Hpeaks : (2 <= length peaks)%nat)
  (Hphase : nth_error library k = Some ph)
  (Hfractional : forall s R, length (fractional_hkls s R peaks) = length peaks) :
  let solutions :=
    map fst (Vector.phase_solutions hkl_pair structure norm get_angle_cartesian
               polar_angle rotation_onto fractional_hkls k ph peaks mag_tol
               angle_tol index_error_tol n_peaks_to_index) in
  let found := firstn n_best (sort_desc Vector.match_rate solutions) in
  let rows := found ++ repeat Vector.sentinel (n_best - length found) in
  Vector.phase_rows
    (fst (Vector.match_vectors hkl_pair structure norm get_angle_cartesian
            polar_angle rotation_onto fractional_hkls peaks library mag_tol
            angle_tol index_error_tol n_peaks_to_index n_best))
    n_best k = map Some rows /\
  length rows = n_best /\
  length found = Nat.min n_best (length solutions) /\
  StronglySorted (key_ge Vector.match_rate) rows /\
  (forall s, In s found -> In s solutions) /\
  Forall (found_ok k) found /\
  (forall s, In s solutions ->
     In s found \/
     Forall (fun f => Vector.match_rate s <= Vector.match_rate f) found).
Proof.
  intros solutions found rows.
  pose proof (phase_solutions_found k ph Hfractional) as Hfound.
  fold solutions in Hfound.
  pose proof (sort_desc_perm Vector.match_rate solutions) as Hperm.
  pose proof (sort_desc_sorted Vector.match_rate solutions) as Hsorted.
  assert (Hlen : length found = Nat.min n_best (length solutions)).
  { unfold found. rewrite length_firstn, sort_desc_length. reflexivity. }
  assert (Hin : forall s, In s found -> In s solutions).
  { intros s Hs. unfold found in Hs. apply in_firstn in Hs.
    apply (Permutation_in _ (Permutation_sym Hperm)), Hs. }
  assert (Hok : Forall (found_ok k) found).
  { apply Forall_forall. intros s Hs.
    rewrite Forall_forall in Hfound. apply Hfound, Hin, Hs. }
  split.
  { rewrite (match_vectors_phase_rows norm get_angle_cartesian polar_angle
               rotation_onto fractional_hkls peaks angle_tol index_error_tol
               n_peaks_to_index n_best mag_tol library k ph Hpeaks Hphase).
    unfold Vector.written_rows. fold solutions.
    rewrite <- (sort_desc_length Vector.match_rate solutions) at 1.
    rewrite firstn_min_length. fold found.
    unfold rows. rewrite map_app, map_repeat, Hlen. reflexivity. }
  split.
  { unfold rows. rewrite length_app, repeat_length, Hlen. lia. }
  split; [exact Hlen |].
  split.
  { unfold rows. apply sorted_app_tail.
    - apply sorted_firstn, Hsorted.
    - eapply Forall_impl; [| exact Hok].
      intros s (_ & Hpos & _). simpl. lra. }
  split; [exact Hin |].
  split; [exact Hok |].
  intros s Hs.
  apply (Permutation_in _ Hperm) in Hs.
  rewrite <- (firstn_skipn n_best (sort_desc Vector.match_rate solutions)) in Hs.
  apply in_app_or in Hs. destruct Hs as [Hs | Hs]; [left; exact Hs |].
  right. apply Forall_forall. intros f Hf.
  rewrite <- (firstn_skipn n_best (sort_desc Vector.match_rate solutions))
    in Hsorted.
  exact (sorted_app_split _ _ _ Hsorted f s Hf Hs).
Qed.

End FoundSolutions.

(** Two peaks on the x axis against the library row that matches them:
    the first row of the phase is the solution found, with match rate
    1, the second the sentinel. *)
Lemma match_vectors_rows_ranked_witness :
  (2 <= length [(1, 0, 0); (2, 0, 0)])%nat /\
  nth_error Vector.Demo.library 0
    = Some (Vector.mk_phase unit unit tt [tt] [(2, 1, 0)]) /\
  (forall (s : unit) (R : Vector.matrix),
     length (Vector.Demo.fractional_hkls s R [(1, 0, 0); (2, 0, 0)])
     = length [(1, 0, 0); (2, 0, 0)]) /\
  exists found,
    Vector.phase_rows
      (fst (Vector.Demo.match_vectors [(1, 0, 0); (2, 0, 0)] Vector.Demo.library
              (1 # 10) (1 # 10) (1 # 10) 2 2)) 2 0
    = map Some (found ++ repeat Vector.sentinel (2 - length found)) /\
    map Vector.match_rate found = [2 # 2] /\
    map Vector.phase_index found = [0%nat].
Proof.
  assert (Hp : (2 <= length [(1, 0, 0); (2, 0, 0)])%nat) by (simpl; lia).
  assert (Hf : forall (s : unit) (R : Vector.matrix),
             length (Vector.Demo.fractional_hkls s R [(1, 0, 0); (2, 0, 0)])
             = length [(1, 0, 0); (2, 0, 0)]) by (intros; reflexivity).
  split; [exact Hp |]. split; [reflexivity |]. split; [exact Hf |].
  destruct (match_vectors_rows_ranked Vector.Demo.norm
              Vector.Demo.get_angle_cartesian Vector.Demo.polar_angle
              Vector.Demo.rotation_onto Vector.Demo.fractional_hkls
              [(1, 0, 0); (2, 0, 0)] (1 # 10) (1 # 10) (1 # 10) 2 2
              Vector.Demo.library 0 (Vector.mk_phase unit unit tt [tt] [(2, 1, 0)])
              Hp eq_refl Hf)
    as (Hrows & _).
  eexists. split; [exact Hrows |].
  split; vm_compute; reflexivity.
Defined.
(** ** The retained templates of [correlate_library] *)

Section TopK.

Lemma argmin_from_spec (l : list Q) :
  forall (pre : list Q) (bi : nat) (b : Q),
    nth_error pre bi = Some b ->
    Forall (fun x => b <= x) pre ->
    exists m,
      nth_error (pre ++ l) (Corr.argmin_from bi b (length pre) l) = Some m /\
      Forall (fun x => m <= x) (pre ++ l).
Proof.
  induction l as [| x l IH]; intros pre bi b Hb Hall; simpl.
  - rewrite app_nil_r. exists b. auto.
  - assert (Hlen : length (pre ++ [x]) = S (length pre))
      by (rewrite length_app; simpl; lia).
    replace (pre ++ x :: l) with ((pre ++ [x]) ++ l)
      by (rewrite <- app_assoc; reflexivity).
    rewrite <- Hlen.
    change (Corr.fltb x b) with (Qltb x b).
    destruct (Qltb x b) eqn:E.
    + apply Qltb_lt in E.
      apply (IH (pre ++ [x]) (length pre) x).
      * rewrite nth_error_app2 by lia. now rewrite Nat.sub_diag.
      * apply Forall_app. split.
        -- eapply Forall_impl; [| exact Hall]. simpl; intros; lra.
        -- constructor; [lra | constructor].
    + apply Qltb_ge in E.
      apply (IH (pre ++ [x]) bi b).
      * rewrite nth_error_app1; [exact Hb |].
        apply nth_error_Some. congruence.
      * apply Forall_app. split; [exact Hall |].
        constructor; [exact E | constructor].
Qed.

Lemma np_argmin_spec (a : list Q) (i : nat) :
  Corr.np_argmin a = Ok i ->
  exists m, nth_error a i = Some m /\ Forall (fun x => m <= x) a.
Proof.
  destruct a as [| x l]; simpl; [discriminate |].
  intros [= <-].
  apply (argmin_from_spec l [x] 0%nat x); [reflexivity |].
  constructor; [lra | constructor].
Qed.

Lemma set_nth_in {A : Type} (l : list A) :
  forall i v e, In e (Corr.set_nth l i v) -> e = v \/ In e l.
Proof.
  induction l as [| x l IH]; intros [| i] v e; simpl; try tauto.
  - intros [<- | H]; auto.
  - intros [<- | H]; [auto |]. destruct (IH i v e H); auto.
Qed.

Lemma set_nth_new {A : Type} (l : list A) :
  forall i v, (i < length l)%nat -> In v (Corr.set_nth l i v).
Proof.
  induction l as [| x l IH]; intros [| i] v; simpl; try lia.
  - intros _. now left.
  - intros H. right. apply IH. lia.
Qed.

Lemma set_nth_keep {A : Type} (l : list A) :
  forall i v e, In e l -> In e (Corr.set_nth l i v) \/ nth_error l i = Some e.
Proof.
  induction l as [| x l IH]; intros [| i] v e; simpl; try tauto.
  - intros [<- | H]; [now right | left; now right].
  - intros [<- | H]; [left; now left |].
    destruct (IH i v e H); [left; now right | now right].
Qed.

Lemma insert_score_perm {A : Type} (x : A * Q) (l : list (A * Q)) :
  Permutation (x :: l) (Corr.insert_score x l).
Proof.
  induction l as [| y l IH]; simpl; [reflexivity |].
  destruct (Qltb (snd y) (snd x)); [| reflexivity].
  rewrite perm_swap. now constructor.
Qed.

Lemma sort_score_perm {A : Type} (l : list (A * Q)) :
  Permutation l (Corr.sort_score l).
Proof.
  induction l as [| x l IH]; simpl; [constructor |].
  rewrite <- insert_score_perm. now constructor.
Qed.

Lemma insert_score_sorted {A : Type} (x : A * Q) (l : list (A * Q)) :
  StronglySorted (key_le snd) l ->
  StronglySorted (key_le snd) (Corr.insert_score x l).
Proof.
  induction 1 as [| y l Hs IH Hall]; simpl.
  - repeat constructor.
  - destruct (Qltb (snd y) (snd x)) eqn:E.
    + apply Qltb_lt in E.
      constructor; [exact IH |].
      eapply Permutation_Forall; [apply insert_score_perm |].
      constructor; [unfold key_le; lra | exact Hall].
    + apply Qltb_ge in E.
      constructor; [now constructor |].
      constructor; [exact E |].
      eapply Forall_impl; [| exact Hall].
      unfold key_le; intros; lra.
Qed.

Lemma sort_score_sorted {A : Type} (l : list (A * Q)) :
  StronglySorted (key_le snd) (Corr.sort_score l).
Proof.
  induction l as [| x l IH]; simpl; [constructor |].
  now apply insert_score_sorted.
Qed.

Lemma sorted_rev {A : Type} (key : A -> Q) (l : list A) :
  StronglySorted (key_le key) l -> StronglySorted (key_ge key) (rev l).
Proof.
  induction 1 as [| x l Hs IH Hall]; simpl; [constructor |].
  apply sorted_app_tail with (n := 1%nat) (x := x) in IH.
  - exact IH.
  - apply Forall_forall. intros y Hy. apply in_rev in Hy.
    rewrite Forall_forall in Hall. apply (Hall y Hy).
Qed.

End TopK.

Section PhaseLoopInvariant.
Context (m : Corr.method) (nb : nat) (std avg : Q) (image : @Corr.image2d Q)
        (k : nat).

Local Abbreviation corr t := (Corr.corr_of m nb std avg image t).
Local Abbreviation entry := ((Q * Q * Q) * Q)%type.

Lemma phase_loop_top_k (templates : list (@Corr.template Q)) :
  forall (saved : list entry) block out,
    Corr.phase_loop m nb std avg image k templates saved block = Ok out ->
    exists final : list entry,
      (templates = [] -> out = block /\ final = saved) /\
      (templates <> [] -> out = map (Corr.row k) (rev (Corr.sort_score final))) /\
      length final = length saved /\
      (forall e, In e final ->
         In e saved \/
         exists t, In t templates /\ corr t = Ok (snd e) /\ fst e = Corr.or_local t) /\
      (forall t, In t templates ->
         exists c, corr t = Ok c /\
           (In c (map snd final) \/ Forall (fun e => c <= snd e) final)) /\
      (forall x, Forall (fun e => x <= snd e) saved ->
                 Forall (fun e => x <= snd e) final) /\
      (forall e, In e saved ->
         In (snd e) (map snd final) \/ Forall (fun e' => snd e <= snd e') final).
Proof.
  induction templates as [| t rest IH]; intros saved block out Hout.
  - simpl in Hout. injection Hout as <-. exists saved.
    split; [auto |]. split; [congruence |]. split; [reflexivity |].
    split; [auto |]. split; [intros t []|]. split; [auto |].
    intros e He. left. apply in_map, He.
  - simpl in Hout.
    destruct (corr t) as [c |] eqn:Hc; [| discriminate]. cbn [Py.bind] in Hout.
    destruct (Corr.np_argmin (map snd saved)) as [i |] eqn:Hi; [| discriminate].
    cbn [Py.bind] in Hout.
    destruct (np_argmin_spec _ _ Hi) as (lowest & Hnth & Hlow).
    unfold getitem in Hout. rewrite Hnth in Hout. cbn [Py.bind] in Hout.
    change (Corr.fltb lowest c) with (Qltb lowest c) in Hout.
    remember (if Qltb lowest c
              then Corr.set_nth saved i (Corr.or_local t, c) else saved)
      as saved' eqn:Hs'.
    destruct (IH _ _ _ Hout) as (final & Hnil & Hcons & Hlen & Hprov & Htop & Hmono & Hkept).
    assert (Hi_lt : (i < length saved)%nat).
    { rewrite <- (length_map snd). apply nth_error_Some. congruence. }
    assert (Hlow' : Forall (fun e : entry => lowest <= snd e) saved)
      by (rewrite Forall_map in Hlow; exact Hlow).
    assert (Hlen' : length saved' = length saved).
    { rewrite Hs'. destruct (Qltb lowest c); [apply set_nth_length | reflexivity]. }
    assert (Hmono' : forall x, Forall (fun e : entry => x <= snd e) saved ->
                               Forall (fun e : entry => x <= snd e) saved').
    { intros x Hx. rewrite Hs'. destruct (Qltb lowest c) eqn:E; [| exact Hx].
      apply Qltb_lt in E. apply Forall_forall. intros e He.
      apply set_nth_in in He. destruct He as [-> | He].
      - simpl. rewrite Forall_forall in Hx.
        assert (Hin : In lowest (map snd saved))
          by (eapply nth_error_In; exact Hnth).
        apply in_map_iff in Hin. destruct Hin as (e0 & <- & He0).
        specialize (Hx e0 He0). simpl in Hx. lra.
      - rewrite Forall_forall in Hx. apply Hx, He. }
    exists final.
    split; [intros H; discriminate H |].
    split.
    { intros _. destruct rest as [| t' rest'].
      - destruct (Hnil eq_refl) as [-> ->]. reflexivity.
      - apply Hcons. discriminate. }
    split; [rewrite Hlen; exact Hlen' |].
    split.
    { intros e He. destruct (Hprov e He) as [Hin | (t' & Ht' & Hs & Ho)].
      - rewrite Hs' in Hin. destruct (Qltb lowest c); [| now left].
        apply set_nth_in in Hin. destruct Hin as [-> | Hin]; [| now left].
        right. exists t. split; [now left |]. split; [exact Hc | reflexivity].
      - right. exists t'. split; [now right |]. split; assumption. }
    split.
    { intros t' [<- | Ht']; [| apply Htop, Ht'].
      exists c. split; [exact Hc |].
      destruct (Qltb lowest c) eqn:E.
      - assert (Hin : In (Corr.or_local t, c) saved').
        { rewrite Hs'. apply set_nth_new, Hi_lt. }
        apply (Hkept _ Hin).
      - right. apply Qltb_ge in E. apply Hmono.
        rewrite Hs'.
        eapply Forall_impl; [| exact Hlow']. simpl. intros; lra. }
    split.
    { intros x Hx. apply Hmono, Hmono', Hx. }
    intros e He.
    destruct (Qltb lowest c) eqn:E; subst saved'; [| apply Hkept, He].
    destruct (set_nth_keep saved i (Corr.or_local t, c) e He) as [Hin | Hat].
    + apply Hkept, Hin.
    + right. apply Hmono.
      assert (Hsnd : snd e = lowest).
      { rewrite nth_error_map, Hat in Hnth. simpl in Hnth. congruence. }
      rewrite Hsnd. apply Qltb_lt in E.
      apply Forall_forall. intros e' He'.
      apply set_nth_in in He'. destruct He' as [-> | He']; [simpl; lra |].
      rewrite Forall_forall in Hlow'. apply Hlow', He'.
Qed.

End PhaseLoopInvariant.

Lemma concat_block_of {A : Type} (n : nat) (blocks : list (list A)) :
  Forall (fun b => length b = n) blocks ->
  forall k block,
    nth_error blocks k = Some block ->
    CorrRows.block_of (concat blocks) n k = block.
Proof.
  unfold CorrRows.block_of.
  induction 1 as [| b bs Hb _ IH]; intros k block Hk.
  - destruct k; discriminate.
  - destruct k as [| k]; simpl in Hk.
    + injection Hk as <-. simpl. apply firstn_exact, Hb.
    + simpl concat.
      replace (S k * n)%nat with (n + k * n)%nat by lia.
      rewrite skipn_past by exact Hb. apply IH, Hk.
Qed.

Lemma phases_loop_nth (m : Corr.method) (nb : nat) (std avg : Q)
  (image : @Corr.image2d Q) (garbage : Q * Q * Q) (n : nat)
  (library : list (list (@Corr.template Q))) :
  forall k0 blocks,
    Corr.phases_loop m nb std avg image garbage n k0 library = Ok blocks ->
    forall k templates,
      nth_error library k = Some templates ->
      exists block,
        nth_error blocks k = Some block /\
        Corr.phase_loop m nb std avg image (k0 + k) templates
          (repeat (garbage, 0) n)
          (repeat [Corr.CNone; Corr.CNone; Corr.CNone] n) = Ok block.
Proof.
  induction library as [| ts rest IH]; intros k0 blocks Hb k templates Hk.
  - destruct k; discriminate.
  - simpl in Hb.
    destruct (Corr.phase_loop m nb std avg image k0 ts _ _) as [block |] eqn:E;
      [| discriminate]. cbn [Py.bind] in Hb.
    destruct (Corr.phases_loop m nb std avg image garbage n (S k0) rest)
      as [bs |] eqn:E'; [| discriminate]. cbn [Py.bind] in Hb.
    injection Hb as <-.
    destruct k as [| k]; simpl in Hk.
    + injection Hk as <-. exists block. rewrite Nat.add_0_r. auto.
    + destruct (IH _ _ E' k templates Hk) as (b & Hb & Hloop).
      exists b. split; [exact Hb |].
      replace (k0 + S k)%nat with (S k0 + k)%nat by lia. exact Hloop.
Qed.

(** X15.  When [correlate_library] (on exact rationals, [mask = 1])
    returns, the block of a phase without templates is left unassigned,
    and the block of a phase with templates holds [n_largest] rows in
    descending order of correlation such that: every row is the initial
    zero row or carries the orientation and score of a template of the
    phase; no retained score is negative; and every template of the phase
    either has its score among the rows or scores no more than every
    row. *)
Theorem correlate_library_top_k (garbage : Q * Q * Q) (image : @Corr.image2d Q)
  (library : list (list (@Corr.template Q))) (n_largest : nat)
  (m : Corr.method) (rows : list (list (Corr.cell Q)))
  (k : nat) (templates : list (@Corr.template Q))
  (Hreturns :
     Corr.correlate_library garbage image library n_largest m 1 = Ok rows)
  (Hphase : nth_error library k = Some templates) :
  (templates = [] ->
   CorrRows.block_of rows n_largest k =
     repeat [Corr.CNone; Corr.CNone; Corr.CNone] n_largest) /\
  (templates <> [] ->
   exists saved : list ((Q * Q * Q) * Q),
     CorrRows.block_of rows n_largest k = map (Corr.row k) saved /\
     length saved = n_largest /\
     StronglySorted (key_ge snd) saved /\
     (forall e, In e saved ->
        e = (garbage, 0) \/
        exists t, In t templates /\
          CorrRows.score_in image m t = Ok (snd e) /\ fst e = Corr.or_local t) /\
     Forall (fun e => 0 <= snd e) saved /\
     (forall t, In t templates ->
        exists c, CorrRows.score_in image m t = Ok c /\
          (In c (map snd saved) \/ Forall (fun e => c <= snd e) saved))).
Proof.
  unfold Corr.correlate_library in Hreturns. simpl Z.eqb in Hreturns.
  cbv iota in Hreturns.
  destruct (Corr.phases_loop _ _ _ _ _ _ _ _ _) as [blocks |] eqn:Hloop;
    [| discriminate]. cbn [Py.bind] in Hreturns. injection Hreturns as <-.
  destruct (phases_loop_shape _ _ _ _ _ _ _ _ _ _ Hloop) as [_ Hshape].
  destruct (phases_loop_nth _ _ _ _ _ _ _ _ _ _ Hloop k templates Hphase)
    as (block & Hblock & Hphase_loop).
  simpl Nat.add in Hphase_loop.
  rewrite (concat_block_of n_largest blocks) with (block := block);
    [| eapply Forall_impl; [| exact Hshape]; intros b [Hb _]; exact Hb
     | exact Hblock].
  destruct (phase_loop_top_k _ _ _ _ _ _ _ _ _ _ Hphase_loop)
    as (final & Hnil & Hcons & Hlen & Hprov & Htop & Hmono & _).
  split.
  - intros Ht. destruct (Hnil Ht) as [-> _]. reflexivity.
  - intros Ht. exists (rev (Corr.sort_score final)).
    assert (Hperm : forall e, In e (rev (Corr.sort_score final)) -> In e final).
    { intros e He. apply in_rev in He.
      eapply Permutation_in; [apply Permutation_sym, sort_score_perm | exact He]. }
    assert (Hall : forall (P : (Q * Q * Q) * Q -> Prop),
              Forall P final -> Forall P (rev (Corr.sort_score final))).
    { intros P HP. apply Forall_forall. intros e He.
      rewrite Forall_forall in HP. apply HP, Hperm, He. }
    split; [apply Hcons, Ht |].
    split; [rewrite length_rev, sort_score_length, Hlen; apply repeat_length |].
    split; [apply sorted_rev, sort_score_sorted |].
    split.
    { intros e He. destruct (Hprov e (Hperm e He)) as [Hin | Hex].
      - left. apply repeat_spec in Hin. exact Hin.
      - right. exact Hex. }
    split.
    { apply Hall, Hmono. apply Forall_forall. intros e He.
      apply repeat_spec in He. subst e. simpl. lra. }
    intros t Hin. destruct (Htop t Hin) as (c & Hc & Hcase).
    exists c. split; [exact Hc |].
    destruct Hcase as [Hmem | Hle].
    + left. apply in_map_iff in Hmem. destruct Hmem as (e & <- & He).
      apply in_map. apply in_rev. rewrite rev_involutive.
      eapply Permutation_in; [apply sort_score_perm | exact He].
    + right. apply Hall, Hle.
Qed.

Lemma correlate_library_top_k_witness :
  exists rows,
    Corr.correlate_library (0, 0, 0) (Corr.mk_image 2 2 (fun _ _ => 1))
      [[Corr.mk_template (10, 20, 30) [(0, 0)%Z; (1, 1)%Z] [2; 3] 1;
        Corr.mk_template (40, 50, 60) [(0, 1)%Z] [7] 1]] 1
      Corr.fast_correlation_method 1 = Ok rows /\
    nth_error
      [[Corr.mk_template (10, 20, 30) [(0, 0)%Z; (1, 1)%Z] [2; 3] 1;
        Corr.mk_template (40, 50, 60) [(0, 1)%Z] [7] 1]] 0
    = Some [Corr.mk_template (10, 20, 30) [(0, 0)%Z; (1, 1)%Z] [2; 3] 1;
            Corr.mk_template (40, 50, 60) [(0, 1)%Z] [7] 1] /\
    exists saved : list ((Q * Q * Q) * Q),
      CorrRows.block_of rows 1 0 = map (Corr.row 0) saved /\
      length saved = 1%nat /\
      Forall (fun e => 0 <= snd e) saved.
Proof.
  eexists. split; [reflexivity |]. split; [reflexivity |].
  destruct (correlate_library_top_k (0, 0, 0) (Corr.mk_image 2 2 (fun _ _ => 1))
              [[Corr.mk_template (10, 20, 30) [(0, 0)%Z; (1, 1)%Z] [2; 3] 1;
                Corr.mk_template (40, 50, 60) [(0, 1)%Z] [7] 1]]
              1 Corr.fast_correlation_method _ 0 _ eq_refl eq_refl)
    as (_ & Hfull).
  destruct Hfull as (saved & Hblock & Hlen & _ & _ & Hnonneg & _);
    [discriminate |].
  exists saved. split; [exact Hblock |]. split; [exact Hlen | exact Hnonneg].
Defined.

(** ** More of [indexation_utils.py] *)

Lemma map_result_forall2 {A B : Type} (f : A -> result B) (l : list A) :
  forall out, Vectors.map_result f l = Ok out ->
              Forall2 (fun x y => f x = Ok y) l out.
Proof.
  induction l as [| x l IH]; simpl; intros out Hout.
  - injection Hout as <-. constructor.
  - destruct (f x) as [y |] eqn:E; [| discriminate]. cbn [Py.bind] in Hout.
    destruct (Vectors.map_result f l) as [ys |]; [| discriminate].
    cbn [Py.bind] in Hout. injection Hout as <-.
    constructor; [exact E | apply IH; reflexivity].
Qed.

Lemma nth_error_combine_seq {A : Type} (keys : list A) :
  forall s i k v,
    nth_error (combine keys (seq s (length keys))) i = Some (k, v) <->
    nth_error keys i = Some k /\ v = (s + i)%nat.
Proof.
  induction keys as [| a keys IH]; intros s i k v; simpl.
  - destruct i; simpl; split; [discriminate | intros [H _]; discriminate
                              | discriminate | intros [H _]; discriminate].
  - destruct i as [| i]; simpl.
    + split.
      * intros [= <- <-]. split; [reflexivity | lia].
      * intros [[= <-] ->]. repeat f_equal. lia.
    + rewrite IH. split; intros [H ->]; (split; [exact H | lia]).
Qed.

Lemma dict_get_in (d : list (String.string * nat)) (key : String.string) (i : nat) :
  IndexMore.dict_get d key = Some i -> In (key, i) d.
Proof.
  unfold IndexMore.dict_get.
  destruct (find _ (rev d)) as [[k v] |] eqn:E; [| discriminate].
  simpl. intros [= <-]. apply find_some in E. destruct E as [Hin Hk].
  simpl in Hk. apply String.eqb_eq in Hk. subst k.
  apply in_rev. exact Hin.
Qed.

Lemma dict_get_found (d : list (String.string * nat)) (key : String.string) (i : nat) :
  In (key, i) d -> exists j, IndexMore.dict_get d key = Some j.
Proof.
  intros Hin. unfold IndexMore.dict_get.
  destruct (find (fun p => String.eqb (fst p) key) (rev d)) as [[k v] |] eqn:E.
  - exists v. reflexivity.
  - exfalso. apply in_rev in Hin.
    pose proof (find_none _ _ E _ Hin) as Hn. simpl in Hn.
    rewrite String.eqb_refl in Hn. discriminate.
Qed.

(** X18.  [get_phase_name_and_index] inverts the order of the library's
    keys: when the keys are distinct (as the keys of a dictionary are),
    looking a phase name up gives the position of that name among the
    keys, and only the names among the keys are found. *)
Theorem get_phase_name_and_index_inverts_positions
  (keys : list String.string) (Hkeys : NoDup keys) :
  let d := IndexMore.get_phase_name_and_index keys in
  forall name i,
    IndexMore.dict_get d name = Some i <-> nth_error keys i = Some name.
Proof.
  intros d name i. subst d. unfold IndexMore.get_phase_name_and_index. split.
  - intros Hget. apply dict_get_in in Hget.
    apply In_nth_error in Hget. destruct Hget as (n & Hn).
    apply nth_error_combine_seq in Hn. destruct Hn as [Hn ->]. exact Hn.
  - intros Hnth.
    assert (Hin : In (name, i) (combine keys (seq 0 (length keys)))).
    { apply nth_error_In with (n := i). apply nth_error_combine_seq.
      split; [exact Hnth | reflexivity]. }
    destruct (dict_get_found _ _ _ Hin) as (j & Hj). rewrite Hj. f_equal.
    apply dict_get_in in Hj. apply In_nth_error in Hj. destruct Hj as (n & Hn).
    apply nth_error_combine_seq in Hn. destruct Hn as [Hn ->]. simpl.
    rewrite NoDup_nth_error in Hkeys. apply Hkeys.
    + apply nth_error_Some. congruence.
    + congruence.
Qed.

Import String.StringSyntax.
Delimit Scope string_scope with string.

Lemma get_phase_name_and_index_inverts_positions_witness :
  NoDup ["al"%string; "cu"%string] /\
  (IndexMore.dict_get
     (IndexMore.get_phase_name_and_index ["al"%string; "cu"%string])
     "cu"%string = Some 1%nat <->
   nth_error ["al"%string; "cu"%string] 1 = Some "cu"%string).
Proof.
  assert (H : NoDup ["al"%string; "cu"%string]).
  { repeat constructor; simpl; intuition discriminate. }
  split; [exact H |].
  exact (get_phase_name_and_index_inverts_positions _ H "cu"%string 1%nat).
Defined.

Lemma pad_length (l : list Q) (n : nat) :
  (length l <= n)%nat -> length (IndexMore.pad l n) = n.
Proof.
  intros H. unfold IndexMore.pad. rewrite length_app, repeat_length. lia.
Qed.

Lemma pad_firstn (l : list Q) (n : nat) :
  firstn (length l) (IndexMore.pad l n) = l.
Proof.
  unfold IndexMore.pad. rewrite firstn_app, Nat.sub_diag, firstn_all. simpl.
  apply app_nil_r.
Qed.

Lemma pad_skipn (l : list Q) (n : nat) :
  skipn (length l) (IndexMore.pad l n) = repeat 0 (n - length l).
Proof.
  unfold IndexMore.pad. rewrite skipn_app, Nat.sub_diag, skipn_all. reflexivity.
Qed.

Lemma max_list_bound (l : list nat) (x : nat) :
  In x l -> (x <= fold_right Nat.max 0 l)%nat.
Proof.
  induction l as [| a l IH]; simpl; [contradiction |].
  intros [<- | H]; [lia | specialize (IH H); lia].
Qed.

Lemma max_list_attained (l : list nat) :
  l <> [] -> In (fold_right Nat.max 0%nat l) l.
Proof.
  induction l as [| a l IH]; [congruence |]. intros _. simpl.
  destruct l as [| b l].
  - left. simpl. lia.
  - destruct (Nat.max_spec a (fold_right Nat.max 0%nat (b :: l))) as [[_ E] | [_ E]];
      rewrite E.
    + right. apply IH. discriminate.
    + now left.
Qed.

(** X19.  [_simulations_to_arrays] raises [ValueError] on an empty list
    of simulations.  Otherwise it returns one row of x, of y and of
    intensities per simulation, all of one length: the spot count of the
    largest simulation, counted before the radius filter.  Each row holds
    the spots of its simulation that lie strictly inside [max_radius], in
    order, followed by zeros only. *)
Theorem simulations_to_arrays_padded
  (simulations : list (list IndexMore.spot)) (max_radius : option Q) :
  (simulations = [] ->
   IndexMore._simulations_to_arrays simulations max_radius = Raise ValueError) /\
  (simulations <> [] ->
   exists positions intensities R,
     IndexMore._simulations_to_arrays simulations max_radius
       = Ok (positions, intensities) /\
     length positions = length simulations /\
     length intensities = length simulations /\
     (forall sim, In sim simulations -> (length sim <= R)%nat) /\
     (exists sim, In sim simulations /\ length sim = R) /\
     forall i sim,
       nth_error simulations i = Some sim ->
       exists xs ys row,
         nth_error positions i = Some (xs, ys) /\
         nth_error intensities i = Some row /\
         length xs = R /\ length ys = R /\ length row = R /\
         let kept := filter (IndexMore.within max_radius) sim in
         let n := length kept in
         firstn n xs = map (fun s : IndexMore.spot => fst (fst s)) kept /\
         firstn n ys = map (fun s : IndexMore.spot => snd (fst s)) kept /\
         firstn n row = map (fun s : IndexMore.spot => snd s) kept /\
         skipn n xs = repeat 0 (R - n) /\
         skipn n ys = repeat 0 (R - n) /\
         skipn n row = repeat 0 (R - n)).
Proof.
  split; [intros ->; reflexivity |].
  intros Hne.
  set (R := fold_right Nat.max 0%nat (map (@length IndexMore.spot) simulations)).
  assert (Hbound : forall sim, In sim simulations -> (length sim <= R)%nat).
  { intros sim Hin. apply max_list_bound, in_map, Hin. }
  eexists _, _, R. split.
  { destruct simulations as [| s0 rest]; [congruence |]. reflexivity. }
  rewrite !length_map. split; [reflexivity |]. split; [reflexivity |].
  split; [exact Hbound |]. split.
  { assert (Hin : In R (map (@length IndexMore.spot) simulations)).
    { apply max_list_attained. destruct simulations; [congruence | discriminate]. }
    apply in_map_iff in Hin. destruct Hin as (sim & Hlen & Hin).
    exists sim. split; assumption. }
  intros i sim Hnth.
  pose proof (Hbound sim (nth_error_In _ _ Hnth)) as Hsim.
  pose proof (filter_length_bound (IndexMore.within max_radius) sim) as Hkept.
  rewrite !nth_error_map, Hnth. simpl.
  eexists _, _, _. split; [reflexivity |]. split; [reflexivity |].
  set (kept := filter (IndexMore.within max_radius) sim) in *.
  assert (Hx : length (map (fun s : IndexMore.spot => fst (fst s)) kept) = length kept)
    by apply length_map.
  assert (Hy : length (map (fun s : IndexMore.spot => snd (fst s)) kept) = length kept)
    by apply length_map.
  assert (Hi : length (map (fun s : IndexMore.spot => snd s) kept) = length kept)
    by apply length_map.
  repeat split.
  - apply pad_length. lia.
  - apply pad_length. lia.
  - apply pad_length. lia.
  - rewrite <- Hx at 1. apply pad_firstn.
  - rewrite <- Hy at 1. apply pad_firstn.
  - rewrite <- Hi at 1. apply pad_firstn.
  - rewrite <- Hx. apply pad_skipn.
  - rewrite <- Hy. apply pad_skipn.
  - rewrite <- Hi. apply pad_skipn.
Qed.

(** ** In-plane rotations are recovered *)

Section RotationFacts.
Import Geometry.
Local Open Scope R_scope.

Lemma acos_cos_abs (phi : R) : - PI < phi <= PI -> acos (cos phi) = Rabs phi.
Proof.
  intros [Hlo Hhi]. destruct (Rle_dec 0 phi) as [Hpos | Hneg].
  - rewrite Rabs_right by lra. apply acos_cos. lra.
  - rewrite Rabs_left by lra. rewrite <- cos_neg. apply acos_cos. lra.
Qed.

Lemma clip_cos (phi : R) : clip (cos phi) = cos phi.
Proof.
  unfold clip. pose proof (COS_bound phi) as [Hlo Hhi].
  rewrite Rmax_left by lra. rewrite Rmin_left by lra. reflexivity.
Qed.

Lemma sin_sign (phi : R) : - PI < phi <= PI ->
  (sin phi < 0 <-> phi < 0) /\ (0 < sin phi -> 0 < phi).
Proof.
  intros [Hlo Hhi]. split; [split |].
  - intros Hs. destruct (Rlt_dec phi 0) as [H | H]; [exact H |].
    pose proof (sin_ge_0 phi). lra.
  - intros Hn. rewrite <- (Ropp_involutive phi), sin_neg.
    pose proof (sin_gt_0 (- phi)). lra.
  - intros Hs. destruct (Rlt_dec 0 phi) as [H | H]; [exact H |].
    destruct (Req_dec phi 0) as [-> | Hz]; [rewrite sin_0 in Hs; lra |].
    assert (Hn : phi < 0) by lra.
    rewrite <- (Ropp_involutive phi), sin_neg in Hs.
    pose proof (sin_gt_0 (- phi)). lra.
Qed.

Lemma sin_cos_sqr (phi : R) : cos phi * cos phi + sin phi * sin phi = 1.
Proof. pose proof (sin2_cos2 phi) as H. unfold Rsqr in H. lra. Qed.

Lemma in_plane_cross (x1 y1 x2 y2 phi : R) :
  cross (matvec (Rotation.about_z phi) (x1, y1, 0))
        (matvec (Rotation.about_z phi) (x2, y2, 0))
  = (0, 0, x1 * y2 - y1 * x2).
Proof.
  unfold Rotation.about_z, matvec, cross, dot.
  pose proof (sin_cos_sqr phi) as H.
  f_equal; [f_equal |]; try ring.
  transitivity ((cos phi * cos phi + sin phi * sin phi) * (x1 * y2 - y1 * x2)); [ring |].
  rewrite H. ring.
Qed.

Lemma normalize_axis (c : R) : c <> 0 ->
  normalize_or_zero (0, 0, c) = (0, 0, c / Rabs c).
Proof.
  intros Hc. unfold normalize_or_zero.
  assert (Hn : norm (0, 0, c) = Rabs c).
  { unfold norm, dot. replace (0 * 0 + 0 * 0 + c * c) with (Rsqr c) by (unfold Rsqr; ring).
    apply sqrt_Rsqr_abs. }
  rewrite Hn. pose proof (Rabs_pos_lt c Hc) as Hpos.
  destruct (Rlt_dec 0 (Rabs c)) as [_ | H]; [| contradiction].
  unfold scale. f_equal; [f_equal |]; field; lra.
Qed.

Lemma in_plane_angle (x y phi : R) :
  (x, y) <> (0, 0) -> - PI < phi <= PI ->
  get_angle_cartesian_vec (x, y, 0) (matvec (Rotation.about_z phi) (x, y, 0))
  = Rabs phi.
Proof.
  intros Hv Hphi. unfold get_angle_cartesian_vec.
  set (w := matvec (Rotation.about_z phi) (x, y, 0)).
  assert (Hd : dot (x, y, 0) (x, y, 0) = x * x + y * y) by (unfold dot; ring).
  assert (Hpos : 0 < x * x + y * y).
  { destruct (Req_dec x 0) as [-> | Hx].
    - destruct (Req_dec y 0) as [-> | Hy]; [congruence | nra].
    - nra. }
  assert (Hw : dot w w = x * x + y * y).
  { unfold w, Rotation.about_z, matvec, dot. pose proof (sin_cos_sqr phi) as H.
    transitivity ((cos phi * cos phi + sin phi * sin phi) * (x * x + y * y)); [ring |].
    rewrite H. ring. }
  assert (Hvw : dot (x, y, 0) w = cos phi * (x * x + y * y)).
  { unfold w, Rotation.about_z, matvec, dot. ring. }
  assert (Hnn : norm (x, y, 0) * norm w = x * x + y * y).
  { unfold norm. rewrite Hd, Hw. apply sqrt_sqrt. lra. }
  rewrite Hnn, Hvw.
  destruct (Req_dec_T (x * x + y * y) 0) as [H0 | _]; [lra |].
  replace (cos phi * (x * x + y * y) / (x * x + y * y)) with (cos phi)
    by (field; lra).
  rewrite clip_cos. apply acos_cos_abs, Hphi.
Qed.

Lemma isclose0_false (x : R) : 1 / 100000000 < Rabs x -> isclose0 x = false.
Proof.
  intros H. unfold isclose0.
  destruct (Rle_dec (Rabs x) (1 / 100000000)) as [Hle | _]; [lra | reflexivity].
Qed.

Lemma axangle2mat_about_z (sigma theta phi : R) :
  sigma * sigma = 1 -> cos theta = cos phi -> sigma * sin theta = sin phi ->
  matmul (axangle2mat (0, 0, sigma) theta) identity = Rotation.about_z phi.
Proof.
  intros Hs Hc Hsin.
  unfold axangle2mat, matmul, identity, transpose, matvec, dot, Rotation.about_z.
  cbv zeta. rewrite Hc.
  repeat match goal with |- (_, _) = (_, _) => f_equal end; try ring.
  - rewrite <- Hsin. ring.
  - rewrite <- Hsin. ring.
  - transitivity (sigma * sigma * (1 - cos phi) + cos phi); [ring |].
    rewrite Hs. ring.
Qed.

End RotationFacts.

Section InPlaneRotation.
Import Geometry.
Local Open Scope R_scope.

(** X20.  A rotation about the z axis is recovered exactly: for two
    reference vectors in the x-y plane that are not (nearly) parallel and
    any non-empty list of angles in (-pi, pi], the call returns, and the
    matrices computed for the reference pair rotated by each angle are
    the rotations about z by those angles. *)
Theorem get_rotation_matrix_between_vectors_in_plane
  (x1 y1 x2 y2 : R) (phis : list R)
  (Hplane : (1 / 100000000 < Rabs (x1 * y2 - y1 * x2))%R)
  (Hphis : Forall (fun phi => (- PI < phi <= PI)%R) phis)
  (Hnonempty : phis <> []) :
  Geometry.get_rotation_matrix_between_vectors (x1, y1, 0%R) (x2, y2, 0%R)
    (map (fun phi => Geometry.matvec (Rotation.about_z phi) (x1, y1, 0%R)) phis)
    (map (fun phi => Geometry.matvec (Rotation.about_z phi) (x2, y2, 0%R)) phis)
  = Ok (map Rotation.about_z phis).
Proof.
  unfold Geometry.get_rotation_matrix_between_vectors.
  rewrite !length_map, Nat.eqb_refl. cbn [negb].
  destruct phis as [| phi0 phis0] eqn:Ephis; [congruence |].
  rewrite <- Ephis in *. clear Hnonempty.
  assert (Hmatch : forall (A : Type) (l : list Geometry.vec3) (x y : A),
            l <> [] -> match l with [] => x | _ :: _ => y end = y).
  { intros A l x y Hl. destruct l; [congruence | reflexivity]. }
  rewrite Hmatch by (rewrite Ephis; discriminate).
  f_equal. clear Hmatch Ephis phi0 phis0.
  induction Hphis as [| phi phis Hphi _ IH]; [reflexivity |].
  cbn [map combine fst snd]. rewrite IH. f_equal. clear IH.
  rename Hplane into Hc.
  assert (Hrow :
    (Geometry.rotation_row (x1, y1, 0) (x2, y2, 0)
       (Geometry.matvec (Rotation.about_z phi) (x1, y1, 0))
       (Geometry.matvec (Rotation.about_z phi) (x2, y2, 0))
     = Rotation.about_z phi)%R).
  { set (c := x1 * y2 - y1 * x2) in *.
    assert (Hcnz : c <> 0).
    { intros H0. rewrite H0, Rabs_R0 in Hc. lra. }
    assert (Hv1 : (x1, y1) <> (0, 0)).
    { intros [= -> ->]. apply Hcnz. unfold c. ring. }
    assert (Hv2 : (x2, y2) <> (0, 0)).
    { intros [= -> ->]. apply Hcnz. unfold c. ring. }
    unfold rotation_row. rewrite in_plane_cross. fold c.
    assert (Hfrom : cross (x1, y1, 0) (x2, y2, 0) = (0, 0, c)).
    { unfold cross, c.
      repeat match goal with |- (_, _) = (_, _) => apply f_equal2 end; ring. }
    rewrite Hfrom, cross_self.
    assert (Hsum : sum_abs (0, 0, c) = Rabs c).
    { unfold sum_abs. rewrite Rabs_R0. ring. }
    assert (Hiso : isclose0 (sum_abs (0, 0, c)) = false).
    { rewrite Hsum. apply isclose0_false. rewrite Rabs_Rabsolu. exact Hc. }
    rewrite !Hiso.
    rewrite normalize_axis by exact Hcnz.
    rewrite normalize_or_zero_zero, isclose0_zero_vector. cbn [negb].
    rewrite !matvec_identity, !in_plane_angle by assumption.
    set (w := matvec (Rotation.about_z phi) (x1, y1, 0)).
    assert (Hmask : dot (cross (x1, y1, 0) w) (0, 0, c / Rabs c)
                    = sin phi * (x1 * x1 + y1 * y1) * (c / Rabs c)).
    { unfold w, Rotation.about_z, matvec, cross, dot. ring. }
    rewrite Hmask.
    assert (Hn1 : 0 < x1 * x1 + y1 * y1).
    { destruct (Req_dec x1 0) as [E1 | E1].
      - destruct (Req_dec y1 0) as [E2 | E2]; [subst; congruence | nra].
      - nra. }
    destruct (sin_sign phi Hphi) as [Hneg Hpos].
    replace (1 / 2 * (Rabs phi + Rabs phi)) with (Rabs phi) by lra.
    destruct (Rlt_dec 0 c) as [Hcpos | Hcneg].
    - replace (c / Rabs c) with 1 by (rewrite Rabs_right by lra; field; lra).
      destruct (Rlt_dec (sin phi * (x1 * x1 + y1 * y1) * 1) 0) as [Hm | Hm].
      + assert (Hs : sin phi < 0) by nra.
        apply Hneg in Hs. rewrite Rabs_left by lra. rewrite Ropp_involutive.
        apply axangle2mat_about_z; [ring | reflexivity | ring].
      + assert (Hs : ~ sin phi < 0) by (intros Hs; apply Hm; nra).
        assert (Hp : 0 <= phi) by (destruct (Rle_dec 0 phi); [assumption | exfalso; apply Hs, Hneg; lra]).
        rewrite Rabs_right by lra.
        apply axangle2mat_about_z; [ring | reflexivity | ring].
    - replace (c / Rabs c) with (-1) by (rewrite Rabs_left by lra; field; lra).
      destruct (Rlt_dec (sin phi * (x1 * x1 + y1 * y1) * -1) 0) as [Hm | Hm].
      + assert (Hs : 0 < sin phi) by nra.
        apply Hpos in Hs. rewrite Rabs_right by lra.
        apply axangle2mat_about_z; [ring | apply cos_neg | rewrite sin_neg; ring].
      + assert (Hs : sin phi <= 0) by nra.
        destruct (Rle_dec phi 0) as [Hle | Hgt].
        * rewrite Rabs_left1 by lra.
          apply axangle2mat_about_z; [ring | apply cos_neg | rewrite sin_neg; ring].
        * assert (Hz : sin phi = 0).
          { pose proof (sin_ge_0 phi). lra. }
          rewrite Rabs_right by lra.
          apply axangle2mat_about_z; [ring | reflexivity | rewrite Hz; ring]. }
  exact Hrow.
Qed.

Lemma get_rotation_matrix_between_vectors_in_plane_witness :
  (1 / 100000000 < Rabs (1 * 1 - 0 * 0))%R /\
  Forall (fun phi => (- PI < phi <= PI)%R) [(PI / 2)%R] /\
  [(PI / 2)%R] <> [] /\
  Geometry.get_rotation_matrix_between_vectors (1, 0, 0)%R (0, 1, 0)%R
    (map (fun phi => Geometry.matvec (Rotation.about_z phi) (1, 0, 0)%R)
         [(PI / 2)%R])
    (map (fun phi => Geometry.matvec (Rotation.about_z phi) (0, 1, 0)%R)
         [(PI / 2)%R])
  = Ok (map Rotation.about_z [(PI / 2)%R]).
Proof.
  assert (H1 : (1 / 100000000 < Rabs (1 * 1 - 0 * 0))%R).
  { rewrite Rabs_right; lra. }
  assert (H2 : Forall (fun phi => (- PI < phi <= PI)%R) [(PI / 2)%R]).
  { constructor; [| constructor]. pose proof PI_RGT_0. lra. }
  assert (H3 : [(PI / 2)%R] <> []) by discriminate.
  split; [exact H1 |]. split; [exact H2 |]. split; [exact H3 |].
  exact (get_rotation_matrix_between_vectors_in_plane 1 0 0 1 [(PI / 2)%R]
           H1 H2 H3).
Defined.

End InPlaneRotation.

(** ** Normalised polar templates *)

Section NormFacts.
Import PolarMatch.
Local Open Scope R_scope.

Lemma np_sum_app (a b : list R) : np_sum (a ++ b) = np_sum a + np_sum b.
Proof.
  induction a as [| x a IH]; simpl; [ring |]. rewrite IH. ring.
Qed.

Lemma sum_sq_nonneg (l : list R) : 0 <= sum_sq l.
Proof.
  unfold sum_sq. induction l as [| x l IH]; simpl; [lra |]. nra.
Qed.

Lemma sum_sq_scale (c : R) (l : list R) :
  c <> 0 -> sum_sq (map (fun x => x / c) l) = sum_sq l / (c * c).
Proof.
  intros Hc. unfold sum_sq.
  induction l as [| x l IH]; simpl; [field; exact Hc |].
  rewrite IH. field. exact Hc.
Qed.

Lemma sum_sq_zero_all (l : list R) : sum_sq l = 0 -> Forall (fun x => x = 0) l.
Proof.
  induction l as [| x l IH]; intros H; [constructor |].
  unfold sum_sq in H. simpl in H. fold (sum_sq l) in H.
  pose proof (sum_sq_nonneg l). constructor; [nra |]. apply IH. nra.
Qed.

Lemma sqrt_sum_sq_zero (l : list R) : sqrt (sum_sq l) = 0 <-> sum_sq l = 0.
Proof.
  split.
  - intros H. apply sqrt_eq_0; [apply sum_sq_nonneg | exact H].
  - intros ->. apply sqrt_0.
Qed.

Lemma sum_sq_normalised (l : list R) :
  sum_sq l <> 0 -> sum_sq (map (fun x => x / sqrt (sum_sq l)) l) = 1.
Proof.
  intros H. rewrite sum_sq_scale.
  - rewrite sqrt_sqrt by apply sum_sq_nonneg. field. exact H.
  - intros Hz. apply H, sqrt_sum_sq_zero, Hz.
Qed.

Lemma concat_map_map {A B : Type} (f : A -> B) (l : list (list A)) :
  concat (map (map f) l) = map f (concat l).
Proof. symmetry. apply concat_map. Qed.

End NormFacts.

(** X21.  The normalisations divide by the Euclidean norm, so whatever
    they return has unit norm: [_norm_array] returns an array of the
    same shape whose squares sum to 1, unless every entry is zero (then
    all entries are NaN); [_norm_intensities] does the same row by row,
    and normalising what was normalised changes nothing. *)
Theorem norm_array_unit_norm (ar : list (list R)) :
  (PolarMatch.sum_sq (concat ar) <> 0%R ->
   exists out,
     PolarMatch._norm_array ar = Some out /\
     map (@length R) out = map (@length R) ar /\
     PolarMatch.sum_sq (concat out) = 1%R /\
     PolarMatch._norm_array out = Some out) /\
  (PolarMatch.sum_sq (concat ar) = 0%R -> PolarMatch._norm_array ar = None) /\
  Forall2 (fun row o =>
             match o with
             | Some out =>
                 length out = length row /\
                 PolarMatch.sum_sq out = 1%R /\
                 PolarMatch.norm_row out = Some out
             | None => Forall (fun x => x = 0%R) row
             end)
          ar (PolarMatch._norm_intensities ar).
Proof.
  split; [| split].
  - intros Hnz. unfold PolarMatch._norm_array.
    destruct (Req_dec_T (sqrt (PolarMatch.sum_sq (concat ar))) 0) as [Hz | _].
    { apply sqrt_sum_sq_zero in Hz. contradiction. }
    eexists. split; [reflexivity |].
    assert (Hunit : PolarMatch.sum_sq
              (concat (map (map (fun x => (x / sqrt (PolarMatch.sum_sq (concat ar)))%R)) ar))
              = 1%R).
    { rewrite concat_map_map. apply sum_sq_normalised, Hnz. }
    split; [| split].
    + rewrite map_map. apply map_ext. intros row. apply length_map.
    + exact Hunit.
    + rewrite Hunit, sqrt_1.
      destruct (Req_dec_T 1 0) as [H | _]; [lra |].
      f_equal. rewrite <- (map_id (map _ ar)) at 2.
      apply map_ext. intros row. rewrite <- (map_id row) at 2.
      apply map_ext. intros x. field.
  - intros Hz. unfold PolarMatch._norm_array. rewrite Hz, sqrt_0.
    destruct (Req_dec_T 0 0) as [_ | H]; [reflexivity | congruence].
  - unfold PolarMatch._norm_intensities.
    induction ar as [| row ar IH]; simpl; constructor; [| exact IH].
    unfold PolarMatch.norm_row.
    destruct (Req_dec_T (sqrt (PolarMatch.sum_sq row)) 0) as [Hz | Hnz].
    + apply sum_sq_zero_all, sqrt_sum_sq_zero, Hz.
    + assert (Hrow : PolarMatch.sum_sq row <> 0%R).
      { intros H. apply Hnz, sqrt_sum_sq_zero, H. }
      pose proof (sum_sq_normalised row Hrow) as Hunit.
      split; [apply length_map |]. split; [exact Hunit |].
      rewrite Hunit, sqrt_1.
      destruct (Req_dec_T 1 0) as [H | _]; [lra |].
      f_equal. rewrite <- (map_id (map _ row)) at 2.
      apply map_ext. intros x. field.
Qed.

Section IntegrateFacts.
Import PolarMatch.
Local Open Scope R_scope.

Lemma wrap_spec (n : nat) (i : Z) (k : nat) :
  wrap n i = Some k ->
  (k < n)%nat /\ Z.of_nat k = (i mod Z.of_nat n)%Z.
Proof.
  unfold wrap.
  destruct ((0 <=? i)%Z && (i <? Z.of_nat n)%Z) eqn:E1.
  - apply andb_prop in E1. destruct E1 as [H1 H2].
    apply Z.leb_le in H1. apply Z.ltb_lt in H2.
    intros [= <-]. split; [lia |].
    rewrite Z.mod_small by lia. lia.
  - destruct ((- Z.of_nat n <=? i)%Z && (i <? 0)%Z) eqn:E2; [| discriminate].
    apply andb_prop in E2. destruct E2 as [H1 H2].
    apply Z.leb_le in H1. apply Z.ltb_lt in H2.
    intros [= <-]. split; [lia |].
    rewrite Z2Nat.id by lia.
    apply Z.mod_unique with (q := (-1)%Z); lia.
Qed.

Lemma add_at_length (k : nat) (x : R) (row : list R) :
  length (add_at k x row) = length row.
Proof.
  revert k. induction row as [| y row IH]; intros [| k]; simpl; auto.
Qed.

Lemma add_at_nth (k : nat) (x : R) (row : list R) (i : nat) :
  (k < length row)%nat ->
  nth i (add_at k x row) 0 = nth i row 0 + (if (i =? k)%nat then x else 0).
Proof.
  revert k i. induction row as [| y row IH]; intros k i Hk; simpl in Hk; [lia |].
  destruct k as [| k]; destruct i as [| i]; simpl; try ring.
  apply IH. lia.
Qed.

Lemma bin_nil (n k : nat) (r_template : list Z) : bin n k r_template [] = 0.
Proof. unfold bin. destruct r_template; reflexivity. Qed.

Lemma bin_cons (n k : nat) (r : Z) (rs : list Z) (x : R) (xs : list R) :
  bin n k (r :: rs) (x :: xs)
  = (if (r mod Z.of_nat n =? Z.of_nat k)%Z then x else 0) + bin n k rs xs.
Proof.
  unfold bin. simpl.
  destruct (r mod Z.of_nat n =? Z.of_nat k)%Z; simpl; ring.
Qed.

Lemma skipn_nth_error {A : Type} (l : list A) (j : nat) (a : A) :
  nth_error l j = Some a -> skipn j l = a :: skipn (S j) l.
Proof.
  revert j. induction l as [| x l IH]; intros [| j] H; simpl in *;
    try discriminate.
  - injection H as ->. reflexivity.
  - apply IH, H.
Qed.

Lemma accumulate_spec (intensity : list R) :
  forall row r_template j row',
    accumulate row r_template j intensity = Ok row' ->
    length row' = length row /\
    forall k, (k < length row)%nat ->
      nth k row' 0
      = nth k row 0 + bin (length row) k (skipn j r_template) intensity.
Proof.
  induction intensity as [| inten rest IH]; intros row rt j row' H; simpl in H.
  - injection H as <-. split; [reflexivity |].
    intros k _. rewrite bin_nil. ring.
  - unfold getitem in H.
    destruct (nth_error rt j) as [r_p |] eqn:Hr; [| discriminate].
    cbn [Py.bind] in H.
    destruct (wrap (length row) r_p) as [k0 |] eqn:Hw; [| discriminate].
    destruct (wrap_spec _ _ _ Hw) as [Hk0 Hmod].
    apply IH in H. destruct H as [Hlen Hnth].
    rewrite add_at_length in Hlen, Hnth.
    split; [exact Hlen |].
    intros k Hk. rewrite (Hnth k Hk), add_at_nth by exact Hk0.
    rewrite (skipn_nth_error _ _ _ Hr), bin_cons, <- Hmod.
    destruct (Nat.eqb_spec k k0) as [-> | Hne].
    + rewrite Z.eqb_refl. ring.
    + destruct (Z.eqb_spec (Z.of_nat k0) (Z.of_nat k)) as [E | _]; [lia | ring].
Qed.

Lemma nth_repeat_zero (n k : nat) : nth k (repeat 0 n) 0 = 0.
Proof.
  revert k. induction n as [| n IH]; intros [| k]; simpl; auto.
Qed.

Lemma wrap_none (n : nat) (i : Z) :
  (i < - Z.of_nat n \/ Z.of_nat n <= i)%Z -> wrap n i = None.
Proof.
  intros H. unfold wrap.
  destruct (Z.leb_spec 0 i); destruct (Z.ltb_spec i (Z.of_nat n));
    destruct (Z.leb_spec (- Z.of_nat n) i); destruct (Z.ltb_spec i 0);
    simpl; try reflexivity; lia.
Qed.

Lemma add_at_sum (k : nat) (x : R) (row : list R) :
  (k < length row)%nat -> np_sum (add_at k x row) = np_sum row + x.
Proof.
  revert k. induction row as [| y row IH]; intros k Hk; simpl in Hk; [lia |].
  destruct k as [| k]; simpl; [ring |]. rewrite IH by lia. ring.
Qed.

Lemma accumulate_sum (intensity : list R) :
  forall row r_template j row',
    accumulate row r_template j intensity = Ok row' ->
    np_sum row' = np_sum row + np_sum intensity.
Proof.
  induction intensity as [| inten rest IH]; intros row rt j row' H; simpl in H.
  - injection H as <-. simpl. ring.
  - unfold getitem in H.
    destruct (nth_error rt j) as [r_p |]; [| discriminate].
    cbn [Py.bind] in H.
    destruct (wrap (length row) r_p) as [k0 |] eqn:Hw; [| discriminate].
    destruct (wrap_spec _ _ _ Hw) as [Hk0 _].
    apply IH in H. rewrite H, add_at_sum by exact Hk0. simpl. ring.
Qed.

Lemma accumulate_in_range (intensity : list R) :
  forall row r_template j0 row',
    accumulate row r_template j0 intensity = Ok row' ->
    forall j r_p, (j < length intensity)%nat ->
      nth_error r_template (j0 + j) = Some r_p ->
      wrap (length row) r_p <> None.
Proof.
  induction intensity as [| inten rest IH]; intros row rt j0 row' H j r_p Hj Hr;
    simpl in Hj; [lia |].
  simpl in H. unfold getitem in H.
  destruct (nth_error rt j0) as [r0 |] eqn:Hr0; [| discriminate].
  cbn [Py.bind] in H.
  destruct (wrap (length row) r0) as [k0 |] eqn:Hw; [| discriminate].
  destruct j as [| j].
  - rewrite Nat.add_0_r in Hr. congruence.
  - rewrite <- (add_at_length k0 inten row).
    apply (IH _ _ _ _ H j r_p); [lia |].
    rewrite <- Hr. f_equal. lia.
Qed.

Lemma accumulate_raises (intensity : list R) :
  forall row r_template j e,
    accumulate row r_template j intensity = Raise e -> e = IndexError.
Proof.
  induction intensity as [| inten rest IH]; intros row rt j e H; simpl in H;
    [discriminate |].
  unfold getitem in H.
  destruct (nth_error rt j) as [r0 |]; [| injection H as <-; reflexivity].
  cbn [Py.bind] in H.
  destruct (wrap (length row) r0) as [k0 |];
    [apply IH in H; exact H | injection H as <-; reflexivity].
Qed.

Lemma map_result_raises {A B : Type} (f : A -> result B) (l : list A) (e0 : exn) :
  (forall x e, f x = Raise e -> e = e0) ->
  forall e, Vectors.map_result f l = Raise e -> e = e0.
Proof.
  intros Hf. induction l as [| x l IH]; intros e H; simpl in H; [discriminate |].
  destruct (f x) as [y |] eqn:E; cbn [Py.bind] in H.
  - destruct (Vectors.map_result f l) as [ys |]; cbn [Py.bind] in H;
      [discriminate |].
    injection H as <-. apply IH. reflexivity.
  - injection H as <-. apply (Hf x). exact E.
Qed.

Lemma forall2_nth_error {A B : Type} (P : A -> B -> Prop) (l : list A) (l' : list B) :
  Forall2 P l l' ->
  forall i x, nth_error l i = Some x ->
              exists y, nth_error l' i = Some y /\ P x y.
Proof.
  induction 1 as [| a b l l' Hab _ IH]; intros i x Hx.
  - destruct i; discriminate.
  - destruct i as [| i]; simpl in *.
    + injection Hx as <-. exists b. auto.
    + apply IH, Hx.
Qed.

Lemma nth_error_enumerate {A : Type} (l : list A) :
  forall s i x, nth_error l i = Some x ->
    nth_error (combine (seq s (length l)) l) i = Some ((s + i)%nat, x).
Proof.
  induction l as [| a l IH]; intros s i x H; [destruct i; discriminate |].
  destruct i as [| i]; simpl in *.
  - injection H as <-. rewrite Nat.add_0_r. reflexivity.
  - rewrite (IH (S s) i x H). do 2 f_equal. lia.
Qed.

Lemma forall2_length {A B : Type} (P : A -> B -> Prop) (l : list A) (l' : list B) :
  Forall2 P l l' -> length l = length l'.
Proof. induction 1; simpl; congruence. Qed.

End IntegrateFacts.

(** X22.  When [_get_integrated_polar_templates] returns, it returns one
    row per row of [r_templates]; the row of a template is the
    normalised row of [r_max] bins in which bin [k] holds the total
    intensity of the template's spots at radius [k] (a negative radius
    counts from the end), so no intensity is lost or counted twice.  The
    call raises [IndexError] as soon as a radius falls outside the
    [r_max] bins. *)
Theorem get_integrated_polar_templates_bins (r_max : nat)
  (r_templates : list (list Z)) (intensities_templates : list (list R)) :
  (forall out,
     PolarMatch._get_integrated_polar_templates r_max r_templates
       intensities_templates = Ok out ->
     length out = length r_templates /\
     forall i r_template intensity,
       nth_error r_templates i = Some r_template ->
       nth_error intensities_templates i = Some intensity ->
       exists bins,
         length bins = r_max /\
         (forall k, (k < r_max)%nat ->
            nth k bins 0%R = PolarMatch.bin r_max k r_template intensity) /\
         PolarMatch.np_sum bins = PolarMatch.np_sum intensity /\
         nth_error out i = Some (PolarMatch.norm_row bins)) /\
  (forall i r_template intensity j r_p,
     nth_error r_templates i = Some r_template ->
     nth_error intensities_templates i = Some intensity ->
     (j < length intensity)%nat ->
     nth_error r_template j = Some r_p ->
     (r_p < - Z.of_nat r_max \/ Z.of_nat r_max <= r_p)%Z ->
     PolarMatch._get_integrated_polar_templates r_max r_templates
       intensities_templates = Raise IndexError).
Proof.
  set (f := fun p : nat * list R =>
              r_template <- getitem r_templates (fst p) ;;
              PolarMatch.accumulate (repeat 0%R r_max) r_template 0 (snd p)).
  assert (Hok : forall out,
    PolarMatch._get_integrated_polar_templates r_max r_templates
      intensities_templates = Ok out ->
    exists rows,
      out = PolarMatch._norm_integrated_templates
              (rows ++ repeat (repeat 0%R r_max)
                         (length r_templates - length intensities_templates)) /\
      length rows = length intensities_templates /\
      forall i intensity, nth_error intensities_templates i = Some intensity ->
        exists row r_template,
          nth_error rows i = Some row /\
          nth_error r_templates i = Some r_template /\
          PolarMatch.accumulate (repeat 0%R r_max) r_template 0 intensity = Ok row).
  { intros out Hout. unfold PolarMatch._get_integrated_polar_templates in Hout.
    fold f in Hout.
    destruct (Vectors.map_result f _) as [rows |] eqn:Hrows; [| discriminate].
    cbn [Py.bind] in Hout. injection Hout as <-.
    apply map_result_forall2 in Hrows.
    exists rows. split; [reflexivity |]. split.
    - rewrite <- (forall2_length _ _ _ Hrows), length_combine, length_seq. lia.
    - intros i intensity Hi.
      pose proof (nth_error_enumerate _ 0 i intensity Hi) as He.
      destruct (forall2_nth_error _ _ _ Hrows _ _ He) as (row & Hrow & Hf).
      unfold f, getitem in Hf. simpl in Hf.
      destruct (nth_error r_templates i) as [rt |]; [| discriminate].
      cbn [Py.bind] in Hf. exists row, rt. auto. }
  split.
  - intros out Hout. destruct (Hok out Hout) as (rows & -> & Hlen & Hrows).
    assert (Hle : (length intensities_templates <= length r_templates)%nat).
    { destruct (le_lt_dec (length intensities_templates) (length r_templates))
        as [H | H]; [exact H | exfalso].
      destruct (nth_error intensities_templates (length r_templates))
        as [it |] eqn:E.
      - destruct (Hrows _ _ E) as (_ & rt & _ & Hrt & _).
        apply nth_error_Some in H. 
        assert (Hnone : nth_error r_templates (length r_templates) = None)
          by (apply nth_error_None; lia).
        congruence.
      - apply nth_error_None in E. lia. }
    split.
    { unfold PolarMatch._norm_integrated_templates.
      rewrite length_map, length_app, repeat_length. lia. }
    intros i rt it Hrt Hit.
    destruct (Hrows _ _ Hit) as (row & rt' & Hrow & Hrt' & Hacc).
    assert (rt' = rt) by congruence. subst rt'.
    destruct (accumulate_spec _ _ _ _ _ Hacc) as [Hl Hnth].
    rewrite repeat_length in Hl, Hnth.
    exists row. split; [exact Hl |]. split; [| split].
    + intros k Hk. rewrite (Hnth k Hk), nth_repeat_zero. simpl. ring.
    + rewrite (accumulate_sum _ _ _ _ _ Hacc).
      assert (Hz : PolarMatch.np_sum (repeat 0%R r_max) = 0%R).
      { clear. induction r_max as [| n IH]; simpl; [reflexivity |].
        rewrite IH. ring. }
      rewrite Hz. ring.
    + unfold PolarMatch._norm_integrated_templates.
      rewrite nth_error_map, nth_error_app1
        by (apply nth_error_Some; congruence).
      rewrite Hrow. reflexivity.
  - intros i rt it j r_p Hrt Hit Hj Hr Hout_of_range.
    destruct (PolarMatch._get_integrated_polar_templates r_max r_templates
                intensities_templates) as [out | e] eqn:Hres.
    + exfalso. destruct (Hok out eq_refl) as (rows & _ & _ & Hrows).
      destruct (Hrows _ _ Hit) as (row & rt' & _ & Hrt' & Hacc).
      assert (rt' = rt) by congruence. subst rt'.
      apply (accumulate_in_range _ _ _ _ _ Hacc j r_p Hj Hr).
      rewrite repeat_length. apply wrap_none, Hout_of_range.
    + f_equal. unfold PolarMatch._get_integrated_polar_templates in Hres.
      fold f in Hres.
      destruct (Vectors.map_result f _) as [rows |] eqn:Hrows; [discriminate |].
      cbn [Py.bind] in Hres. injection Hres as <-.
      apply (map_result_raises f _ IndexError) in Hrows; [exact Hrows |].
      intros [i0 it0] e' He'. unfold f, getitem in He'. simpl in He'.
      destruct (nth_error r_templates i0) as [rt0 |];
        [| injection He' as <-; reflexivity].
      cbn [Py.bind] in He'. apply accumulate_raises in He'. exact He'.
Qed.

Section ShiftFacts.
Import PolarMatch.
Local Open Scope R_scope.

Lemma all_some_map_some {A B : Type} (f : A -> option B) (l : list A) :
  Forall (fun a => f a <> None) l -> all_some (map f l) <> None.
Proof.
  induction 1 as [| a l Ha _ IH]; simpl; [discriminate |].
  destruct (f a); [| congruence].
  destruct (all_some (map f l)); [discriminate | congruence].
Qed.

Lemma all_some_length {A : Type} (l : list (option A)) (r : list A) :
  all_some l = Some r -> length r = length l.
Proof.
  revert r. induction l as [| [a |] l IH]; intros r H; simpl in H.
  - injection H as <-. reflexivity.
  - destruct (all_some l) as [r' |]; [| discriminate].
    injection H as <-. simpl. f_equal. apply IH. reflexivity.
  - discriminate.
Qed.

Lemma wrap_in_range (n : nat) (i : Z) :
  (0 <= i < Z.of_nat n)%Z -> wrap n i = Some (Z.to_nat i).
Proof.
  intros [H1 H2]. unfold wrap.
  destruct (Z.leb_spec 0 i); [| lia].
  destruct (Z.ltb_spec i (Z.of_nat n)); [reflexivity | lia].
Qed.

End ShiftFacts.

(** X23.  Rotating a template by [k] azimuthal steps shifts the
    correlations of [_match_polar_to_polar_template] cyclically by [k]:
    the correlation at shift [i] of the rotated template is the
    correlation at shift [(i + k) mod shape0] of the template itself.
    There is one correlation per row of the polar image, and each is a
    number when the image is rectangular, the radii lie inside it, the
    template arrays have one length and the squared sum of the template
    intensities is below the number of pixels. *)
Theorem match_polar_to_polar_template_shift
  (polar_image : list (list R)) (r_template theta_template : list Z)
  (intensities : list R) :
  let shape0 := length polar_image in
  let shape1 := length (hd [] polar_image) in
  let correlation :=
    PolarMatch._match_polar_to_polar_template polar_image r_template
      theta_template intensities in
  length correlation = shape0 /\
  (forall (k : Z) (i : nat), (i < shape0)%nat ->
     nth_error
       (PolarMatch._match_polar_to_polar_template polar_image r_template
          (map (fun t => (t + k)%Z) theta_template) intensities) i
     = nth_error correlation
         (Z.to_nat ((Z.of_nat i + k) mod Z.of_nat shape0))) /\
  (Forall (fun row => length row = shape1) polar_image ->
   Forall (fun r => (0 <= r < Z.of_nat shape1)%Z) r_template ->
   length theta_template = length r_template ->
   length intensities = length r_template ->
   (PolarMatch.np_sum intensities * PolarMatch.np_sum intensities
    < INR (shape0 * shape1))%R ->
   Forall (fun c => c <> None) correlation).
Proof.
  intros shape0 shape1 correlation.
  assert (Hnth : forall theta i, (i < shape0)%nat ->
            nth_error
              (PolarMatch._match_polar_to_polar_template polar_image r_template
                 theta intensities) i
            = Some
                match PolarMatch._extract_pixel_intensities polar_image r_template
                        (map (fun t => ((t + Z.of_nat i) mod Z.of_nat shape0)%Z)
                             theta) with
                | None => None
                | Some image_intensities =>
                    PolarMatch._pearson_correlation image_intensities intensities
                      (shape0 * shape1)
                end).
  { intros theta i Hi. unfold PolarMatch._match_polar_to_polar_template.
    fold shape0. fold shape1.
    rewrite nth_error_map.
    assert (Hs : nth_error (seq 0 shape0) i = Some i).
    { rewrite nth_error_nth' with (d := 0%nat) by (rewrite length_seq; exact Hi).
      rewrite seq_nth by exact Hi. reflexivity. }
    rewrite Hs. reflexivity. }
  split; [| split].
  - unfold correlation, PolarMatch._match_polar_to_polar_template.
    rewrite length_map, length_seq. reflexivity.
  - intros k i Hi.
    assert (Hpos : (0 < Z.of_nat shape0)%Z) by lia.
    pose proof (Z.mod_pos_bound (Z.of_nat i + k) (Z.of_nat shape0) Hpos) as Hb.
    unfold correlation.
    rewrite (Hnth _ i Hi), (Hnth _ (Z.to_nat _)) by lia.
    f_equal. rewrite map_map.
    assert (Hmap :
      map (fun t => ((t + k + Z.of_nat i) mod Z.of_nat shape0)%Z) theta_template
      = map (fun t =>
               ((t + Z.of_nat
                       (Z.to_nat ((Z.of_nat i + k) mod Z.of_nat shape0)))
                mod Z.of_nat shape0)%Z) theta_template).
    { apply map_ext. intros t. rewrite Z2Nat.id by lia.
      rewrite Z.add_mod_idemp_r by lia. f_equal. lia. }
    rewrite Hmap. reflexivity.
  - intros Hrect Hr Htheta Hint Hsum.
    unfold correlation, PolarMatch._match_polar_to_polar_template.
    fold shape0. fold shape1.
    apply Forall_map, Forall_forall. intros i Hi.
    apply in_seq in Hi. simpl in Hi.
    assert (Hpos : (0 < Z.of_nat shape0)%Z) by lia.
    destruct (PolarMatch._extract_pixel_intensities polar_image r_template _)
      as [image_intensities |] eqn:He.
    + apply all_some_length in He. rewrite length_map, length_seq in He.
      unfold PolarMatch._pearson_correlation.
      rewrite He, Hint, Nat.eqb_refl. cbn [negb].
      destruct (shape0 * shape1)%nat as [| n] eqn:En.
      * simpl in Hsum. pose proof (Rle_0_sqr (PolarMatch.np_sum intensities)) as H0.
        unfold Rsqr in H0. lra.
      * assert (Hn : (0 < INR (S n))%R) by (apply lt_0_INR; lia).
        destruct (Rlt_dec 0 _) as [_ | Hd]; [discriminate |].
        exfalso. apply Hd.
        apply Rmult_lt_reg_r with (r := INR (S n)); [exact Hn |].
        unfold Rdiv. rewrite Rmult_0_l, Rmult_minus_distr_r, Rmult_1_l.
        rewrite Rmult_assoc, Rinv_l by lra. lra.
    + exfalso. revert He. unfold PolarMatch._extract_pixel_intensities.
      apply all_some_map_some, Forall_forall. intros j Hj.
      apply in_seq in Hj. simpl in Hj.
      rewrite nth_error_map.
      destruct (nth_error theta_template j) as [t |] eqn:Ht;
        [| apply nth_error_None in Ht; lia].
      destruct (nth_error r_template j) as [r |] eqn:Hrj;
        [| apply nth_error_None in Hrj; lia].
      simpl.
      rewrite Forall_forall in Hr. specialize (Hr r (nth_error_In _ _ Hrj)).
      pose proof (Z.mod_pos_bound (t + Z.of_nat i) (Z.of_nat shape0) Hpos) as Hb.
      unfold PolarMatch.pixel. fold shape0.
      rewrite wrap_in_range by exact Hb.
      destruct (nth_error polar_image _) as [row |] eqn:Hrow;
        [| apply nth_error_None in Hrow; fold shape0 in Hrow; lia].
      rewrite Forall_forall in Hrect.
      specialize (Hrect row (nth_error_In _ _ Hrow)).
      rewrite Hrect, wrap_in_range by exact Hr.
      intros Hnone. apply nth_error_None in Hnone. lia.
Qed.

(** ** From polar coordinates and back *)

Section PolarBack.
Import Geometry.
Local Open Scope R_scope.

Lemma cos_sign (phi : R) : - PI < phi <= PI ->
  (0 < cos phi -> - (PI / 2) < phi < PI / 2) /\
  (cos phi < 0 -> phi < - (PI / 2) \/ PI / 2 < phi) /\
  (cos phi = 0 -> phi = - (PI / 2) \/ phi = PI / 2).
Proof.
  intros [Hlo Hhi]. pose proof PI_RGT_0 as Hpi.
  assert (Hin : - (PI / 2) < phi < PI / 2 -> 0 < cos phi).
  { intros [H1 H2]. apply cos_gt_0; assumption. }
  assert (Hup : PI / 2 < phi -> cos phi < 0).
  { intros H. apply cos_lt_0; lra. }
  assert (Hdn : phi < - (PI / 2) -> cos phi < 0).
  { intros H. rewrite <- cos_neg. apply cos_lt_0; lra. }
  assert (Hp : cos (PI / 2) = 0) by apply cos_PI2.
  assert (Hm : cos (- (PI / 2)) = 0) by (rewrite cos_neg; apply cos_PI2).
  destruct (Rtotal_order phi (- (PI / 2))) as [H | [H | H]].
  - specialize (Hdn H). repeat split; intros; lra.
  - subst phi. repeat split; intros; lra.
  - destruct (Rtotal_order phi (PI / 2)) as [H' | [H' | H']].
    + specialize (Hin (conj H H')). repeat split; intros; lra.
    + subst phi. repeat split; intros; lra.
    + specialize (Hup H'). repeat split; intros; lra.
Qed.

Lemma tan_shift (x : R) : cos x <> 0 -> tan (x + PI) = tan x /\ tan (x - PI) = tan x.
Proof.
  intros Hc. unfold tan. split.
  - rewrite neg_sin, neg_cos. field. exact Hc.
  - replace (x - PI) with (- (PI - x)) by ring.
    rewrite sin_neg, cos_neg.
    replace (PI - x) with (- x + PI) by ring.
    rewrite neg_sin, neg_cos, sin_neg, cos_neg. field. exact Hc.
Qed.

Lemma arctan2_polar (k phi : R) :
  0 < k -> - PI < phi <= PI -> arctan2 (k * sin phi) (k * cos phi) = phi.
Proof.
  intros Hk Hphi. pose proof PI_RGT_0 as Hpi.
  destruct (cos_sign phi Hphi) as (Hpos & Hneg & Hzero).
  destruct (sin_sign phi Hphi) as [Hsneg Hspos].
  unfold arctan2.
  assert (Htan : cos phi <> 0 -> k * sin phi / (k * cos phi) = tan phi).
  { intros Hc. unfold tan. field. split; lra. }
  destruct (Rlt_dec 0 (k * cos phi)) as [Hc | Hc].
  - assert (Hc' : 0 < cos phi) by nra.
    rewrite Htan by lra. apply atan_tan, Hpos, Hc'.
  - destruct (Rlt_dec (k * cos phi) 0) as [Hc2 | Hc2].
    + assert (Hc' : cos phi < 0) by nra.
      rewrite Htan by lra.
      destruct (tan_shift phi) as [Hplus Hminus]; [lra |].
      destruct (Rle_dec 0 (k * sin phi)) as [Hs | Hs].
      * assert (Hs' : ~ sin phi < 0) by nra.
        assert (Hge : PI / 2 < phi).
        { destruct (Hneg Hc') as [H | H]; [| exact H].
          exfalso. apply Hs', Hsneg. lra. }
        rewrite <- Hminus. rewrite atan_tan by lra. ring.
      * assert (Hs' : sin phi < 0) by nra.
        apply Hsneg in Hs'.
        assert (Hle : phi < - (PI / 2)).
        { destruct (Hneg Hc') as [H | H]; [exact H | lra]. }
        rewrite <- Hplus. rewrite atan_tan by lra. ring.
    + assert (Hc' : cos phi = 0) by nra.
      destruct (Hzero Hc') as [-> | ->].
      * rewrite sin_neg, sin_PI2.
        destruct (Rlt_dec 0 (k * - (1))) as [H | _]; [lra |].
        destruct (Rlt_dec (k * - (1)) 0) as [_ | H]; [reflexivity | lra].
      * rewrite sin_PI2.
        destruct (Rlt_dec 0 (k * 1)) as [_ | H]; [reflexivity | lra].
Qed.

Lemma hypot_polar (k phi : R) :
  0 <= k ->
  sqrt (k * cos phi * (k * cos phi) + k * sin phi * (k * sin phi)) = k.
Proof.
  intros Hk.
  replace (k * cos phi * (k * cos phi) + k * sin phi * (k * sin phi))
    with ((cos phi * cos phi + sin phi * sin phi) * (k * k)) by ring.
  rewrite sin_cos_sqr, Rmult_1_l. apply sqrt_square, Hk.
Qed.

End PolarBack.

(** X24.  Polar coordinates with a positive radius and an angle in
    (-pi, pi] are recovered: [vectors_to_polar] applied to what
    [polar_to_cartesian] returns gives the radius and the angle back, so
    the angles [vectors_to_polar] returns are the ones of that range. *)
Theorem vectors_to_polar_polar_to_cartesian (v : list Geometry.vrow)
  (Hrange : Forall (fun r => (0 < Geometry.col0 r /\
                              - PI < Geometry.col1 r <= PI)%R) v) :
  map (fun r => (Geometry.col0 r, Geometry.col1 r))
      (Geometry.vectors_to_polar
         (map (fun p => Geometry.mk_vrow (fst p) (snd p) [])
              (Geometry.polar_to_cartesian v)))
  = map (fun r => (Geometry.col0 r, Geometry.col1 r)) v.
Proof.
  unfold Geometry.vectors_to_polar, Geometry.polar_to_cartesian.
  rewrite !map_map.
  induction Hrange as [| r v [Hk Hphi] _ IH]; [reflexivity |].
  cbn [map]. rewrite IH. f_equal.
  cbn [Geometry.col0 Geometry.col1 fst snd].
  rewrite hypot_polar by lra.
  rewrite arctan2_polar by assumption.
  reflexivity.
Qed.

Lemma vectors_to_polar_polar_to_cartesian_witness :
  Forall (fun r => (0 < Geometry.col0 r /\
                    - PI < Geometry.col1 r <= PI)%R)
         [Geometry.mk_vrow 2 PI []] /\
  map (fun r => (Geometry.col0 r, Geometry.col1 r))
      (Geometry.vectors_to_polar
         (map (fun p => Geometry.mk_vrow (fst p) (snd p) [])
              (Geometry.polar_to_cartesian [Geometry.mk_vrow 2 PI []])))
  = map (fun r => (Geometry.col0 r, Geometry.col1 r))
        [Geometry.mk_vrow 2 PI []].
Proof.
  assert (H : Forall (fun r => (0 < Geometry.col0 r /\
                                - PI < Geometry.col1 r <= PI)%R)
                     [Geometry.mk_vrow 2 PI []]).
  { constructor; [| constructor]. simpl. pose proof PI_RGT_0. lra. }
  split; [exact H |].
  exact (vectors_to_polar_polar_to_cartesian _ H).
Defined.

